(** * PolySurge anomaly engine: a shallow embedding of [dashboard/app.js]

    The development embeds the detection-and-scoring core of the dashboard
    ([detectAnomalies], [median], [calculateAnomalyScore],
    [calculatePriceChange] and the per-market guard of [analyzeAllMarkets])
    and proves the properties the specification states about it.

    Conventions of the embedding.
    - A JavaScript number that carries money, a price or a ratio is an exact
      rational in canonical form ([Qc]), so that equal numbers are equal
      terms. Whether a comparison that sits within a rounding error of its
      threshold holds depends on the rounding of IEEE doubles: module
      [Double] embeds the engine over binary64 floats for the statements
      that depend on it.
    - Timestamps are integer epoch seconds ([Z]).
    - A field read through [x || d] in the source ([size], [price]) is an
      [option Qc]: [None] is a missing field, and [0] is falsy as in
      JavaScript.
    - A property read on [undefined] raises a TypeError in JavaScript; the
      embedding makes that explicit with the [result] type. *)

From Stdlib Require Import String.
From Stdlib Require Import List ZArith QArith Qcanon Qcabs Qround.
From Stdlib Require Import Bool Lia Lqa Permutation Sorted.
From Stdlib Require Import PrimFloat.
From Stdlib Require Uint63.
Import ListNotations.

Set Implicit Arguments.

(* Numbers are written with explicit scope delimiters. *)
Close Scope Qc_scope.
Close Scope Q_scope.
Open Scope list_scope.

(** ** JavaScript numbers *)

Module Num.

Definition of_Z (z : Z) : Qc := Q2Qc (inject_Z z).
Definition of_nat (n : nat) : Qc := of_Z (Z.of_nat n).
Definition frac (n : Z) (d : positive) : Qc := Q2Qc (n # d).

(** [a <= b] and [a > b] on numbers, as booleans. *)
Definition leb (a b : Qc) : bool := Qle_bool a b.
Definition gtb (a b : Qc) : bool := negb (Qle_bool a b).
Definition ltb (a b : Qc) : bool := gtb b a.

(** [x || d] where [x] is a possibly missing numeric field. *)
Definition or_default (x : option Qc) (d : Qc) : Qc :=
  match x with
  | Some v => if Qc_eq_bool v 0 then d else v
  | None => d
  end.

(** [Math.round]: the nearest integer, halves rounded up. *)
Definition Math_round (x : Qc) : Z := Qfloor (x + frac 1 2)%Qc.

Definition max (a b : Qc) : Qc := if leb a b then b else a.
Definition min (a b : Qc) : Qc := if leb a b then a else b.

(** [Math.max(...l)] and [Math.min(...l)] on a non-empty argument list
    (the source only spreads windows of at least three prices). *)
Definition Math_max (l : list Qc) : Qc :=
  match l with
  | [] => 0%Qc
  | p :: ps => fold_left max ps p
  end.
Definition Math_min (l : list Qc) : Qc :=
  match l with
  | [] => 0%Qc
  | p :: ps => fold_left min ps p
  end.

End Num.

(** ** Completions: a value, or a thrown TypeError *)

Inductive result (A : Type) : Type :=
| Ok (a : A)
| Throw.
Arguments Ok {A} a.
Arguments Throw {A}.

Definition bind {A B : Type} (r : result A) (k : A -> result B) : result B :=
  match r with
  | Ok a => k a
  | Throw => Throw
  end.

Notation "x <- r ;; k" := (bind r (fun x => k))
  (at level 61, r at next level, right associativity).

(** A [for] loop whose body pushes zero or more elements on one output
    array. *)
Fixpoint for_push {A B : Type} (body : A -> result (list B)) (xs : list A)
  : result (list B) :=
  match xs with
  | [] => Ok []
  | x :: rest =>
      out <- body x ;;
      more <- for_push body rest ;;
      Ok (out ++ more)
  end.

(** ** [Array.prototype.sort] with a comparator

    The sort is stable; [leb a b] stands for [cmp(a, b) <= 0]. *)

Section JsSort.
Variable A : Type.
Variable leb : A -> A -> bool.

Fixpoint insert (x : A) (l : list A) : list A :=
  match l with
  | [] => [x]
  | y :: ys => if leb x y then x :: y :: ys else y :: insert x ys
  end.

Definition js_sort (l : list A) : list A := fold_right insert [] l.
End JsSort.

(** ** [median] (app.js, lines 435-440) *)

Definition median (arr : list Qc) : Qc :=
  if (length arr =? 0)%nat then 0%Qc
  else
    let sorted := js_sort Num.leb arr in
    let mid := (length sorted / 2)%nat in
    if (length sorted mod 2 =? 0)%nat
    then ((nth (mid - 1) sorted 0 + nth mid sorted 0) / Num.of_Z 2)%Qc
    else nth mid sorted 0%Qc.

(** ** Data model *)

Inductive Side : Type := BUY | SELL | OtherSide.

Definition Side_eqb (a b : Side) : bool :=
  match a, b with
  | BUY, BUY | SELL, SELL | OtherSide, OtherSide => true
  | _, _ => false
  end.

(** A trade record as the trade endpoint returns it. *)
Record Trade : Type := mkTrade {
  timestamp : Z;
  proxyWallet : string;
  side : Side;
  size : option Qc;
  price : option Qc
}.

(** A market descriptor as [fetchMarkets] builds it (the fields the engine
    reads). *)
Record Market : Type := mkMarket {
  conditionId : string;
  question : string;
  slug : string;
  market_type : string;
  volume24h : Qc;
  liquidity : Qc
}.

(** The strings pushed on [anomalies]; [unknown_kind] stands for a string
    that is no key of [typeWeights]. *)
Inductive Kind : Type :=
| volume_spike | whale_trade | imbalance | price_move | high_frequency
| unknown_kind.

Inductive Direction : Type := up | down | flat.

Record PriceChange : Type := mkPriceChange {
  change : Qc;
  direction : Direction;
  futurePrice : Qc;
  eventPrice : Qc;
  tradeCount : nat
}.

(** The object pushed on [events]; [datetime], a display string of the
    timestamp, is left out. *)
Record Event : Type := mkEvent {
  ev_timestamp : Z;
  ev_market : string;
  ev_marketType : string;
  ev_conditionId : string;
  ev_slug : string;
  ev_anomalies : list Kind;
  ev_walletCount : nat;
  ev_totalVolume : Qc;
  ev_netVolume : Qc;
  ev_volumeRatio : Qc;
  ev_tradeSize : Qc;
  ev_priceRangePct : Qc;
  ev_isBuy : bool;
  ev_tradeCount : nat;
  ev_score : Z;
  ev_priceChange : option PriceChange
}.

(** ** [calculateAnomalyScore] (app.js, lines 446-494) *)

Record ScoreParams : Type := mkScoreParams {
  anomalies : list Kind;
  volumeRatio : Qc;
  tradeSizeRatio : Qc;
  priceRangePct : Qc;
  sp_tradeCount : nat;
  imbalanceRatio : Qc;
  marketLiquidity : Qc;
  marketVolume : Qc
}.

(** The object literal [typeWeights], read by key. *)
Definition typeWeights (type : Kind) : option Z :=
  match type with
  | whale_trade => Some 15%Z
  | volume_spike => Some 12%Z
  | price_move => Some 10%Z
  | imbalance => Some 8%Z
  | high_frequency => Some 5%Z
  | unknown_kind => None
  end.

(** [typeWeights[type] || 5] *)
Definition kind_weight (type : Kind) : Z :=
  match typeWeights type with
  | Some w => if (w =? 0)%Z then 5%Z else w
  | None => 5%Z
  end.

Definition multi_bonus (n : nat) : Z :=
  if (3 <=? n)%nat then 10%Z else if (2 <=? n)%nat then 5%Z else 0%Z.

Definition volume_bonus (r : Qc) : Z :=
  if Num.gtb r (Num.of_Z 20) then 20%Z
  else if Num.gtb r (Num.of_Z 10) then 15%Z
  else if Num.gtb r (Num.of_Z 5) then 10%Z
  else if Num.gtb r (Num.of_Z 3) then 5%Z
  else 0%Z.

Definition size_bonus (r : Qc) : Z :=
  if Num.gtb r (Num.of_Z 50) then 15%Z
  else if Num.gtb r (Num.of_Z 30) then 12%Z
  else if Num.gtb r (Num.of_Z 20) then 8%Z
  else if Num.gtb r (Num.of_Z 10) then 5%Z
  else 0%Z.

Definition price_bonus (p : Qc) : Z :=
  if Num.gtb p (Num.of_Z 20) then 10%Z
  else if Num.gtb p (Num.of_Z 10) then 7%Z
  else if Num.gtb p (Num.of_Z 5) then 4%Z
  else 0%Z.

Definition imbalance_bonus (r : Qc) : Z :=
  if Num.gtb r (Num.frac 95 100) then 10%Z
  else if Num.gtb r (Num.frac 9 10) then 7%Z
  else if Num.gtb r (Num.frac 85 100) then 4%Z
  else 0%Z.

Definition liquidity_bonus (l : Qc) : Z :=
  if Num.gtb l (Num.of_Z 10000) then 5%Z
  else if Num.gtb l (Num.of_Z 5000) then 3%Z
  else if Num.gtb l (Num.of_Z 1000) then 1%Z
  else 0%Z.

(** The value of [score] before the final [Math.min(100, Math.round(score))].
    Every addend is an integer literal, so the running sum is an integer. *)
Definition raw_score (params : ScoreParams) : Z :=
  let score := 0%Z in
  let score :=
    fold_left (fun score type => (score + kind_weight type)%Z)
              (anomalies params) score in
  let score := (score + multi_bonus (length (anomalies params)))%Z in
  let score := (score + volume_bonus (volumeRatio params))%Z in
  let score := (score + size_bonus (tradeSizeRatio params))%Z in
  let score := (score + price_bonus (priceRangePct params))%Z in
  let score := (score + imbalance_bonus (imbalanceRatio params))%Z in
  let score := (score + liquidity_bonus (marketLiquidity params))%Z in
  score.

Definition calculateAnomalyScore (params : ScoreParams) : Z :=
  Z.min 100 (Num.Math_round (Num.of_Z (raw_score params))).

(** ** [calculatePriceChange] (app.js, lines 500-526) *)

Definition futureWindow : Z := 300.

(** [trades.slice(eventIndex + 1).filter(t => t.timestamp <= eventTime +
    futureWindow)] *)
Definition futureTrades_of
  (trades : list Trade) (eventIndex : nat) (eventTime : Z) : list Trade :=
  filter (fun t => (timestamp t <=? eventTime + futureWindow)%Z)
         (skipn (eventIndex + 1) trades).

Definition calculatePriceChange
  (trades : list Trade) (eventIndex : nat) (eventTime : Z)
  : result (option PriceChange) :=
  match nth_error trades eventIndex with
  | None => Throw
  | Some et =>
      let eventPrice := Num.or_default (price et) 0%Qc in
      if Qc_eq_bool eventPrice 0 then Ok None
      else
        let futureTrades := futureTrades_of trades eventIndex eventTime in
        if (length futureTrades =? 0)%nat then Ok None
        else
          match nth_error futureTrades (length futureTrades - 1) with
          | None => Throw
          | Some lt =>
              let lastPrice := Num.or_default (price lt) eventPrice in
              let change :=
                ((lastPrice - eventPrice) / eventPrice * Num.of_Z 100)%Qc in
              Ok (Some {|
                change := change;
                direction :=
                  if Num.gtb change 0 then up
                  else if Num.ltb change 0 then down
                  else flat;
                futurePrice := lastPrice;
                eventPrice := eventPrice;
                tradeCount := length futureTrades |})
          end
  end.

(** ** [detectAnomalies] (app.js, lines 296-430) *)

Definition windowSec : Z := 300.

(** [(t.size || 0) * (t.price || 0)] *)
Definition notional (t : Trade) : Qc :=
  (Num.or_default (size t) 0 * Num.or_default (price t) 0)%Qc.

(** [trades.slice(0, i + 1).filter(...)]: the trailing window that ends at
    index [i]. *)
Definition window_at (trades : list Trade) (i : nat) (currentTime : Z)
  : list Trade :=
  filter (fun t => (currentTime - windowSec <=? timestamp t)%Z
                   && (timestamp t <=? currentTime)%Z)
         (firstn (i + 1) trades).

(** [new Set(window.map(t => t.proxyWallet)).size] *)
Definition distinct_wallets (window : list Trade) : nat :=
  length (nodup string_dec (map proxyWallet window)).

(** [l.reduce((sum, x) => sum + f(x), 0)] *)
Definition sum_by {A : Type} (f : A -> Qc) (l : list A) : Qc :=
  fold_left (fun sum x => (sum + f x)%Qc) l 0%Qc.

Record Stat : Type := mkStat { wallets : nat; volume : Qc }.

(** One iteration of the baseline loop (lines 305-316). *)
Definition stats_at (trades : list Trade) (i : nat) : result (list Stat) :=
  match nth_error trades i with
  | None => Throw
  | Some t =>
      let currentTime := timestamp t in
      let window := window_at trades i currentTime in
      if (3 <=? length window)%nat
      then Ok [ {| wallets := distinct_wallets window;
                   volume := sum_by notional window |} ]
      else Ok []
  end.

(** The figures computed from one window (lines 335-351). *)
Record Metrics : Type := mkMetrics {
  walletCount : nat;
  totalVol : Qc;
  netVol : Qc;
  priceRange : Qc;
  avgPrice : Qc;
  currentSize : Qc;
  tradeFreq : nat
}.

Definition metrics_of (window : list Trade) (t : Trade) : Metrics :=
  let buyVol :=
    sum_by notional (filter (fun x => Side_eqb (side x) BUY) window) in
  let sellVol :=
    sum_by notional (filter (fun x => Side_eqb (side x) SELL) window) in
  let prices := map (fun x => Num.or_default (price x) 0%Qc) window in
  {| walletCount := distinct_wallets window;
     totalVol := (buyVol + sellVol)%Qc;
     netVol := (buyVol - sellVol)%Qc;
     priceRange := (Num.Math_max prices - Num.Math_min prices)%Qc;
     avgPrice := (sum_by (fun p => p) prices / Num.of_nat (length prices))%Qc;
     currentSize := notional t;
     tradeFreq := length window |}.

(** The five checks, in source order (lines 354-379). *)
Definition classify (medianVolume medianTradeSize : Qc) (m : Metrics)
  : list Kind :=
  let anomalies := [] in
  let anomalies :=
    if Num.gtb medianVolume 0
       && Num.gtb (totalVol m) (medianVolume * Num.of_Z 5)%Qc
    then anomalies ++ [volume_spike] else anomalies in
  let anomalies :=
    if Num.gtb medianTradeSize 0
       && Num.gtb (currentSize m) (medianTradeSize * Num.of_Z 20)%Qc
    then anomalies ++ [whale_trade] else anomalies in
  let anomalies :=
    if Num.gtb (totalVol m) (Num.of_Z 100)
       && Num.gtb (Qcabs (netVol m) / totalVol m)%Qc (Num.frac 85 100)
    then anomalies ++ [imbalance] else anomalies in
  let anomalies :=
    if Num.gtb (avgPrice m) 0
       && Num.gtb (priceRange m / avgPrice m)%Qc (Num.frac 1 10)
    then anomalies ++ [price_move] else anomalies in
  let anomalies :=
    if (10 <? tradeFreq m)%nat
    then anomalies ++ [high_frequency] else anomalies in
  anomalies.

Definition score_params (medianVolume medianTradeSize : Qc) (market : Market)
  (m : Metrics) (anomalies : list Kind) : ScoreParams :=
  {| anomalies := anomalies;
     volumeRatio :=
       if Num.gtb medianVolume 0 then (totalVol m / medianVolume)%Qc
       else 0%Qc;
     tradeSizeRatio :=
       if Num.gtb medianTradeSize 0 then (currentSize m / medianTradeSize)%Qc
       else 0%Qc;
     priceRangePct :=
       if Num.gtb (avgPrice m) 0
       then (priceRange m / avgPrice m * Num.of_Z 100)%Qc else 0%Qc;
     sp_tradeCount := tradeFreq m;
     imbalanceRatio :=
       if Num.gtb (totalVol m) 0 then (Qcabs (netVol m) / totalVol m)%Qc
       else 0%Qc;
     marketLiquidity := Num.or_default (Some (liquidity market)) 0%Qc;
     marketVolume := Num.or_default (Some (volume24h market)) 0%Qc |}.

(** One iteration of the detection loop (lines 325-417). *)
Definition detect_at (trades : list Trade) (market : Market)
  (medianVolume medianTradeSize : Qc) (i : nat) : result (list Event) :=
  match nth_error trades i with
  | None => Throw
  | Some t =>
      let currentTime := timestamp t in
      let window := window_at trades i currentTime in
      if (length window <? 3)%nat then Ok []
      else
        let m := metrics_of window t in
        let anomalies := classify medianVolume medianTradeSize m in
        if (0 <? length anomalies)%nat then
          let params :=
            score_params medianVolume medianTradeSize market m anomalies in
          let score := calculateAnomalyScore params in
          priceChange <- calculatePriceChange trades i currentTime ;;
          Ok [ {| ev_timestamp := currentTime;
                  ev_market := question market;
                  ev_marketType := market_type market;
                  ev_conditionId := conditionId market;
                  ev_slug := slug market;
                  ev_anomalies := anomalies;
                  ev_walletCount := walletCount m;
                  ev_totalVolume := totalVol m;
                  ev_netVolume := netVol m;
                  ev_volumeRatio := volumeRatio params;
                  ev_tradeSize := currentSize m;
                  ev_priceRangePct := priceRangePct params;
                  ev_isBuy := Num.gtb (netVol m) 0;
                  ev_tradeCount := length window;
                  ev_score := score;
                  ev_priceChange := priceChange |} ]
        else Ok []
  end.

(** The deduplication loop (lines 419-427): the state is the pair of
    [deduped] and [lastTs]. *)
Definition dedupe_step (st : list Event * Z) (e : Event) : list Event * Z :=
  let '(deduped, lastTs) := st in
  if (5 <=? ev_timestamp e - lastTs)%Z
  then (deduped ++ [e], ev_timestamp e)
  else (deduped, lastTs).

Definition dedupe (events : list Event) : list Event :=
  fst (fold_left dedupe_step events ([], 0%Z)).

(** [trades.sort((a, b) => (a.timestamp || 0) - (b.timestamp || 0))] *)
Definition sort_trades (trades : list Trade) : list Trade :=
  js_sort (fun a b => (timestamp a - timestamp b <=? 0)%Z) trades.

Definition all_stats (trades : list Trade) : result (list Stat) :=
  for_push (stats_at trades) (seq 0 (length trades)).

Definition detectAnomalies (trades : list Trade) (market : Market)
  : result (list Event) :=
  let trades := sort_trades trades in
  allStats <- all_stats trades ;;
  if (length allStats =? 0)%nat then Ok []
  else
    let medianWallets := median (map (fun s => Num.of_nat (wallets s)) allStats) in
    let medianVolume := median (map volume allStats) in
    let medianTradeSize := median (map notional trades) in
    events <- for_push (detect_at trades market medianVolume medianTradeSize)
                       (seq 0 (length trades)) ;;
    Ok (dedupe events).

(** The position of each kind in the order of the five checks. *)
Definition kind_rank (k : Kind) : nat :=
  match k with
  | volume_spike => 0
  | whale_trade => 1
  | imbalance => 2
  | price_move => 3
  | high_frequency => 4
  | unknown_kind => 5
  end.

(** The array [events] of [detectAnomalies] as it stands before the
    deduplication loop (lines 297-417). *)
Definition flagged_events (trades : list Trade) (market : Market)
  : result (list Event) :=
  let trades := sort_trades trades in
  allStats <- all_stats trades ;;
  if (length allStats =? 0)%nat then Ok []
  else
    let medianVolume := median (map volume allStats) in
    let medianTradeSize := median (map notional trades) in
    for_push (detect_at trades market medianVolume medianTradeSize)
             (seq 0 (length trades)).

(** ** [analyzeAllMarkets] (app.js, lines 264-291)

    The trades of a market come from [fetchTrades], an external
    collaborator; the embedding takes each market with its fetched
    trades. *)

Definition analyzeMarket (fetched : Market * list Trade)
  : result (list Event) :=
  let '(market, trades) := fetched in
  if (length trades <? 10)%nat then Ok []
  else detectAnomalies trades market.

Definition analyzeAllMarkets (fetched : list (Market * list Trade))
  : result (list Event) :=
  events <- for_push analyzeMarket fetched ;;
  Ok (js_sort (fun a b => (ev_timestamp b - ev_timestamp a <=? 0)%Z) events).

(** * The dashboard's views of the events

    The functions below compute what the panels of the dashboard show. The
    embedding keeps the computed values and leaves out the HTML they are
    rendered into; the globals [allEvents] and [timeFilter] and the clock
    [Date.now()] are passed as arguments. *)

(** ** [getFilteredEvents] (app.js, lines 531-543) *)

(** The values of [timeFilter]; [filter_other] stands for a string that is
    neither ['all'] nor a key of [hours]. *)
Inductive TimeFilter : Type :=
| filter_all | filter_1h | filter_6h | filter_24h | filter_other.

(** The object literal [hours], read by key. *)
Definition hours (timeFilter : TimeFilter) : option Z :=
  match timeFilter with
  | filter_1h => Some 1%Z
  | filter_6h => Some 6%Z
  | filter_24h => Some 24%Z
  | filter_all | filter_other => None
  end.

(** [hours[timeFilter] || 24] *)
Definition hours_or_24 (timeFilter : TimeFilter) : Z :=
  match hours timeFilter with
  | Some h => if (h =? 0)%Z then 24%Z else h
  | None => 24%Z
  end.

(** [now_ms] is the value of [Date.now()], in milliseconds. *)
Definition getFilteredEvents (timeFilter : TimeFilter) (now_ms : Z)
  (allEvents : list Event) : list Event :=
  match timeFilter with
  | filter_all => allEvents
  | _ =>
      let now := (Num.of_Z now_ms / Num.of_Z 1000)%Qc in
      let cutoff :=
        (now - Num.of_Z (hours_or_24 timeFilter) * Num.of_Z 3600)%Qc in
      filter (fun e => Num.leb cutoff (Num.of_Z (ev_timestamp e))) allEvents
  end.

(** ** The ranking panels (app.js, lines 840-864, 959-983 and 988-1012) *)

Definition Kind_eqb (a b : Kind) : bool :=
  match a, b with
  | volume_spike, volume_spike | whale_trade, whale_trade
  | imbalance, imbalance | price_move, price_move
  | high_frequency, high_frequency | unknown_kind, unknown_kind => true
  | _, _ => false
  end.

(** [anomalies.includes(type)] *)
Definition includes (anomalies : list Kind) (type : Kind) : bool :=
  existsb (Kind_eqb type) anomalies.

(** The comparator [(a, b) => key(b) - key(a)], as [cmp(a, b) <= 0]. *)
Definition descending {A : Type} (key : A -> Qc) (a b : A) : bool :=
  Num.leb (key b - key a)%Qc 0%Qc.

(** [whales] of [updateWhaleTrades]. *)
Definition whales (filteredEvents : list Event) : list Event :=
  firstn 5
    (js_sort (descending ev_tradeSize)
       (filter (fun e => includes (ev_anomalies e) whale_trade)
               filteredEvents)).

(** [spikes] of [updateVolumeSpikes]. *)
Definition spikes (filteredEvents : list Event) : list Event :=
  firstn 8
    (js_sort (descending ev_volumeRatio)
       (filter (fun e => includes (ev_anomalies e) volume_spike)
               filteredEvents)).

(** [moves] of [updatePriceMoves]. *)
Definition moves (filteredEvents : list Event) : list Event :=
  firstn 8
    (js_sort (descending ev_priceRangePct)
       (filter (fun e => includes (ev_anomalies e) price_move)
               filteredEvents)).

(** ** Objects used as maps

    An object whose keys are no array indices lists its properties in the
    order they were first set; it is an association list in that order. *)

Section JsObject.
Variable K V : Type.
Variable eqb : K -> K -> bool.

(** [o[k]] *)
Fixpoint obj_get (o : list (K * V)) (k : K) : option V :=
  match o with
  | [] => None
  | (k', v) :: rest => if eqb k' k then Some v else obj_get rest k
  end.

(** [o[k] = v] *)
Fixpoint obj_set (o : list (K * V)) (k : K) (v : V) : list (K * V) :=
  match o with
  | [] => [(k, v)]
  | (k', v') :: rest =>
      if eqb k' k then (k', v) :: rest else (k', v') :: obj_set rest k v
  end.

(** [Object.values(o)] *)
Definition Object_values (o : list (K * V)) : list V := map snd o.
End JsObject.

(** ** [updateStats] (app.js, lines 581-602) *)

(** One pass of the loop that fills [volumeByMarket]. *)
Definition volumeByMarket_step (volumeByMarket : list (string * Qc))
  (e : Event) : list (string * Qc) :=
  let id := ev_conditionId e in
  let volumeByMarket :=
    match obj_get String.eqb volumeByMarket id with
    | Some v =>
        if Qc_eq_bool v 0 then obj_set String.eqb volumeByMarket id 0%Qc
        else volumeByMarket
    | None => obj_set String.eqb volumeByMarket id 0%Qc
    end in
  match obj_get String.eqb volumeByMarket id with
  | Some current =>
      obj_set String.eqb volumeByMarket id
        (Num.max current (Num.or_default (Some (ev_totalVolume e)) 0%Qc))
  | None => volumeByMarket
  end.

Definition volumeByMarket_of (allEvents : list Event) : list (string * Qc) :=
  fold_left volumeByMarket_step allEvents [].

Record Stats : Type := mkStats {
  stat_markets : nat;
  stat_events : nat;
  stat_wallets : Z;
  stat_volume : Qc
}.

(** The four figures of the header; [markets] is the global list of
    selected markets. *)
Definition updateStats (markets : list Market) (allEvents : list Event)
  : Stats :=
  let totalWallets :=
    fold_left (fun sum e => (sum + ev_walletCount e)%nat) allEvents 0%nat in
  let uniqueWallets :=
    Qfloor (Num.of_nat totalWallets * Num.frac 1 2)%Qc in
  let totalVol :=
    fold_left (fun sum v => (sum + v)%Qc)
              (Object_values (volumeByMarket_of allEvents)) 0%Qc in
  {| stat_markets := length markets;
     stat_events := length allEvents;
     stat_wallets := uniqueWallets;
     stat_volume := totalVol |}.

(** ** [updateHotMarkets] (app.js, lines 704-750) *)

Record HotMarket : Type := mkHotMarket {
  hm_market : string;
  hm_type : string;
  hm_count : nat;
  hm_volume : Qc
}.

Definition marketEvents_step (marketEvents : list (string * HotMarket))
  (e : Event) : list (string * HotMarket) :=
  let id := ev_conditionId e in
  let marketEvents :=
    match obj_get String.eqb marketEvents id with
    | Some _ => marketEvents
    | None =>
        obj_set String.eqb marketEvents id
          {| hm_market := ev_market e; hm_type := ev_marketType e;
             hm_count := 0; hm_volume := 0%Qc |}
    end in
  match obj_get String.eqb marketEvents id with
  | Some m =>
      obj_set String.eqb marketEvents id
        {| hm_market := hm_market m; hm_type := hm_type m;
           hm_count := hm_count m + 1;
           hm_volume :=
             (hm_volume m
              + Num.or_default (Some (ev_totalVolume e)) 0%Qc)%Qc |}
  | None => marketEvents
  end.

Definition marketEvents_of (filteredEvents : list Event)
  : list (string * HotMarket) :=
  fold_left marketEvents_step filteredEvents [].

(** [sorted]: the five markets with the most events. *)
Definition hot_markets (filteredEvents : list Event) : list HotMarket :=
  firstn 5
    (js_sort (fun a b => (Z.of_nat (hm_count b) - Z.of_nat (hm_count a) <=? 0)%Z)
             (Object_values (marketEvents_of filteredEvents))).

(** ** [updateAnomalyTypes] and [updateMarketTypes] (app.js, lines 755-835) *)

Section TypeCounts.
Variable K : Type.
Variable eqb : K -> K -> bool.

(** [typeCounts[type] = (typeCounts[type] || 0) + 1] *)
Definition typeCounts_step (typeCounts : list (K * nat)) (type : K)
  : list (K * nat) :=
  obj_set eqb typeCounts type
    (match obj_get eqb typeCounts type with
     | Some n => if (n =? 0)%nat then 0 else n
     | None => 0
     end + 1)%nat.

(** [Object.entries(typeCounts).sort((a, b) => b[1] - a[1])] *)
Definition sort_counts (typeCounts : list (K * nat)) : list (K * nat) :=
  js_sort (fun a b => (Z.of_nat (snd b) - Z.of_nat (snd a) <=? 0)%Z)
          typeCounts.

(** [sorted.reduce((sum, [, count]) => sum + count, 0)] *)
Definition total_count (sorted : list (K * nat)) : nat :=
  fold_left (fun sum entry => (sum + snd entry)%nat) sorted 0%nat.
End TypeCounts.

(** [sorted] of [updateAnomalyTypes]. *)
Definition anomaly_type_counts (filteredEvents : list Event)
  : list (Kind * nat) :=
  sort_counts
    (fold_left
       (fun typeCounts e =>
          fold_left (typeCounts_step Kind_eqb) (ev_anomalies e) typeCounts)
       filteredEvents []).

(** [sorted] of [updateMarketTypes]. *)
Definition market_type_counts (filteredEvents : list Event)
  : list (string * nat) :=
  sort_counts
    (fold_left
       (fun typeCounts e =>
          typeCounts_step String.eqb typeCounts (ev_marketType e))
       filteredEvents []).

(** ** [updateMarketSentiment] (app.js, lines 869-954) *)

Inductive Sentiment : Type :=
| strongly_bullish | leaning_bullish | strongly_bearish | leaning_bearish
| neutral.

Record SentimentView : Type := mkSentimentView {
  totalBuy : Qc;
  totalSell : Qc;
  buyCount : nat;
  sellCount : nat;
  buyPct : Qc;
  sellPct : Qc;
  sentiment : Sentiment
}.

Definition sentiment_step (acc : Qc * Qc * nat * nat) (e : Event)
  : Qc * Qc * nat * nat :=
  let '(totalBuy, totalSell, buyCount, sellCount) := acc in
  if Num.gtb (ev_netVolume e) 0
  then ((totalBuy + ev_netVolume e)%Qc, totalSell, (buyCount + 1)%nat,
        sellCount)
  else (totalBuy, (totalSell + Qcabs (ev_netVolume e))%Qc, buyCount,
        (sellCount + 1)%nat).

(** [None] is the early return on an empty event list. *)
Definition updateMarketSentiment (filteredEvents : list Event)
  : option SentimentView :=
  if (length filteredEvents =? 0)%nat then None
  else
    let '(totalBuy, totalSell, buyCount, sellCount) :=
      fold_left sentiment_step filteredEvents (0%Qc, 0%Qc, 0%nat, 0%nat) in
    let total := (totalBuy + totalSell)%Qc in
    let buyPct :=
      if Num.gtb total 0 then (totalBuy / total * Num.of_Z 100)%Qc
      else Num.of_Z 50 in
    let sellPct := (Num.of_Z 100 - buyPct)%Qc in
    let sentiment :=
      if Num.gtb buyPct (Num.of_Z 65) then strongly_bullish
      else if Num.gtb buyPct (Num.of_Z 55) then leaning_bullish
      else if Num.ltb buyPct (Num.of_Z 35) then strongly_bearish
      else if Num.ltb buyPct (Num.of_Z 45) then leaning_bearish
      else neutral in
    Some {| totalBuy := totalBuy; totalSell := totalSell;
            buyCount := buyCount; sellCount := sellCount;
            buyPct := buyPct; sellPct := sellPct;
            sentiment := sentiment |}.

(** ** [formatTime] (app.js, lines 1030-1043) *)

(** The four texts: just now, and a whole number of minutes, hours or days
    ago. *)
Inductive TimeAgo : Type :=
| just_now
| minutes_ago (n : Z)
| hours_ago (n : Z)
| days_ago (n : Z).

Definition formatTime (now_ms : Z) (timestamp : Z) : TimeAgo :=
  let now := (Num.of_Z now_ms / Num.of_Z 1000)%Qc in
  let diff := (now - Num.of_Z timestamp)%Qc in
  if Num.ltb diff (Num.of_Z 60) then just_now
  else if Num.ltb diff (Num.of_Z 3600)
       then minutes_ago (Qfloor (diff / Num.of_Z 60)%Qc)
  else if Num.ltb diff (Num.of_Z 86400)
       then hours_ago (Qfloor (diff / Num.of_Z 3600)%Qc)
  else days_ago (Qfloor (diff / Num.of_Z 86400)%Qc).

(** ** [checkNewEvents] (app.js, lines 153-167) *)

(** What one call does besides updating [lastEventCount]: the number
    announced in a browser notification, if one is shown, and whether the
    alert sound is played. *)
Record Alert : Type := mkAlert {
  notified : option nat;
  sound : bool
}.

(** [granted] is [Notification.permission === 'granted']. *)
Definition checkNewEvents (granted : bool) (lastEventCount newCount : nat)
  : Alert * nat :=
  if (0 <? lastEventCount)%nat && (lastEventCount <? newCount)%nat
  then
    let diff := (newCount - lastEventCount)%nat in
    ({| notified := if granted then Some diff else None; sound := true |},
     newCount)
  else ({| notified := None; sound := false |}, newCount).

(** The alerts of successive refresh cycles that find [counts] events, from
    a given [lastEventCount]. *)
Fixpoint refresh_alerts (granted : bool) (lastEventCount : nat)
  (counts : list nat) : list Alert :=
  match counts with
  | [] => []
  | newCount :: rest =>
      let '(alert, lastEventCount) :=
        checkNewEvents granted lastEventCount newCount in
      alert :: refresh_alerts granted lastEventCount rest
  end.

(** * [fetchMarkets] (app.js, lines 183-247)

    The selection of markets from the response of the markets endpoint; the
    response is the argument [data]. Slugs are taken to be ASCII, as URL
    slugs are; the fields of the result that only the display reads
    (bid, ask, last price, spread, outcomes) are left out. *)

Record RawMarket : Type := mkRawMarket {
  raw_conditionId : option string;
  raw_question : option string;
  raw_slug : option string;
  raw_volume24hrClob : option Qc;
  raw_volume24hr : option Qc;
  raw_liquidity : option Qc
}.

(** [s || ''] *)
Definition or_empty (s : option string) : string :=
  match s with
  | Some v => v
  | None => EmptyString
  end.

(** [toLowerCase] on an ASCII string. *)
Definition lower_ascii (c : Ascii.ascii) : Ascii.ascii :=
  let n := Ascii.nat_of_ascii c in
  if (65 <=? n)%nat && (n <=? 90)%nat then Ascii.ascii_of_nat (n + 32) else c.

Fixpoint toLowerCase (s : string) : string :=
  match s with
  | EmptyString => EmptyString
  | String c rest => String (lower_ascii c) (toLowerCase rest)
  end.

(** Whether [needle] occurs in [hay]. *)
Fixpoint contains (needle hay : string) : bool :=
  if String.prefix needle hay then true
  else match hay with
       | EmptyString => false
       | String _ rest => contains needle rest
       end.

(** The alternatives of the two regular expressions. *)
Definition short_term_words : list string :=
  ["15m"; "30m"; "1h"; "hour"; "minute"; "daily"; "today";
   "intraday"]%string.

Definition sports_words : list string :=
  ["nba"; "nfl"; "mlb"; "nhl"; "soccer"; "football"; "match"; "game"; "vs";
   "win-on"; "warriors"; "lakers"; "celtics"; "bulls"; "knicks"; "heat";
   "jazz"]%string.

(** [/a|b|.../.test(slug)] *)
Definition test_words (words : list string) (slug : string) : bool :=
  existsb (fun w => contains w slug) words.

Definition market_type_of (slug : string) : string :=
  if test_words short_term_words slug then "short_term"%string
  else if test_words sports_words slug then "sports"%string
  else "general"%string.

(** [m.volume24hrClob || m.volume24hr || 0] *)
Definition raw_volume (m : RawMarket) : Qc :=
  Num.or_default (raw_volume24hrClob m)
                 (Num.or_default (raw_volume24hr m) 0%Qc).

(** The callback of [data.filter]. *)
Definition keep_market (m : RawMarket) : bool :=
  match raw_conditionId m with
  | None => false
  | Some id =>
      if String.eqb id EmptyString then false
      else if Num.ltb (raw_volume m) (Num.of_Z 100) then false
      else if Num.ltb (Num.or_default (raw_liquidity m) 0%Qc) (Num.of_Z 10)
           then false
      else true
  end.

Record ScoredMarket : Type := mkScoredMarket {
  sm_market : Market;
  sm_score : Qc
}.

(** The callback of [.map]. *)
Definition process_market (m : RawMarket) : ScoredMarket :=
  let slug := toLowerCase (or_empty (raw_slug m)) in
  let type := market_type_of slug in
  let volume := raw_volume m in
  let liquidity := Num.or_default (raw_liquidity m) 0%Qc in
  let score := (volume * Num.frac 7 10 + liquidity * Num.frac 3 10)%Qc in
  {| sm_market :=
       {| conditionId := or_empty (raw_conditionId m);
          question := or_empty (raw_question m);
          slug := slug;
          market_type := type;
          volume24h := volume;
          liquidity := liquidity |};
     sm_score := score |}.

Definition fetchMarkets (data : list RawMarket) (limit : nat)
  : list ScoredMarket :=
  firstn limit
    (js_sort (descending sm_score)
       (map process_market (filter keep_market data))).

(** * The engine over binary64 numbers

    A JavaScript number is an IEEE-754 binary64 float. The embedding above
    computes with exact rationals, which agrees with the program as long as
    no comparison sits within a rounding error of its threshold. The module
    below embeds the same lines of [detectAnomalies], [median],
    [calculateAnomalyScore] and [calculatePriceChange] over the kernel's
    binary64 floats (round to nearest, ties to even, as in JavaScript), for
    the statements that depend on the rounding. Timestamps, counts and the
    score stay integers: they are integers in the program, far below 2^53,
    where binary64 arithmetic is exact. *)

(* A decimal literal denotes the nearest binary64 number, as in JavaScript. *)
Set Warnings "-inexact-float".

Module Double.

(** The number of elements of an array, as a number. *)
Definition of_nat (n : nat) : float := of_uint63 (Uint63.of_Z (Z.of_nat n)).

(** [a > b] *)
Definition gtb (a b : float) : bool := (b <? a)%float.

(** [x || d] where [x] is a possibly missing numeric field: [0], [-0] and
    [NaN] are falsy. *)
Definition or_default (x : option float) (d : float) : float :=
  match x with
  | Some v => if is_nan v || (v =? 0)%float then d else v
  | None => d
  end.

Definition max (a b : float) : float := if (a <? b)%float then b else a.
Definition min (a b : float) : float := if (b <? a)%float then b else a.

(** [Math.max(...l)] and [Math.min(...l)]. The source spreads prices read
    through [x.price || 0], which are neither [NaN] nor [-0]. *)
Definition Math_max (l : list float) : float :=
  match l with
  | [] => neg_infinity
  | p :: ps => fold_left max ps p
  end.
Definition Math_min (l : list float) : float :=
  match l with
  | [] => infinity
  | p :: ps => fold_left min ps p
  end.

(** [cmp(a, b) <= 0] for the comparator [(a, b) => a - b]; a comparator
    result of [NaN] counts as [0]. *)
Definition cmp_le (a b : float) : bool :=
  let v := (a - b)%float in is_nan v || (v <=? 0)%float.

(** [median] (app.js, lines 435-440) *)
Definition median (arr : list float) : float :=
  if (length arr =? 0)%nat then 0%float
  else
    let sorted := js_sort cmp_le arr in
    let mid := (length sorted / 2)%nat in
    if (length sorted mod 2 =? 0)%nat
    then ((nth (mid - 1) sorted 0 + nth mid sorted 0) / 2)%float
    else nth mid sorted 0%float.

Record Trade : Type := mkTrade {
  timestamp : Z;
  proxyWallet : string;
  side : Side;
  size : option float;
  price : option float
}.

Record Market : Type := mkMarket {
  conditionId : string;
  question : string;
  slug : string;
  market_type : string;
  volume24h : float;
  liquidity : float
}.

Record PriceChange : Type := mkPriceChange {
  change : float;
  direction : Direction;
  futurePrice : float;
  eventPrice : float;
  tradeCount : nat
}.

Record Event : Type := mkEvent {
  ev_timestamp : Z;
  ev_market : string;
  ev_marketType : string;
  ev_conditionId : string;
  ev_slug : string;
  ev_anomalies : list Kind;
  ev_walletCount : nat;
  ev_totalVolume : float;
  ev_netVolume : float;
  ev_volumeRatio : float;
  ev_tradeSize : float;
  ev_priceRangePct : float;
  ev_isBuy : bool;
  ev_tradeCount : nat;
  ev_score : Z;
  ev_priceChange : option PriceChange
}.

(** [calculateAnomalyScore] (app.js, lines 446-494) *)

Record ScoreParams : Type := mkScoreParams {
  anomalies : list Kind;
  volumeRatio : float;
  tradeSizeRatio : float;
  priceRangePct : float;
  sp_tradeCount : nat;
  imbalanceRatio : float;
  marketLiquidity : float;
  marketVolume : float
}.

Definition volume_bonus (r : float) : Z :=
  if gtb r 20 then 20%Z
  else if gtb r 10 then 15%Z
  else if gtb r 5 then 10%Z
  else if gtb r 3 then 5%Z
  else 0%Z.

Definition size_bonus (r : float) : Z :=
  if gtb r 50 then 15%Z
  else if gtb r 30 then 12%Z
  else if gtb r 20 then 8%Z
  else if gtb r 10 then 5%Z
  else 0%Z.

Definition price_bonus (p : float) : Z :=
  if gtb p 20 then 10%Z
  else if gtb p 10 then 7%Z
  else if gtb p 5 then 4%Z
  else 0%Z.

Definition imbalance_bonus (r : float) : Z :=
  if gtb r 0.95 then 10%Z
  else if gtb r 0.9 then 7%Z
  else if gtb r 0.85 then 4%Z
  else 0%Z.

Definition liquidity_bonus (l : float) : Z :=
  if gtb l 10000 then 5%Z
  else if gtb l 5000 then 3%Z
  else if gtb l 1000 then 1%Z
  else 0%Z.

(** The value of [score] before the final [Math.min(100, Math.round(score))]:
    a sum of integer literals, exact in binary64. *)
Definition raw_score (params : ScoreParams) : Z :=
  let score := 0%Z in
  let score :=
    fold_left (fun score type => (score + kind_weight type)%Z)
              (anomalies params) score in
  let score := (score + multi_bonus (length (anomalies params)))%Z in
  let score := (score + volume_bonus (volumeRatio params))%Z in
  let score := (score + size_bonus (tradeSizeRatio params))%Z in
  let score := (score + price_bonus (priceRangePct params))%Z in
  let score := (score + imbalance_bonus (imbalanceRatio params))%Z in
  let score := (score + liquidity_bonus (marketLiquidity params))%Z in
  score.

(** [Math.round] leaves an integer unchanged. *)
Definition calculateAnomalyScore (params : ScoreParams) : Z :=
  Z.min 100 (raw_score params).

(** [calculatePriceChange] (app.js, lines 500-526) *)

Definition futureTrades_of
  (trades : list Trade) (eventIndex : nat) (eventTime : Z) : list Trade :=
  filter (fun t => (timestamp t <=? eventTime + futureWindow)%Z)
         (skipn (eventIndex + 1) trades).

Definition calculatePriceChange
  (trades : list Trade) (eventIndex : nat) (eventTime : Z)
  : result (option PriceChange) :=
  match nth_error trades eventIndex with
  | None => Throw
  | Some et =>
      let eventPrice := or_default (price et) 0%float in
      if (eventPrice =? 0)%float then Ok None
      else
        let futureTrades := futureTrades_of trades eventIndex eventTime in
        if (length futureTrades =? 0)%nat then Ok None
        else
          match nth_error futureTrades (length futureTrades - 1) with
          | None => Throw
          | Some lt =>
              let lastPrice := or_default (price lt) eventPrice in
              let change :=
                ((lastPrice - eventPrice) / eventPrice * 100)%float in
              Ok (Some {|
                change := change;
                direction :=
                  if gtb change 0 then up
                  else if (change <? 0)%float then down
                  else flat;
                futurePrice := lastPrice;
                eventPrice := eventPrice;
                tradeCount := length futureTrades |})
          end
  end.

(** [detectAnomalies] (app.js, lines 296-430) *)

(** [(t.size || 0) * (t.price || 0)] *)
Definition notional (t : Trade) : float :=
  (or_default (size t) 0 * or_default (price t) 0)%float.

Definition window_at (trades : list Trade) (i : nat) (currentTime : Z)
  : list Trade :=
  filter (fun t => (currentTime - windowSec <=? timestamp t)%Z
                   && (timestamp t <=? currentTime)%Z)
         (firstn (i + 1) trades).

Definition distinct_wallets (window : list Trade) : nat :=
  length (nodup string_dec (map proxyWallet window)).

(** [l.reduce((sum, x) => sum + f(x), 0)]: the additions are made from the
    left, each rounded. *)
Definition sum_by {A : Type} (f : A -> float) (l : list A) : float :=
  fold_left (fun sum x => (sum + f x)%float) l 0%float.

Record Stat : Type := mkStat { wallets : nat; volume : float }.

Definition stats_at (trades : list Trade) (i : nat) : result (list Stat) :=
  match nth_error trades i with
  | None => Throw
  | Some t =>
      let currentTime := timestamp t in
      let window := window_at trades i currentTime in
      if (3 <=? length window)%nat
      then Ok [ {| wallets := distinct_wallets window;
                   volume := sum_by notional window |} ]
      else Ok []
  end.

(** The figures computed from one window (lines 335-351). *)
Record Metrics : Type := mkMetrics {
  walletCount : nat;
  buyVol : float;
  sellVol : float;
  totalVol : float;
  netVol : float;
  priceRange : float;
  avgPrice : float;
  currentSize : float;
  tradeFreq : nat
}.

Definition metrics_of (window : list Trade) (t : Trade) : Metrics :=
  let buyVol :=
    sum_by notional (filter (fun x => Side_eqb (side x) BUY) window) in
  let sellVol :=
    sum_by notional (filter (fun x => Side_eqb (side x) SELL) window) in
  let prices := map (fun x => or_default (price x) 0%float) window in
  {| walletCount := distinct_wallets window;
     buyVol := buyVol;
     sellVol := sellVol;
     totalVol := (buyVol + sellVol)%float;
     netVol := (buyVol - sellVol)%float;
     priceRange := (Math_max prices - Math_min prices)%float;
     avgPrice := (sum_by (fun p => p) prices / of_nat (length prices))%float;
     currentSize := notional t;
     tradeFreq := length window |}.

(** The five checks, in source order (lines 354-379). *)
Definition classify (medianVolume medianTradeSize : float) (m : Metrics)
  : list Kind :=
  let anomalies := [] in
  let anomalies :=
    if gtb medianVolume 0
       && gtb (totalVol m) (medianVolume * 5)%float
    then anomalies ++ [volume_spike] else anomalies in
  let anomalies :=
    if gtb medianTradeSize 0
       && gtb (currentSize m) (medianTradeSize * 20)%float
    then anomalies ++ [whale_trade] else anomalies in
  let anomalies :=
    if gtb (totalVol m) 100
       && gtb (abs (netVol m) / totalVol m)%float 0.85
    then anomalies ++ [imbalance] else anomalies in
  let anomalies :=
    if gtb (avgPrice m) 0
       && gtb (priceRange m / avgPrice m)%float 0.1
    then anomalies ++ [price_move] else anomalies in
  let anomalies :=
    if (10 <? tradeFreq m)%nat
    then anomalies ++ [high_frequency] else anomalies in
  anomalies.

Definition score_params (medianVolume medianTradeSize : float)
  (market : Market) (m : Metrics) (anomalies : list Kind) : ScoreParams :=
  {| anomalies := anomalies;
     volumeRatio :=
       if gtb medianVolume 0 then (totalVol m / medianVolume)%float
       else 0%float;
     tradeSizeRatio :=
       if gtb medianTradeSize 0 then (currentSize m / medianTradeSize)%float
       else 0%float;
     priceRangePct :=
       if gtb (avgPrice m) 0
       then (priceRange m / avgPrice m * 100)%float else 0%float;
     sp_tradeCount := tradeFreq m;
     imbalanceRatio :=
       if gtb (totalVol m) 0 then (abs (netVol m) / totalVol m)%float
       else 0%float;
     marketLiquidity := or_default (Some (liquidity market)) 0%float;
     marketVolume := or_default (Some (volume24h market)) 0%float |}.

(** One iteration of the detection loop (lines 325-417). *)
Definition detect_at (trades : list Trade) (market : Market)
  (medianVolume medianTradeSize : float) (i : nat) : result (list Event) :=
  match nth_error trades i with
  | None => Throw
  | Some t =>
      let currentTime := timestamp t in
      let window := window_at trades i currentTime in
      if (length window <? 3)%nat then Ok []
      else
        let m := metrics_of window t in
        let anomalies := classify medianVolume medianTradeSize m in
        if (0 <? length anomalies)%nat then
          let params :=
            score_params medianVolume medianTradeSize market m anomalies in
          let score := calculateAnomalyScore params in
          priceChange <- calculatePriceChange trades i currentTime ;;
          Ok [ {| ev_timestamp := currentTime;
                  ev_market := question market;
                  ev_marketType := market_type market;
                  ev_conditionId := conditionId market;
                  ev_slug := slug market;
                  ev_anomalies := anomalies;
                  ev_walletCount := walletCount m;
                  ev_totalVolume := totalVol m;
                  ev_netVolume := netVol m;
                  ev_volumeRatio := volumeRatio params;
                  ev_tradeSize := currentSize m;
                  ev_priceRangePct := priceRangePct params;
                  ev_isBuy := gtb (netVol m) 0;
                  ev_tradeCount := length window;
                  ev_score := score;
                  ev_priceChange := priceChange |} ]
        else Ok []
  end.

(** The deduplication loop (lines 419-427). *)
Definition dedupe_step (st : list Event * Z) (e : Event) : list Event * Z :=
  let '(deduped, lastTs) := st in
  if (5 <=? ev_timestamp e - lastTs)%Z
  then (deduped ++ [e], ev_timestamp e)
  else (deduped, lastTs).

Definition dedupe (events : list Event) : list Event :=
  fst (fold_left dedupe_step events ([], 0%Z)).

Definition sort_trades (trades : list Trade) : list Trade :=
  js_sort (fun a b => (timestamp a - timestamp b <=? 0)%Z) trades.

Definition all_stats (trades : list Trade) : result (list Stat) :=
  for_push (stats_at trades) (seq 0 (length trades)).

Definition detectAnomalies (trades : list Trade) (market : Market)
  : result (list Event) :=
  let trades := sort_trades trades in
  allStats <- all_stats trades ;;
  if (length allStats =? 0)%nat then Ok []
  else
    let medianWallets := median (map (fun s => of_nat (wallets s)) allStats) in
    let medianVolume := median (map volume allStats) in
    let medianTradeSize := median (map notional trades) in
    events <- for_push (detect_at trades market medianVolume medianTradeSize)
                       (seq 0 (length trades)) ;;
    Ok (dedupe events).

End Double.

(** * The specification's wording, as definitions

    Second definitions, written from the prose of the specification, that
    the embedding above is compared with. *)

Definition sumZ (l : list Z) : Z := fold_right Z.add 0%Z l.

Module Spec.

(** Scorer: the per-kind base weights. *)
Definition base_weight (k : Kind) : Z :=
  match k with
  | whale_trade => 15
  | volume_spike => 12
  | price_move => 10
  | imbalance => 8
  | high_frequency => 5
  | unknown_kind => 5
  end%Z.

(** +10 if at least three kinds matched, else +5 if exactly two. *)
Definition multi_kind_bonus (n : nat) : Z :=
  if (3 <=? n)%nat then 10%Z else if (n =? 2)%nat then 5%Z else 0%Z.

(** A tier is a threshold and the bonus it grants to an input strictly
    above the threshold. *)
Definition Tier : Type := (Qc * Z)%type.

(** The matching tier with the highest threshold, whatever the order of
    the table. *)
Definition highest_matching (tiers : list Tier) (x : Qc) : option Tier :=
  fold_left
    (fun best tier =>
       if Num.gtb x (fst tier) then
         match best with
         | None => Some tier
         | Some b => if Num.gtb (fst tier) (fst b) then Some tier else Some b
         end
       else best)
    tiers None.

Definition tier_bonus (tiers : list Tier) (x : Qc) : Z :=
  match highest_matching tiers x with
  | Some tier => snd tier
  | None => 0%Z
  end.

Definition volume_tiers : list Tier :=
  [(Num.of_Z 20, 20%Z); (Num.of_Z 10, 15%Z); (Num.of_Z 5, 10%Z);
   (Num.of_Z 3, 5%Z)].
Definition size_tiers : list Tier :=
  [(Num.of_Z 50, 15%Z); (Num.of_Z 30, 12%Z); (Num.of_Z 20, 8%Z);
   (Num.of_Z 10, 5%Z)].
Definition price_tiers : list Tier :=
  [(Num.of_Z 20, 10%Z); (Num.of_Z 10, 7%Z); (Num.of_Z 5, 4%Z)].
Definition imbalance_tiers : list Tier :=
  [(Num.frac 95 100, 10%Z); (Num.frac 9 10, 7%Z); (Num.frac 85 100, 4%Z)].
Definition liquidity_tiers : list Tier :=
  [(Num.of_Z 10000, 5%Z); (Num.of_Z 5000, 3%Z); (Num.of_Z 1000, 1%Z)].

Definition components (p : ScoreParams) : list Z :=
  [ sumZ (map base_weight (anomalies p));
    multi_kind_bonus (length (anomalies p));
    tier_bonus volume_tiers (volumeRatio p);
    tier_bonus size_tiers (tradeSizeRatio p);
    tier_bonus price_tiers (priceRangePct p);
    tier_bonus imbalance_tiers (imbalanceRatio p);
    tier_bonus liquidity_tiers (marketLiquidity p) ].

(** Final score = min(100, round(sum of all applicable components)). *)
Definition score (p : ScoreParams) : Z :=
  Z.min 100 (Num.Math_round (Num.of_Z (sumZ (components p)))).

(** Deduplicator: keep an event whenever its timestamp is at least five
    seconds after the timestamp of the last kept event. *)
Fixpoint keep_after (lastKept : Z) (events : list Event) : list Event :=
  match events with
  | [] => []
  | e :: rest =>
      if (lastKept + 5 <=? ev_timestamp e)%Z
      then e :: keep_after (ev_timestamp e) rest
      else keep_after lastKept rest
  end.

(** Keep the first event, then iterate over the subsequent ones. *)
Definition dedupe (events : list Event) : list Event :=
  match events with
  | [] => []
  | first :: rest => first :: keep_after (ev_timestamp first) rest
  end.

(** No two kept events are less than five seconds apart: [gap a b] for an
    earlier [a] and a later [b]. *)
Definition gap (a b : Event) : Prop :=
  (5 <= ev_timestamp b - ev_timestamp a)%Z.

End Spec.

(** The number of occurrences of [k] in [l]. *)
Definition occurrences {K : Type} (eqb : K -> K -> bool) (k : K) (l : list K)
  : nat :=
  length (filter (eqb k) l).

(** The count an object holds for [k], 0 when it holds none. *)
Definition stored_count {K : Type} (eqb : K -> K -> bool)
  (o : list (K * nat)) (k : K) : nat :=
  match obj_get eqb o k with
  | Some n => n
  | None => 0
  end.

(** The events of the market [id]. *)
Definition events_of_market (id : string) (events : list Event) : list Event :=
  filter (fun e => String.eqb (ev_conditionId e) id) events.

(** The largest total volume among the events of the market [id], and at
    least 0. *)
Definition market_peak (id : string) (events : list Event) : Qc :=
  fold_left Num.max (map ev_totalVolume (events_of_market id events)) 0%Qc.

(** The volume an object holds for [id], 0 when it holds none. *)
Definition stored_volume (o : list (string * Qc)) (id : string) : Qc :=
  match obj_get String.eqb o id with
  | Some v => v
  | None => 0%Qc
  end.

(** An entry of [marketEvents] after it has taken in the events [l]. *)
Definition absorb (m : HotMarket) (l : list Event) : HotMarket :=
  {| hm_market := hm_market m;
     hm_type := hm_type m;
     hm_count := hm_count m + length l;
     hm_volume :=
       fold_left (fun sum e => (sum + ev_totalVolume e)%Qc) l (hm_volume m) |}.

(** The entry a market's first event creates. *)
Definition fresh_entry (e : Event) : HotMarket :=
  {| hm_market := ev_market e; hm_type := ev_marketType e;
     hm_count := 0; hm_volume := 0%Qc |}.

(** The entry of the market [id] for the events [events]: named after the
    market's first event, counting its events and adding their volumes. *)
Definition hot_entry (id : string) (events : list Event) : option HotMarket :=
  match events_of_market id events with
  | [] => None
  | first :: rest => Some (absorb (fresh_entry first) (first :: rest))
  end.

(** Pointwise order on the five bonus inputs, the matched kinds fixed. *)
Definition bonus_inputs_le (p p' : ScoreParams) : Prop :=
  anomalies p = anomalies p'
  /\ (volumeRatio p <= volumeRatio p')%Qc
  /\ (tradeSizeRatio p <= tradeSizeRatio p')%Qc
  /\ (priceRangePct p <= priceRangePct p')%Qc
  /\ (imbalanceRatio p <= imbalanceRatio p')%Qc
  /\ (marketLiquidity p <= marketLiquidity p')%Qc.

(** The parameters of [p] with one more matched kind pushed. *)
Definition push_kind (p : ScoreParams) (k : Kind) : ScoreParams :=
  {| anomalies := anomalies p ++ [k];
     volumeRatio := volumeRatio p;
     tradeSizeRatio := tradeSizeRatio p;
     priceRangePct := priceRangePct p;
     sp_tradeCount := sp_tradeCount p;
     imbalanceRatio := imbalanceRatio p;
     marketLiquidity := marketLiquidity p;
     marketVolume := marketVolume p |}.

(** * Inputs of the scenarios *)

Module Scenario.

(** Scenario C: liquidity 12000, one kind [price_move], a price range of
    25 percent, every other ratio 0. *)
Definition C_params : ScoreParams :=
  {| anomalies := [price_move];
     volumeRatio := 0%Qc;
     tradeSizeRatio := 0%Qc;
     priceRangePct := Num.of_Z 25;
     sp_tradeCount := 3;
     imbalanceRatio := 0%Qc;
     marketLiquidity := Num.of_Z 12000;
     marketVolume := 0%Qc |}.

(** The same parameters with a price range of 30 percent and a volume
    ratio of 4. *)
Definition C_params_up : ScoreParams :=
  {| anomalies := [price_move];
     volumeRatio := Num.of_Z 4;
     tradeSizeRatio := 0%Qc;
     priceRangePct := Num.of_Z 30;
     sp_tradeCount := 3;
     imbalanceRatio := 0%Qc;
     marketLiquidity := Num.of_Z 12000;
     marketVolume := 0%Qc |}.

(** A market descriptor with a liquidity of 12000. *)
Definition a_market : Market :=
  {| conditionId := "0xabc";
     question := "Will it rain tomorrow?";
     slug := "will-it-rain-tomorrow";
     market_type := "general";
     volume24h := Num.of_Z 500;
     liquidity := Num.of_Z 12000 |}.

(** An event flagged [imbalance] at timestamp [ts]. *)
Definition event_at (ts : Z) : Event :=
  {| ev_timestamp := ts;
     ev_market := question a_market;
     ev_marketType := market_type a_market;
     ev_conditionId := conditionId a_market;
     ev_slug := slug a_market;
     ev_anomalies := [imbalance];
     ev_walletCount := 1;
     ev_totalVolume := Num.of_Z 300;
     ev_netVolume := Num.of_Z 300;
     ev_volumeRatio := 1%Qc;
     ev_tradeSize := Num.of_Z 100;
     ev_priceRangePct := 0%Qc;
     ev_isBuy := true;
     ev_tradeCount := 3;
     ev_score := 23%Z;
     ev_priceChange := None |}.

(** A flagged trade at price 1/2 followed, a minute later, by a trade
    whose price is 0. *)
Definition zero_price_tape : list Trade :=
  [ {| timestamp := 100; proxyWallet := "0xa1"; side := BUY;
       size := Some (Num.of_Z 10); price := Some (Num.frac 1 2) |};
    {| timestamp := 160; proxyWallet := "0xa2"; side := SELL;
       size := Some (Num.of_Z 10); price := Some 0%Qc |} ].

(** The same tape with the later trade at price 3/4. *)
Definition rising_tape : list Trade :=
  [ {| timestamp := 100; proxyWallet := "0xa1"; side := BUY;
       size := Some (Num.of_Z 10); price := Some (Num.frac 1 2) |};
    {| timestamp := 160; proxyWallet := "0xa2"; side := SELL;
       size := Some (Num.of_Z 10); price := Some (Num.frac 3 4) |} ].

(** A BUY trade of [notional] dollars at price 1/2, at second [ts]. *)
Definition buy (ts : Z) (notional : Z) : Trade :=
  {| timestamp := ts; proxyWallet := "0xb0b"; side := BUY;
     size := Some (Num.of_Z (2 * notional)); price := Some (Num.frac 1 2) |}.

(** Scenario B: five BUY trades of $100 each within one window. *)
Definition all_buy_tape : list Trade :=
  [buy 1700000000 100; buy 1700000010 100; buy 1700000020 100;
   buy 1700000030 100; buy 1700000040 100].

(** Ten trades, a thousand seconds apart. *)
Definition sparse_tape : list Trade :=
  map (fun k => buy (1700000000 + 1000 * Z.of_nat k) 100) (seq 0 10).

(** Two entries of a markets response; the second has too little
    liquidity. *)
Definition raw_markets : list RawMarket :=
  [ {| raw_conditionId := Some "0xabc"%string;
       raw_question := Some "Lakers vs Celtics today?"%string;
       raw_slug := Some "NBA-Lakers-vs-Celtics-Today"%string;
       raw_volume24hrClob := None;
       raw_volume24hr := Some (Num.of_Z 5000);
       raw_liquidity := Some (Num.of_Z 12000) |};
    {| raw_conditionId := Some "0xdef"%string;
       raw_question := Some "Will it rain tomorrow?"%string;
       raw_slug := Some "will-it-rain-tomorrow"%string;
       raw_volume24hrClob := Some (Num.of_Z 900);
       raw_volume24hr := None;
       raw_liquidity := Some (Num.of_Z 5) |} ].

Definition unsorted_numbers : list Qc :=
  [Num.of_Z 3; Num.of_Z 1; Num.of_Z 2].

(** *** Inputs of the binary64 engine *)

(** The market descriptor [a_market], its figures as binary64 numbers. *)
Definition a_market_f64 : Double.Market :=
  {| Double.conditionId := "0xabc";
     Double.question := "Will it rain tomorrow?";
     Double.slug := "will-it-rain-tomorrow";
     Double.market_type := "general";
     Double.volume24h := 500%float;
     Double.liquidity := 12000%float |}.

(** A trade of [size] shares at [price], at second [ts]. *)
Definition trade_f64 (ts : Z) (side : Side) (size price : PrimFloat.float)
  : Double.Trade :=
  {| Double.timestamp := ts; Double.proxyWallet := "0xb0b";
     Double.side := side;
     Double.size := Some size; Double.price := Some price |}.

(** Scenario B in binary64: five BUY trades of 200 shares at 0.5 ($100
    each), and the same skew with five of 32 shares at 0.5 ($16 each, a
    total of $80); then the figures of the window that ends at the last
    trade of each. *)
Definition all_buy_tape_f64 : list Double.Trade :=
  map (fun ts => trade_f64 ts BUY 200 0.5)
      [1700000000; 1700000010; 1700000020; 1700000030; 1700000040]%Z.
Definition thin_tape_f64 : list Double.Trade :=
  map (fun ts => trade_f64 ts BUY 32 0.5)
      [1700000000; 1700000010; 1700000020; 1700000030; 1700000040]%Z.
Definition all_buy_metrics_f64 : Double.Metrics :=
  Double.metrics_of (Double.window_at all_buy_tape_f64 4 1700000040)
                    (trade_f64 1700000040 BUY 200 0.5).
Definition thin_metrics_f64 : Double.Metrics :=
  Double.metrics_of (Double.window_at thin_tape_f64 4 1700000040)
                    (trade_f64 1700000040 BUY 32 0.5).

(** Three trades priced 0.13 within one window: two BUY of 370 shares and
    one SELL of 60. In exact arithmetic the volumes are 96.2 and 7.8, the
    total is 104 and the net share is 88.4 / 104 = 0.85. The tape is given
    twice: as the binary64 numbers the program reads, and as the exact
    decimals. *)
Definition cent_tape : list Double.Trade :=
  [ trade_f64 1700000000 BUY 370 0.13;
    trade_f64 1700000010 BUY 370 0.13;
    trade_f64 1700000020 SELL 60 0.13 ].
Definition cent_trade_exact (ts : Z) (side : Side) (size : Z) : Trade :=
  {| timestamp := ts; proxyWallet := "0xb0b"; side := side;
     size := Some (Num.of_Z size); price := Some (Num.frac 13 100) |}.
Definition cent_tape_exact : list Trade :=
  [ cent_trade_exact 1700000000 BUY 370;
    cent_trade_exact 1700000010 BUY 370;
    cent_trade_exact 1700000020 SELL 60 ].

(** Three bursts of three BUY trades priced 0.31, a thousand seconds
    apart: twice 24 shares a trade (a window volume of 22.32) and then 120
    shares a trade (a window volume of 111.6, five times as much). *)
Definition burst_f64 (ts : Z) (size : PrimFloat.float) : list Double.Trade :=
  [ trade_f64 ts BUY size 0.31; trade_f64 (ts + 10) BUY size 0.31;
    trade_f64 (ts + 20) BUY size 0.31 ].
Definition spike_tape : list Double.Trade :=
  burst_f64 1700000000 24 ++ burst_f64 1700001000 24
  ++ burst_f64 1700002000 120.

End Scenario.

(** * Properties *)

(** ** Numbers *)

Lemma gtb_true_iff (a b : Qc) : Num.gtb a b = true <-> (b < a)%Qc.
Proof.
  unfold Num.gtb, Qclt. rewrite negb_true_iff.
  split; intro H.
  - apply Qnot_le_lt. intro Hle. apply Qle_bool_iff in Hle. congruence.
  - destruct (Qle_bool a b) eqn:E; [| reflexivity].
    apply Qle_bool_iff in E. exfalso. exact (Qlt_not_le _ _ H E).
Qed.

Lemma gtb_false_iff (a b : Qc) : Num.gtb a b = false <-> (a <= b)%Qc.
Proof.
  unfold Num.gtb, Qcle. rewrite negb_false_iff. apply Qle_bool_iff.
Qed.

Lemma leb_true_iff (a b : Qc) : Num.leb a b = true <-> (a <= b)%Qc.
Proof. unfold Num.leb, Qcle. apply Qle_bool_iff. Qed.

Lemma gtb_mono (a a' c : Qc) :
  (a <= a')%Qc -> Num.gtb a c = true -> Num.gtb a' c = true.
Proof.
  intros Hle H. apply gtb_true_iff in H. apply gtb_true_iff.
  eapply Qclt_le_trans; eassumption.
Qed.

Lemma gtb_irrefl (a : Qc) : Num.gtb a a = false.
Proof. apply gtb_false_iff. apply Qcle_refl. Qed.

Lemma Qc_eq_bool_true_iff (a b : Qc) : Qc_eq_bool a b = true <-> a = b.
Proof.
  split.
  - apply Qc_eq_bool_correct.
  - intros ->. unfold Qc_eq_bool. destruct (Qc_eq_dec b b); congruence.
Qed.

Lemma Math_round_of_Z (z : Z) : Num.Math_round (Num.of_Z z) = z.
Proof.
  unfold Num.Math_round, Num.of_Z, Num.frac, Qcplus, Q2Qc. cbn [this].
  rewrite (Qfloor_comp _ (inject_Z z + (1 # 2))%Q).
  - unfold Qfloor, Qplus, inject_Z. cbn [Qnum Qden].
    replace (z * 2 + 1 * 1)%Z with (1 + z * 2)%Z by ring.
    change (Z.pos (1 * 2)) with 2%Z.
    rewrite Z.div_add by discriminate. reflexivity.
  - rewrite !Qred_correct. reflexivity.
Qed.

(** ** The scorer *)

Lemma kind_weight_ge_5 (k : Kind) : (5 <= kind_weight k)%Z.
Proof. destruct k; vm_compute; discriminate. Qed.

Lemma sumZ_app (l1 l2 : list Z) : sumZ (l1 ++ l2) = (sumZ l1 + sumZ l2)%Z.
Proof.
  unfold sumZ. induction l1 as [| a l1 IH]; cbn [app fold_right].
  - reflexivity.
  - rewrite IH. ring.
Qed.

Lemma fold_weights (l : list Kind) (a : Z) :
  fold_left (fun score type => (score + kind_weight type)%Z) l a
  = (a + sumZ (map Spec.base_weight l))%Z.
Proof.
  revert a. induction l as [| k l IH]; intro a; cbn [fold_left map sumZ fold_right].
  - ring.
  - rewrite IH. replace (kind_weight k) with (Spec.base_weight k).
    + fold (sumZ (map Spec.base_weight l)). ring.
    + destruct k; reflexivity.
Qed.

Lemma sum_weights_lower (l : list Kind) :
  (5 * Z.of_nat (length l) <= sumZ (map Spec.base_weight l))%Z.
Proof.
  induction l as [| k l IH]; cbn [map sumZ fold_right length].
  - lia.
  - fold (sumZ (map Spec.base_weight l)).
    assert (5 <= Spec.base_weight k)%Z by (destruct k; vm_compute; discriminate).
    lia.
Qed.

Lemma multi_bonus_spec (n : nat) : multi_bonus n = Spec.multi_kind_bonus n.
Proof.
  unfold multi_bonus, Spec.multi_kind_bonus.
  destruct (Nat.leb_spec 3 n); [reflexivity |].
  destruct (Nat.leb_spec 2 n), (Nat.eqb_spec n 2); try reflexivity; lia.
Qed.

Lemma multi_bonus_range (n : nat) : (0 <= multi_bonus n <= 10)%Z.
Proof.
  unfold multi_bonus. destruct (3 <=? n)%nat, (2 <=? n)%nat; lia.
Qed.

Lemma multi_bonus_mono (n : nat) : (multi_bonus n <= multi_bonus (S n))%Z.
Proof.
  unfold multi_bonus.
  destruct (Nat.leb_spec 3 n), (Nat.leb_spec 3 (S n)),
           (Nat.leb_spec 2 n), (Nat.leb_spec 2 (S n)); lia.
Qed.

(** Case analysis on every threshold test of a tier chain. *)
Ltac split_tiers x :=
  repeat match goal with
         | |- context [Num.gtb x ?c] =>
             let E := fresh "E" in destruct (Num.gtb x c) eqn:E
         end.

Ltac tier_spec :=
  let x := fresh "x" in
  intro x;
  unfold Spec.tier_bonus, Spec.highest_matching;
  cbn [fold_left fst snd];
  split_tiers x; cbn [fst snd]; try reflexivity;
  repeat match goal with
         | |- context [Num.gtb ?a ?b] =>
             let v := eval vm_compute in (Num.gtb a b) in
             change (Num.gtb a b) with v
         end;
  cbn [fst snd]; reflexivity.

Lemma volume_bonus_spec :
  forall x, volume_bonus x = Spec.tier_bonus Spec.volume_tiers x.
Proof. unfold volume_bonus, Spec.volume_tiers. tier_spec. Qed.

Lemma size_bonus_spec :
  forall x, size_bonus x = Spec.tier_bonus Spec.size_tiers x.
Proof. unfold size_bonus, Spec.size_tiers. tier_spec. Qed.

Lemma price_bonus_spec :
  forall x, price_bonus x = Spec.tier_bonus Spec.price_tiers x.
Proof. unfold price_bonus, Spec.price_tiers. tier_spec. Qed.

Lemma imbalance_bonus_spec :
  forall x, imbalance_bonus x = Spec.tier_bonus Spec.imbalance_tiers x.
Proof. unfold imbalance_bonus, Spec.imbalance_tiers. tier_spec. Qed.

Lemma liquidity_bonus_spec :
  forall x, liquidity_bonus x = Spec.tier_bonus Spec.liquidity_tiers x.
Proof. unfold liquidity_bonus, Spec.liquidity_tiers. tier_spec. Qed.

(** Monotonicity of a tier chain: a test passed by [a] is passed by any
    larger input. *)
Ltac tier_mono H :=
  match type of H with
  | (?a <= ?a')%Qc =>
      repeat match goal with
             | |- context [Num.gtb a ?c] =>
                 let E := fresh "E" in
                 destruct (Num.gtb a c) eqn:E;
                 [rewrite (gtb_mono c H E) |]; cbv iota
             end;
      split_tiers a'; cbv iota; lia
  end.

Lemma volume_bonus_mono (a a' : Qc) :
  (a <= a')%Qc -> (volume_bonus a <= volume_bonus a')%Z.
Proof. intro H. unfold volume_bonus. tier_mono H. Qed.

Lemma size_bonus_mono (a a' : Qc) :
  (a <= a')%Qc -> (size_bonus a <= size_bonus a')%Z.
Proof. intro H. unfold size_bonus. tier_mono H. Qed.

Lemma price_bonus_mono (a a' : Qc) :
  (a <= a')%Qc -> (price_bonus a <= price_bonus a')%Z.
Proof. intro H. unfold price_bonus. tier_mono H. Qed.

Lemma imbalance_bonus_mono (a a' : Qc) :
  (a <= a')%Qc -> (imbalance_bonus a <= imbalance_bonus a')%Z.
Proof. intro H. unfold imbalance_bonus. tier_mono H. Qed.

Lemma liquidity_bonus_mono (a a' : Qc) :
  (a <= a')%Qc -> (liquidity_bonus a <= liquidity_bonus a')%Z.
Proof. intro H. unfold liquidity_bonus. tier_mono H. Qed.

Lemma volume_bonus_range (a : Qc) : (0 <= volume_bonus a <= 20)%Z.
Proof. unfold volume_bonus. split_tiers a; lia. Qed.

Lemma size_bonus_range (a : Qc) : (0 <= size_bonus a <= 15)%Z.
Proof. unfold size_bonus. split_tiers a; lia. Qed.

Lemma price_bonus_range (a : Qc) : (0 <= price_bonus a <= 10)%Z.
Proof. unfold price_bonus. split_tiers a; lia. Qed.

Lemma imbalance_bonus_range (a : Qc) : (0 <= imbalance_bonus a <= 10)%Z.
Proof. unfold imbalance_bonus. split_tiers a; lia. Qed.

Lemma liquidity_bonus_range (a : Qc) : (0 <= liquidity_bonus a <= 5)%Z.
Proof. unfold liquidity_bonus. split_tiers a; lia. Qed.

(** The sum the source accumulates, split into its seven components. *)
Lemma raw_score_sum (p : ScoreParams) :
  raw_score p
  = (sumZ (map Spec.base_weight (anomalies p))
     + multi_bonus (length (anomalies p))
     + volume_bonus (volumeRatio p)
     + size_bonus (tradeSizeRatio p)
     + price_bonus (priceRangePct p)
     + imbalance_bonus (imbalanceRatio p)
     + liquidity_bonus (marketLiquidity p))%Z.
Proof. unfold raw_score. rewrite fold_weights. ring. Qed.

Lemma raw_score_components (p : ScoreParams) :
  raw_score p = sumZ (Spec.components p).
Proof.
  rewrite raw_score_sum. unfold Spec.components, sumZ. cbn [fold_right].
  rewrite multi_bonus_spec, volume_bonus_spec, size_bonus_spec,
    price_bonus_spec, imbalance_bonus_spec, liquidity_bonus_spec.
  ring.
Qed.

Lemma score_is_clamped_sum (p : ScoreParams) :
  calculateAnomalyScore p = Z.min 100 (raw_score p).
Proof. unfold calculateAnomalyScore. now rewrite Math_round_of_Z. Qed.

Lemma raw_score_lower (p : ScoreParams) :
  (5 * Z.of_nat (length (anomalies p)) <= raw_score p)%Z.
Proof.
  rewrite raw_score_sum.
  pose proof (sum_weights_lower (anomalies p)).
  pose proof (multi_bonus_range (length (anomalies p))).
  pose proof (volume_bonus_range (volumeRatio p)).
  pose proof (size_bonus_range (tradeSizeRatio p)).
  pose proof (price_bonus_range (priceRangePct p)).
  pose proof (imbalance_bonus_range (imbalanceRatio p)).
  pose proof (liquidity_bonus_range (marketLiquidity p)).
  lia.
Qed.

Lemma raw_score_mono (p p' : ScoreParams) :
  bonus_inputs_le p p' -> (raw_score p <= raw_score p')%Z.
Proof.
  intros (Hk & Hv & Hs & Hp & Hi & Hl).
  rewrite !raw_score_sum, Hk.
  pose proof (volume_bonus_mono Hv).
  pose proof (size_bonus_mono Hs).
  pose proof (price_bonus_mono Hp).
  pose proof (imbalance_bonus_mono Hi).
  pose proof (liquidity_bonus_mono Hl).
  lia.
Qed.

Lemma raw_score_push_kind (p : ScoreParams) (k : Kind) :
  (raw_score p <= raw_score (push_kind p k))%Z.
Proof.
  rewrite !raw_score_sum. unfold push_kind; cbn [anomalies volumeRatio
    tradeSizeRatio priceRangePct imbalanceRatio marketLiquidity].
  rewrite map_app, sumZ_app, length_app, Nat.add_1_r.
  cbn [map sumZ fold_right].
  pose proof (multi_bonus_mono (length (anomalies p))).
  assert (5 <= Spec.base_weight k)%Z by (destruct k; vm_compute; discriminate).
  lia.
Qed.

(** C4. The score is [min(100, round(sum of the components))], each tiered
    bonus being that of the highest matching tier of its category; hence
    it is an integer between 0 and 100, and it does not decrease when any
    of the five bonus inputs grows (the others fixed or growing too), nor
    when one more kind is matched. *)
Theorem calculateAnomalyScore_spec (p : ScoreParams) :
  calculateAnomalyScore p = Spec.score p
  /\ calculateAnomalyScore p = Z.min 100 (sumZ (Spec.components p))
  /\ (0 <= calculateAnomalyScore p <= 100)%Z
  /\ (forall p', bonus_inputs_le p p' ->
        (calculateAnomalyScore p <= calculateAnomalyScore p')%Z)
  /\ (forall k,
        (calculateAnomalyScore p <= calculateAnomalyScore (push_kind p k))%Z).
Proof.
  repeat split.
  - unfold calculateAnomalyScore, Spec.score.
    now rewrite raw_score_components.
  - rewrite score_is_clamped_sum. now rewrite raw_score_components.
  - rewrite score_is_clamped_sum. pose proof (raw_score_lower p). lia.
  - rewrite score_is_clamped_sum. lia.
  - intros p' Hle. rewrite !score_is_clamped_sum.
    pose proof (raw_score_mono Hle). lia.
  - intro k. rewrite !score_is_clamped_sum.
    pose proof (raw_score_push_kind p k). lia.
Qed.

Lemma calculateAnomalyScore_spec_witness :
  (calculateAnomalyScore Scenario.C_params
   <= calculateAnomalyScore Scenario.C_params_up)%Z.
Proof.
  apply (proj1 (proj2 (proj2 (proj2
           (calculateAnomalyScore_spec Scenario.C_params))))).
  unfold bonus_inputs_le.
  repeat split; try reflexivity; apply leb_true_iff; vm_compute; reflexivity.
Defined.

(** C6. Scenario C scores exactly 25: 10 for the kind, nothing for a single
    kind, nothing for the volume and trade-size ratios, 10 for a price range
    above 20 percent, nothing for the imbalance, 5 for a liquidity above
    10000. *)
Theorem scenario_C_score :
  calculateAnomalyScore Scenario.C_params = 25%Z
  /\ map kind_weight (anomalies Scenario.C_params) = [10%Z]
  /\ multi_bonus (length (anomalies Scenario.C_params)) = 0%Z
  /\ volume_bonus (volumeRatio Scenario.C_params) = 0%Z
  /\ size_bonus (tradeSizeRatio Scenario.C_params) = 0%Z
  /\ price_bonus (priceRangePct Scenario.C_params) = 10%Z
  /\ imbalance_bonus (imbalanceRatio Scenario.C_params) = 0%Z
  /\ liquidity_bonus (marketLiquidity Scenario.C_params) = 5%Z.
Proof. repeat split; vm_compute; reflexivity. Qed.

(** ** The deduplicator *)

Lemma dedupe_fold (events acc : list Event) (lastTs : Z) :
  fst (fold_left dedupe_step events (acc, lastTs))
  = acc ++ Spec.keep_after lastTs events.
Proof.
  revert acc lastTs.
  induction events as [| e rest IH]; intros acc lastTs;
    cbn [fold_left Spec.keep_after dedupe_step].
  - cbn [fst]. now rewrite app_nil_r.
  - destruct (Z.leb_spec 5 (ev_timestamp e - lastTs)),
             (Z.leb_spec (lastTs + 5) (ev_timestamp e)); try lia.
    + rewrite IH, <- app_assoc. reflexivity.
    + apply IH.
Qed.

(** The loop starts from [lastTs = 0]: it keeps what the gate keeps after a
    kept event at timestamp 0. *)
Lemma dedupe_keep_after (events : list Event) :
  dedupe events = Spec.keep_after 0 events.
Proof. unfold dedupe. now rewrite dedupe_fold. Qed.

Lemma keep_after_gaps (events : list Event) (lastKept : Z) :
  Forall (fun e => (lastKept + 5 <= ev_timestamp e)%Z)
         (Spec.keep_after lastKept events)
  /\ StronglySorted Spec.gap (Spec.keep_after lastKept events).
Proof.
  revert lastKept.
  induction events as [| e rest IH]; intro lastKept; cbn [Spec.keep_after].
  - split; constructor.
  - destruct (Z.leb_spec (lastKept + 5) (ev_timestamp e)) as [Hk | Hd].
    + destruct (IH (ev_timestamp e)) as [Hall Hsorted]. split.
      * constructor; [exact Hk |].
        eapply Forall_impl; [| exact Hall]. cbn. intros; lia.
      * constructor; [exact Hsorted |].
        eapply Forall_impl; [| exact Hall]. unfold Spec.gap. intros; lia.
    + apply IH.
Qed.

Lemma keep_after_fixed (events : list Event) (lastKept : Z) :
  Forall (fun e => (lastKept + 5 <= ev_timestamp e)%Z) events ->
  StronglySorted Spec.gap events ->
  Spec.keep_after lastKept events = events.
Proof.
  revert lastKept.
  induction events as [| e rest IH]; intros lastKept Hall Hsorted;
    cbn [Spec.keep_after]; [reflexivity |].
  inversion Hall as [| ? ? Hhd Htl]; subst.
  inversion Hsorted as [| ? ? Hrest Hgap]; subst.
  destruct (Z.leb_spec (lastKept + 5) (ev_timestamp e)); [| lia].
  f_equal. apply IH; [| exact Hrest].
  eapply Forall_impl; [| exact Hgap]. unfold Spec.gap. intros; lia.
Qed.

Lemma StronglySorted_nth_error {A : Type} (R : A -> A -> Prop) (l : list A) :
  StronglySorted R l ->
  forall i j a b, (i < j)%nat ->
    nth_error l i = Some a -> nth_error l j = Some b -> R a b.
Proof.
  induction 1 as [| x l Hsorted IH Hall]; intros i j a b Hij Hi Hj.
  - destruct i; discriminate.
  - destruct j as [| j]; [lia |]. cbn in Hj.
    destruct i as [| i]; cbn in Hi.
    + injection Hi as <-. rewrite Forall_forall in Hall.
      apply Hall. eapply nth_error_In; eassumption.
    + eapply IH; [| eassumption | eassumption]. lia.
Qed.

(** C1 (amended). The loop starts from [lastTs = 0], so it keeps the first
    event when that event's timestamp is at least 5, as every epoch
    timestamp of a real trade is; from there it keeps exactly the events
    whose timestamp is at least 5 seconds after that of the last kept
    event. In particular, of two events less than 5 seconds apart, say 3,
    only the earlier one survives. In general the loop keeps what the gate
    keeps after a kept event at timestamp 0. The order of the events plays
    no part. *)
Theorem dedupe_keeps_first_then_gates (first : Event) (rest : list Event)
  (Hepoch : (5 <= ev_timestamp first)%Z) :
  dedupe (first :: rest) = Spec.dedupe (first :: rest)
  /\ dedupe (first :: rest)
     = first :: Spec.keep_after (ev_timestamp first) rest
  /\ (forall second,
        (ev_timestamp second = ev_timestamp first + 3)%Z ->
        dedupe [first; second] = [first])
  /\ (forall events, dedupe events = Spec.keep_after 0 events).
Proof.
  assert (Hcons : forall l,
             dedupe (first :: l)
             = first :: Spec.keep_after (ev_timestamp first) l).
  { intro l. rewrite dedupe_keep_after. cbn [Spec.keep_after].
    destruct (Z.leb_spec (0 + 5) (ev_timestamp first)); [reflexivity | lia]. }
  repeat split.
  - rewrite Hcons. reflexivity.
  - apply Hcons.
  - intros second Hgap. rewrite Hcons. cbn [Spec.keep_after].
    destruct (Z.leb_spec (ev_timestamp first + 5) (ev_timestamp second));
      [lia | reflexivity].
  - apply dedupe_keep_after.
Qed.

Lemma dedupe_keeps_first_then_gates_witness :
  dedupe [Scenario.event_at 1700000000; Scenario.event_at 1700000003]
  = [Scenario.event_at 1700000000].
Proof.
  refine (proj1 (proj2 (proj2
    (@dedupe_keeps_first_then_gates (Scenario.event_at 1700000000) [] _)))
    (Scenario.event_at 1700000003) _).
  - cbn. lia.
  - reflexivity.
Defined.

(** C1 as stated fails on an event list whose first timestamp is below 5:
    the first event is dropped, although keeping the first event
    unconditionally would keep it. *)
Lemma dedupe_first_event_dropped :
  dedupe [Scenario.event_at 3; Scenario.event_at 4] = []
  /\ Spec.dedupe [Scenario.event_at 3; Scenario.event_at 4]
     = [Scenario.event_at 3]
  /\ ~ (forall events : list Event,
          events <> [] ->
          StronglySorted (fun a b => (ev_timestamp a <= ev_timestamp b)%Z)
                         events ->
          dedupe events = Spec.dedupe events).
Proof.
  split; [reflexivity |]. split; [reflexivity |].
  intro Hclaim.
  specialize (Hclaim [Scenario.event_at 3; Scenario.event_at 4]).
  assert (Hne : [Scenario.event_at 3; Scenario.event_at 4] <> [])
    by discriminate.
  assert (Hasc : StronglySorted
                   (fun a b => (ev_timestamp a <= ev_timestamp b)%Z)
                   [Scenario.event_at 3; Scenario.event_at 4]).
  { repeat constructor; cbn; lia. }
  specialize (Hclaim Hne Hasc). discriminate Hclaim.
Qed.

(** C8. Running the deduplicator on its own output returns that output, and
    in an output every later event is at least 5 seconds after every earlier
    one; this holds for every event list, ascending or not. *)
Theorem dedupe_idempotent (events : list Event) :
  dedupe (dedupe events) = dedupe events
  /\ StronglySorted Spec.gap (dedupe events)
  /\ (forall i j a b, (i < j)%nat ->
        nth_error (dedupe events) i = Some a ->
        nth_error (dedupe events) j = Some b ->
        (5 <= ev_timestamp b - ev_timestamp a)%Z).
Proof.
  destruct (keep_after_gaps events 0) as [Hall Hsorted].
  rewrite <- dedupe_keep_after in Hall, Hsorted.
  repeat split.
  - rewrite (dedupe_keep_after (dedupe events)).
    apply keep_after_fixed; assumption.
  - exact Hsorted.
  - intros i j a b Hij Hi Hj.
    exact (StronglySorted_nth_error Hsorted Hij Hi Hj).
Qed.

Lemma dedupe_idempotent_witness :
  (5 <= ev_timestamp (Scenario.event_at 1700000010)
        - ev_timestamp (Scenario.event_at 1700000000))%Z.
Proof.
  apply (proj2 (proj2 (dedupe_idempotent
           [Scenario.event_at 1700000000; Scenario.event_at 1700000003;
            Scenario.event_at 1700000010])) 0%nat 1%nat).
  - lia.
  - reflexivity.
  - reflexivity.
Defined.

(** ** Sorting and the median *)

Section SortFacts.
Variable A : Type.
Variable leb : A -> A -> bool.
Hypothesis leb_total : forall a b, leb a b = true \/ leb b a = true.
Hypothesis leb_trans :
  forall a b c, leb a b = true -> leb b c = true -> leb a c = true.

Let le (a b : A) : Prop := leb a b = true.

Lemma insert_perm (x : A) (l : list A) : Permutation (insert leb x l) (x :: l).
Proof.
  induction l as [| y ys IH]; cbn [insert].
  - apply Permutation_refl.
  - destruct (leb x y).
    + apply Permutation_refl.
    + eapply Permutation_trans; [apply perm_skip, IH | apply perm_swap].
Qed.

Lemma js_sort_perm (l : list A) : Permutation (js_sort leb l) l.
Proof.
  induction l as [| x xs IH]; cbn [js_sort fold_right].
  - apply Permutation_refl.
  - eapply Permutation_trans; [apply insert_perm |]. now apply perm_skip.
Qed.

Lemma js_sort_length (l : list A) : length (js_sort leb l) = length l.
Proof. apply Permutation_length, js_sort_perm. Qed.

Lemma insert_sorted (x : A) (l : list A) :
  StronglySorted le l -> StronglySorted le (insert leb x l).
Proof.
  induction 1 as [| y ys Hsorted IH Hall]; cbn [insert].
  - repeat constructor.
  - destruct (leb x y) eqn:Exy.
    + constructor; [now constructor |].
      constructor; [exact Exy |].
      eapply Forall_impl; [| exact Hall].
      intros z Hyz. exact (leb_trans Exy Hyz).
    + constructor; [exact IH |].
      assert (Hyx : le y x)
        by (destruct (leb_total x y) as [H | H]; [congruence | exact H]).
      eapply Permutation_Forall;
        [apply Permutation_sym, insert_perm |].
      now constructor.
Qed.

Lemma js_sort_sorted (l : list A) : StronglySorted le (js_sort leb l).
Proof.
  induction l as [| x xs IH]; cbn [js_sort fold_right].
  - constructor.
  - now apply insert_sorted.
Qed.
End SortFacts.


Lemma num_sort_sorted (arr : list Qc) :
  StronglySorted Qcle (js_sort Num.leb arr).
Proof.
  assert (H : StronglySorted (fun a b => Num.leb a b = true)
                             (js_sort Num.leb arr)).
  { apply js_sort_sorted.
    - intros a b. rewrite !leb_true_iff.
      destruct (Qclt_le_dec a b) as [Hlt | Hle];
        [left; now apply Qclt_le_weak | now right].
    - intros a b c. rewrite !leb_true_iff. apply Qcle_trans. }
  induction H as [| x l Hs IH Hall]; constructor; [exact IH |].
  eapply Forall_impl; [| exact Hall]. intros y. apply leb_true_iff.
Qed.






(** ** The forward-price validator *)

Lemma filter_all_false {A : Type} (f : A -> bool) (l : list A) :
  (forall x, In x l -> f x = false) -> filter f l = [].
Proof.
  induction l as [| a l IH]; intro H; cbn [filter]; [reflexivity |].
  rewrite (H a (or_introl eq_refl)). apply IH.
  intros x Hx. apply H. now right.
Qed.





Lemma direction_cases (c : Qc) :
  let d := if Num.gtb c 0 then up else if Num.ltb c 0 then down else flat in
  ((0 < c)%Qc -> d = up)
  /\ ((c < 0)%Qc -> d = down)
  /\ (c = 0%Qc -> d = flat).
Proof.
  cbn zeta. unfold Num.ltb. repeat split.
  - intro H. apply gtb_true_iff in H. now rewrite H.
  - intro H.
    assert (Hle : Num.gtb c 0 = false)
      by (apply gtb_false_iff; now apply Qclt_le_weak).
    apply gtb_true_iff in H. now rewrite Hle, H.
  - intros ->. now rewrite gtb_irrefl.
Qed.

(** What [calculatePriceChange] returns when the flagged trade has a
    non-zero price and [futureTrades] is not empty. *)
Lemma calculatePriceChange_some (trades : list Trade) (i : nat) (t lt : Trade) :
  nth_error trades i = Some t ->
  Num.or_default (price t) 0%Qc <> 0%Qc ->
  nth_error (futureTrades_of trades i (timestamp t))
            (length (futureTrades_of trades i (timestamp t)) - 1) = Some lt ->
  let P := Num.or_default (price t) 0%Qc in
  let L := Num.or_default (price lt) P in
  let c := ((L - P) / P * Num.of_Z 100)%Qc in
  calculatePriceChange trades i (timestamp t)
  = Ok (Some {| change := c;
                direction := if Num.gtb c 0 then up
                             else if Num.ltb c 0 then down else flat;
                futurePrice := L;
                eventPrice := P;
                tradeCount :=
                  length (futureTrades_of trades i (timestamp t)) |}).
Proof.
  intros Hi HP Hlast. cbn zeta. unfold calculatePriceChange. rewrite Hi.
  destruct (Qc_eq_bool (Num.or_default (price t) 0%Qc) 0%Qc) eqn:E.
  - apply Qc_eq_bool_true_iff in E. contradiction.
  - destruct (Nat.eqb_spec
                (length (futureTrades_of trades i (timestamp t))) 0)
      as [Hlen | _].
    + rewrite Hlen in Hlast.
      apply length_zero_iff_nil in Hlen. rewrite Hlen in Hlast.
      discriminate.
    + rewrite Hlast. reflexivity.
Qed.




(** C9. When the flagged trade has a non-zero price [P] and the last trade
    within 300 seconds has a price that is 0 or missing,
    [calculatePriceChange] takes [P] as the future price: the record has
    [futurePrice = P], a change of 0 and the direction flat. *)
Theorem calculatePriceChange_zero_future_price
  (trades : list Trade) (i : nat) (t lt : Trade)
  (Hi : nth_error trades i = Some t)
  (HP : Num.or_default (price t) 0%Qc <> 0%Qc)
  (Hlast : nth_error (futureTrades_of trades i (timestamp t))
             (length (futureTrades_of trades i (timestamp t)) - 1) = Some lt)
  (Hzero : price lt = Some 0%Qc \/ price lt = None) :
  calculatePriceChange trades i (timestamp t)
  = Ok (Some {| change := 0%Qc;
                direction := flat;
                futurePrice := Num.or_default (price t) 0%Qc;
                eventPrice := Num.or_default (price t) 0%Qc;
                tradeCount :=
                  length (futureTrades_of trades i (timestamp t)) |}).
Proof.
  rewrite (@calculatePriceChange_some trades i t lt Hi HP Hlast). cbn zeta.
  assert (HL : Num.or_default (price lt) (Num.or_default (price t) 0%Qc)
               = Num.or_default (price t) 0%Qc).
  { destruct Hzero as [-> | ->]; reflexivity. }
  rewrite HL.
  assert (Hc : ((Num.or_default (price t) 0 - Num.or_default (price t) 0)
                / Num.or_default (price t) 0 * Num.of_Z 100)%Qc = 0%Qc).
  { unfold Qcdiv. ring. }
  rewrite Hc. unfold Num.ltb. rewrite gtb_irrefl. reflexivity.
Qed.

Lemma calculatePriceChange_zero_future_price_witness :
  calculatePriceChange Scenario.zero_price_tape 0 100
  = Ok (Some {| change := 0%Qc;
                direction := flat;
                futurePrice := Num.or_default (Some (Num.frac 1 2)) 0%Qc;
                eventPrice := Num.or_default (Some (Num.frac 1 2)) 0%Qc;
                tradeCount := 1 |}).
Proof.
  refine (@calculatePriceChange_zero_future_price
            Scenario.zero_price_tape 0 _
            (mkTrade 160 "0xa2" SELL (Some (Num.of_Z 10)) (Some 0%Qc))
            eq_refl _ eq_refl _).
  - intro H. apply (f_equal this) in H. vm_compute in H. discriminate.
  - left. reflexivity.
Defined.

(** ** Loops and completions *)

Lemma for_push_nil {A B : Type} (body : A -> result (list B)) (xs : list A) :
  (forall x, In x xs -> body x = Ok []) -> for_push body xs = Ok [].
Proof.
  induction xs as [| x rest IH]; intro H; cbn [for_push]; [reflexivity |].
  rewrite (H x (or_introl eq_refl)). cbn [bind].
  rewrite IH; [reflexivity |]. intros y Hy. apply H. now right.
Qed.

Lemma for_push_total {A B : Type} (body : A -> result (list B)) (xs : list A) :
  (forall x, In x xs -> exists out, body x = Ok out) ->
  exists outs, for_push body xs = Ok outs.
Proof.
  induction xs as [| x rest IH]; intro H; cbn [for_push].
  - now exists [].
  - destruct (H x (or_introl eq_refl)) as [out ->].
    destruct IH as [more ->]; [intros y Hy; apply H; now right |].
    cbn [bind]. now eexists.
Qed.

Lemma for_push_In {A B : Type} (body : A -> result (list B)) (xs : list A)
  (outs : list B) (e : B) :
  for_push body xs = Ok outs -> In e outs ->
  exists x out, In x xs /\ body x = Ok out /\ In e out.
Proof.
  revert outs.
  induction xs as [| x rest IH]; intros outs Hrun Hin; cbn [for_push] in Hrun.
  - injection Hrun as <-. contradiction.
  - destruct (body x) as [out |] eqn:Ex; [| discriminate].
    cbn [bind] in Hrun.
    destruct (for_push body rest) as [more |]; [| discriminate].
    cbn [bind] in Hrun. injection Hrun as <-.
    apply in_app_or in Hin as [Hin | Hin].
    + exists x, out. auto with datatypes.
    + destruct (IH more eq_refl Hin) as (y & o & Hy & Ho & He).
      exists y, o. auto with datatypes.
Qed.

Lemma calculatePriceChange_total (trades : list Trade) (i : nat) (T : Z) :
  (i < length trades)%nat ->
  exists r, calculatePriceChange trades i T = Ok r.
Proof.
  intro Hi. unfold calculatePriceChange.
  destruct (nth_error trades i) as [t |] eqn:Et;
    [| apply nth_error_None in Et; lia].
  destruct (Qc_eq_bool _ _); [now eexists |].
  destruct (Nat.eqb_spec (length (futureTrades_of trades i T)) 0) as [| Hne];
    [now eexists |].
  destruct (nth_error (futureTrades_of trades i T)
              (length (futureTrades_of trades i T) - 1)) eqn:El.
  - now eexists.
  - apply nth_error_None in El. lia.
Qed.

Lemma stats_at_total (trades : list Trade) (i : nat) :
  (i < length trades)%nat -> exists out, stats_at trades i = Ok out.
Proof.
  intro Hi. unfold stats_at.
  destruct (nth_error trades i) eqn:Et; [| apply nth_error_None in Et; lia].
  destruct (3 <=? _)%nat; now eexists.
Qed.

Lemma detect_at_total (trades : list Trade) (market : Market)
  (medianVolume medianTradeSize : Qc) (i : nat) :
  (i < length trades)%nat ->
  exists out, detect_at trades market medianVolume medianTradeSize i = Ok out.
Proof.
  intro Hi. unfold detect_at.
  destruct (nth_error trades i) as [t |] eqn:Et;
    [| apply nth_error_None in Et; lia].
  destruct (_ <? 3)%nat; [now eexists |].
  destruct (0 <? _)%nat; [| now eexists].
  destruct (calculatePriceChange_total trades (timestamp t) Hi) as [r ->].
  cbn [bind]. now eexists.
Qed.

(** [detectAnomalies] never throws. *)
Lemma detectAnomalies_total (trades : list Trade) (market : Market) :
  exists events, detectAnomalies trades market = Ok events.
Proof.
  unfold detectAnomalies, all_stats.
  destruct (for_push_total (stats_at (sort_trades trades))
              (seq 0 (length (sort_trades trades)))) as [allStats ->].
  { intros i Hi. apply in_seq in Hi. apply stats_at_total. lia. }
  cbn [bind]. destruct (length allStats =? 0)%nat; [now eexists |].
  match goal with
  | |- context [for_push ?body ?xs] =>
      destruct (for_push_total body xs) as [events ->]
  end.
  { intros i Hi. apply in_seq in Hi. apply detect_at_total. lia. }
  cbn [bind]. now eexists.
Qed.

Lemma keep_after_In (events : list Event) (lastKept : Z) (e : Event) :
  In e (Spec.keep_after lastKept events) -> In e events.
Proof.
  revert lastKept.
  induction events as [| x rest IH]; intros lastKept Hin;
    cbn [Spec.keep_after] in Hin; [contradiction |].
  destruct (_ <=? _)%Z.
  - destruct Hin as [-> | Hin]; [now left | right; eauto].
  - right; eauto.
Qed.

Lemma dedupe_In (events : list Event) (e : Event) :
  In e (dedupe events) -> In e events.
Proof. rewrite dedupe_keep_after. apply keep_after_In. Qed.

(** ** The classifier and the detection loop *)

(** The event pushed at index [i], when one is. *)
Lemma detect_at_event (trades : list Trade) (market : Market)
  (medianVolume medianTradeSize : Qc) (i : nat) (out : list Event) (e : Event) :
  detect_at trades market medianVolume medianTradeSize i = Ok out ->
  In e out ->
  exists t,
    nth_error trades i = Some t
    /\ (3 <= length (window_at trades i (timestamp t)))%nat
    /\ out = [e]
    /\ ev_timestamp e = timestamp t
    /\ ev_anomalies e
       = classify medianVolume medianTradeSize
           (metrics_of (window_at trades i (timestamp t)) t)
    /\ ev_anomalies e <> []
    /\ ev_totalVolume e
       = totalVol (metrics_of (window_at trades i (timestamp t)) t)
    /\ ev_netVolume e
       = netVol (metrics_of (window_at trades i (timestamp t)) t)
    /\ ev_score e
       = calculateAnomalyScore
           (score_params medianVolume medianTradeSize market
              (metrics_of (window_at trades i (timestamp t)) t)
              (ev_anomalies e)).
Proof.
  unfold detect_at. intros Hrun Hin.
  destruct (nth_error trades i) as [t |]; [| discriminate].
  exists t. split; [reflexivity |].
  destruct (Nat.ltb_spec (length (window_at trades i (timestamp t))) 3)
    as [| Hlen].
  { injection Hrun as <-. contradiction. }
  split; [exact Hlen |].
  destruct (Nat.ltb_spec 0
              (length (classify medianVolume medianTradeSize
                 (metrics_of (window_at trades i (timestamp t)) t))))
    as [Hpos |].
  2: { injection Hrun as <-. contradiction. }
  destruct (calculatePriceChange trades i (timestamp t)) as [pc |];
    [| discriminate].
  cbn [bind] in Hrun. injection Hrun as <-.
  destruct Hin as [<- | []]. cbn.
  repeat split.
  intro Hnil. rewrite Hnil in Hpos. cbn in Hpos. lia.
Qed.

(** An emitted event scores at least 5. *)
Lemma score_ge_5 (p : ScoreParams) :
  anomalies p <> [] -> (5 <= calculateAnomalyScore p)%Z.
Proof.
  intro Hne. rewrite score_is_clamped_sum.
  pose proof (raw_score_lower p) as Hlow.
  destruct (anomalies p) as [| k l]; [congruence |].
  cbn [length] in Hlow. lia.
Qed.

(** ** The imbalance check on binary64 figures *)

(** The third check of the classifier decides the [imbalance] kind. *)
Lemma Double_classify_imbalance (medianVolume medianTradeSize : float)
  (m : Double.Metrics) :
  In imbalance (Double.classify medianVolume medianTradeSize m)
  <-> (100 <? Double.totalVol m)%float = true
      /\ (0.85 <? abs (Double.netVol m) / Double.totalVol m)%float = true.
Proof.
  rewrite <- andb_true_iff.
  unfold Double.classify, Double.gtb. cbn zeta.
  destruct ((100 <? Double.totalVol m)%float
            && (0.85 <? abs (Double.netVol m) / Double.totalVol m)%float);
    destruct ((0 <? medianVolume)%float && _);
    destruct ((0 <? medianTradeSize)%float && _);
    destruct ((0 <? Double.avgPrice m)%float && _);
    destruct (10 <? Double.tradeFreq m)%nat;
    cbn [app In];
    (split;
     [ intro H; repeat (destruct H as [H | H]; try discriminate H);
       try reflexivity; try contradiction
     | intro H; try discriminate H; auto 8 ]).
Qed.

Lemma Double_calculatePriceChange_total (trades : list Double.Trade)
  (i : nat) (T : Z) :
  (i < length trades)%nat ->
  exists r, Double.calculatePriceChange trades i T = Ok r.
Proof.
  intro Hi. unfold Double.calculatePriceChange.
  destruct (nth_error trades i) as [t |] eqn:Et;
    [| apply nth_error_None in Et; lia].
  destruct (_ =? _)%float; [now eexists |].
  destruct (Nat.eqb_spec (length (Double.futureTrades_of trades i T)) 0)
    as [| Hne]; [now eexists |].
  destruct (nth_error (Double.futureTrades_of trades i T)
              (length (Double.futureTrades_of trades i T) - 1)) eqn:El.
  - now eexists.
  - apply nth_error_None in El. lia.
Qed.

(** The event pushed at index [i] carries the kinds of the classifier and
    the two volumes of the window. *)
Lemma Double_detect_at_event (trades : list Double.Trade)
  (market : Double.Market) (medianVolume medianTradeSize : float) (i : nat)
  (t : Double.Trade) (e : Double.Event) :
  nth_error trades i = Some t ->
  Double.detect_at trades market medianVolume medianTradeSize i = Ok [e] ->
  let m :=
    Double.metrics_of (Double.window_at trades i (Double.timestamp t)) t in
  Double.ev_anomalies e = Double.classify medianVolume medianTradeSize m
  /\ Double.ev_totalVolume e = Double.totalVol m
  /\ Double.ev_netVolume e = Double.netVol m.
Proof.
  intros Hi Hrun. unfold Double.detect_at in Hrun. rewrite Hi in Hrun.
  destruct (length (Double.window_at trades i (Double.timestamp t)) <? 3)%nat;
    [discriminate |].
  destruct (0 <? length _)%nat; [| discriminate].
  destruct (Double.calculatePriceChange trades i (Double.timestamp t));
    cbn [bind] in Hrun; [| discriminate].
  injection Hrun as <-. cbn. repeat split.
Qed.

(** C3. At every index whose window holds at least 3 trades, an event
    flagged [imbalance] is emitted if and only if the window's total volume
    exceeds 100 and the absolute net volume over the total volume exceeds
    0.85, where the figures are the binary64 numbers the program computes:
    the BUY and the SELL volumes, each summed from the left over rounded
    products, their rounded sum and difference, the rounded quotient, and
    0.85 read as the nearest binary64 number. The emitted event reports
    these two volumes. A window of five BUY trades of $100 each (total
    500, ratio 1) is flagged; the same skew with a total of 80 is not. *)
Theorem imbalance_flagged_iff (trades : list Double.Trade)
  (market : Double.Market) (medianVolume medianTradeSize : float) (i : nat)
  (t : Double.Trade)
  (Hi : nth_error trades i = Some t)
  (Hwindow :
     (3 <= length (Double.window_at trades i (Double.timestamp t)))%nat) :
  let window := Double.window_at trades i (Double.timestamp t) in
  let m := Double.metrics_of window t in
  ((exists e,
      Double.detect_at trades market medianVolume medianTradeSize i = Ok [e]
      /\ In imbalance (Double.ev_anomalies e)
      /\ Double.ev_totalVolume e = Double.totalVol m
      /\ Double.ev_netVolume e = Double.netVol m)
   <-> (100 <? Double.totalVol m)%float = true
       /\ (0.85 <? abs (Double.netVol m) / Double.totalVol m)%float = true)
  /\ (Double.buyVol m
      = Double.sum_by Double.notional
          (filter (fun x => Side_eqb (Double.side x) BUY) window)
      /\ Double.sellVol m
         = Double.sum_by Double.notional
             (filter (fun x => Side_eqb (Double.side x) SELL) window)
      /\ Double.totalVol m = (Double.buyVol m + Double.sellVol m)%float
      /\ Double.netVol m = (Double.buyVol m - Double.sellVol m)%float)
  /\ (length (Double.window_at Scenario.all_buy_tape_f64 4 1700000040)
      = 5%nat
      /\ Double.totalVol Scenario.all_buy_metrics_f64 = 500%float
      /\ Double.netVol Scenario.all_buy_metrics_f64 = 500%float
      /\ In imbalance
           (Double.classify medianVolume medianTradeSize
              Scenario.all_buy_metrics_f64))
  /\ (length (Double.window_at Scenario.thin_tape_f64 4 1700000040) = 5%nat
      /\ Double.totalVol Scenario.thin_metrics_f64 = 80%float
      /\ Double.netVol Scenario.thin_metrics_f64 = 80%float
      /\ ~ In imbalance
             (Double.classify medianVolume medianTradeSize
                Scenario.thin_metrics_f64)).
Proof.
  cbn zeta. split; [| split; [| split]].
  - rewrite <- (Double_classify_imbalance medianVolume medianTradeSize).
    split.
    + intros (e & Hrun & Hin & _).
      destruct (@Double_detect_at_event _ _ _ _ _ _ _ Hi Hrun) as (Hkinds & _).
      now rewrite <- Hkinds.
    + intro Hin. unfold Double.detect_at. rewrite Hi.
      destruct (Nat.ltb_spec
                  (length (Double.window_at trades i (Double.timestamp t))) 3);
        [lia |].
      destruct (Nat.ltb_spec 0
                  (length (Double.classify medianVolume medianTradeSize
                     (Double.metrics_of
                        (Double.window_at trades i (Double.timestamp t)) t))))
        as [| Hzero].
      * destruct (@Double_calculatePriceChange_total trades i
                    (Double.timestamp t)) as [pc ->].
        { apply nth_error_Some. congruence. }
        cbn [bind]. eexists. split; [reflexivity |].
        split; [exact Hin |]. split; reflexivity.
      * destruct (Double.classify medianVolume medianTradeSize
                    (Double.metrics_of
                       (Double.window_at trades i (Double.timestamp t)) t));
          [contradiction | cbn in Hzero; lia].
  - repeat split.
  - split; [reflexivity |].
    split; [vm_compute; reflexivity |].
    split; [vm_compute; reflexivity |].
    apply Double_classify_imbalance.
    split; vm_compute; reflexivity.
  - split; [reflexivity |].
    split; [vm_compute; reflexivity |].
    split; [vm_compute; reflexivity |].
    rewrite Double_classify_imbalance. intros [Hvol _].
    vm_compute in Hvol. discriminate.
Qed.

Lemma imbalance_flagged_iff_witness :
  exists e,
    Double.detect_at Scenario.all_buy_tape_f64 Scenario.a_market_f64
      400 100 4 = Ok [e]
    /\ In imbalance (Double.ev_anomalies e)
    /\ Double.ev_totalVolume e = 500%float
    /\ Double.ev_netVolume e = 500%float.
Proof.
  refine (proj2 (proj1
    (@imbalance_flagged_iff Scenario.all_buy_tape_f64 Scenario.a_market_f64
       400 100 4 (Scenario.trade_f64 1700000040 BUY 200 0.5)
       eq_refl _)) _).
  - vm_compute. lia.
  - split; vm_compute; reflexivity.
Defined.

(** Three trades priced 0.13, two BUY of 370 shares and one SELL of 60:
    in exact arithmetic the window's total volume is 104 and the net share
    is exactly 0.85, which does not exceed 0.85, and the engine over exact
    rationals returns no event. The program computes a net volume of
    88.400000000000006 and a quotient of 0.85000000000000009, and returns
    an event flagged [imbalance]. *)
Lemma imbalance_flagged_at_exact_ratio :
  let window := window_at Scenario.cent_tape_exact 2 1700000020 in
  let m :=
    metrics_of window (Scenario.cent_trade_exact 1700000020 SELL 60) in
  (length window = 3%nat
   /\ totalVol m = Num.of_Z 104
   /\ (Qcabs (netVol m) / totalVol m)%Qc = Num.frac 85 100
   /\ ~ (Num.frac 85 100 < Qcabs (netVol m) / totalVol m)%Qc
   /\ detectAnomalies Scenario.cent_tape_exact Scenario.a_market = Ok [])
  /\ exists e,
       Double.detectAnomalies Scenario.cent_tape Scenario.a_market_f64
       = Ok [e]
       /\ Double.ev_timestamp e = 1700000020%Z
       /\ Double.ev_anomalies e = [imbalance]
       /\ Double.ev_tradeCount e = 3%nat
       /\ Double.ev_totalVolume e = 104%float
       /\ Double.ev_netVolume e = 88.400000000000006%float
       /\ (abs (Double.ev_netVolume e) / Double.ev_totalVolume e)%float
          = 0.85000000000000009%float
       /\ (0.85 <? abs (Double.ev_netVolume e) / Double.ev_totalVolume e)%float
          = true.
Proof.
  cbn zeta. split.
  - split; [reflexivity |].
    split; [apply Qc_is_canon; vm_compute; reflexivity |].
    split; [apply Qc_is_canon; vm_compute; reflexivity |].
    split; [| vm_compute; reflexivity].
    intro H. apply gtb_true_iff in H. vm_compute in H. discriminate.
  - eexists. split; [vm_compute; reflexivity |].
    repeat split.
Qed.

(** C7. A market with fewer than 10 fetched trades, or one whose sorted
    trades have no index with a window of at least 3 trades, yields the
    empty event list, not an exception. *)
Theorem sparse_market_no_events (trades : list Trade) (market : Market) :
  ((length trades < 10)%nat -> analyzeMarket (market, trades) = Ok [])
  /\ ((forall i t,
         nth_error (sort_trades trades) i = Some t ->
         (length (window_at (sort_trades trades) i (timestamp t)) < 3)%nat) ->
      detectAnomalies trades market = Ok []
      /\ analyzeMarket (market, trades) = Ok []).
Proof.
  split.
  - intro Hfew. unfold analyzeMarket.
    destruct (Nat.ltb_spec (length trades) 10); [reflexivity | lia].
  - intro Hnone.
    assert (Hdetect : detectAnomalies trades market = Ok []).
    { unfold detectAnomalies, all_stats.
      rewrite for_push_nil; [reflexivity |].
      intros i Hin. apply in_seq in Hin. unfold stats_at.
      destruct (nth_error (sort_trades trades) i) as [t |] eqn:Et.
      - specialize (Hnone i t Et).
        destruct (Nat.leb_spec 3
          (length (window_at (sort_trades trades) i (timestamp t))));
          [lia | reflexivity].
      - apply nth_error_None in Et. lia. }
    split; [exact Hdetect |].
    unfold analyzeMarket. destruct (_ <? 10)%nat; [reflexivity | exact Hdetect].
Qed.

Lemma sparse_market_no_events_witness :
  analyzeMarket (Scenario.a_market, Scenario.rising_tape) = Ok []
  /\ detectAnomalies Scenario.sparse_tape Scenario.a_market = Ok [].
Proof.
  split.
  - apply (proj1 (sparse_market_no_events Scenario.rising_tape
                    Scenario.a_market)).
    cbn. lia.
  - apply (proj2 (sparse_market_no_events Scenario.sparse_tape
                    Scenario.a_market)).
    intros i t Hi.
    do 10 (destruct i as [| i];
           [vm_compute in Hi; injection Hi as <-; vm_compute; lia |]).
    vm_compute in Hi. destruct i; discriminate.
Defined.

(** C10. [detectAnomalies] returns normally, and every event it returns has
    a non-empty list of kinds and a score of at least 5: every kind weighs
    at least 5, an unknown one exactly 5, and no other component of the sum
    is negative. *)
Theorem emitted_event_score_ge_5 (trades : list Trade) (market : Market) :
  (exists events, detectAnomalies trades market = Ok events)
  /\ (forall events e,
        detectAnomalies trades market = Ok events -> In e events ->
        ev_anomalies e <> [] /\ (5 <= ev_score e)%Z)
  /\ (forall k, (5 <= kind_weight k)%Z)
  /\ kind_weight unknown_kind = 5%Z
  /\ (forall p,
        (0 <= multi_bonus (length (anomalies p))
         /\ 0 <= volume_bonus (volumeRatio p)
         /\ 0 <= size_bonus (tradeSizeRatio p)
         /\ 0 <= price_bonus (priceRangePct p)
         /\ 0 <= imbalance_bonus (imbalanceRatio p)
         /\ 0 <= liquidity_bonus (marketLiquidity p))%Z).
Proof.
  split; [apply detectAnomalies_total |].
  split; [| split; [apply kind_weight_ge_5 | split; [reflexivity |]]].
  - intros events e Hrun Hin. unfold detectAnomalies in Hrun.
    destruct (all_stats (sort_trades trades)) as [allStats |];
      [| discriminate].
    cbn [bind] in Hrun.
    destruct (length allStats =? 0)%nat.
    { injection Hrun as <-. contradiction. }
    match type of Hrun with
    | context [for_push ?body ?xs] =>
        destruct (for_push body xs) as [raw |] eqn:Eraw; [| discriminate]
    end.
    cbn [bind] in Hrun. injection Hrun as <-.
    apply dedupe_In in Hin.
    destruct (@for_push_In _ _ _ _ _ _ Eraw Hin) as (i & out & _ & Hout & He).
    destruct (@detect_at_event _ _ _ _ _ _ _ Hout He)
      as (t & _ & _ & _ & _ & _ & Hne & _ & _ & Hscore).
    split; [exact Hne |].
    rewrite Hscore. apply score_ge_5. exact Hne.
  - intro p.
    pose proof (multi_bonus_range (length (anomalies p))).
    pose proof (volume_bonus_range (volumeRatio p)).
    pose proof (size_bonus_range (tradeSizeRatio p)).
    pose proof (price_bonus_range (priceRangePct p)).
    pose proof (imbalance_bonus_range (imbalanceRatio p)).
    pose proof (liquidity_bonus_range (marketLiquidity p)).
    lia.
Qed.

Lemma emitted_event_score_ge_5_witness :
  match detectAnomalies Scenario.all_buy_tape Scenario.a_market with
  | Ok (e :: _) => ev_anomalies e <> [] /\ (5 <= ev_score e)%Z
  | _ => False
  end.
Proof.
  destruct (detectAnomalies Scenario.all_buy_tape Scenario.a_market)
    as [[| e rest] |] eqn:E.
  - vm_compute in E. discriminate.
  - apply (proj1 (proj2 (emitted_event_score_ge_5 Scenario.all_buy_tape
                           Scenario.a_market)) _ e E).
    left. reflexivity.
  - vm_compute in E. discriminate.
Defined.

(** * Further properties of the engine *)

(** ** The trade sort and the trailing window *)

Lemma StronglySorted_impl {A : Type} (R R' : A -> A -> Prop) (l : list A) :
  (forall a b, R a b -> R' a b) -> StronglySorted R l -> StronglySorted R' l.
Proof.
  intros Himpl H. induction H as [| x l Hs IH Hall]; constructor; [exact IH |].
  eapply Forall_impl; [| exact Hall]. intros b. apply Himpl.
Qed.

Lemma sort_trades_ascending (trades : list Trade) :
  StronglySorted (fun a b => (timestamp a <= timestamp b)%Z)
                 (sort_trades trades).
Proof.
  unfold sort_trades.
  eapply StronglySorted_impl; [| apply js_sort_sorted].
  - cbn beta. intros a b H. apply Z.leb_le in H. lia.
  - intros a b.
    destruct (Z.leb_spec (timestamp a - timestamp b) 0);
      destruct (Z.leb_spec (timestamp b - timestamp a) 0); auto; lia.
  - intros a b c Hab Hbc. apply Z.leb_le in Hab, Hbc. apply Z.leb_le. lia.
Qed.

(** Inserting a trade leaves the trades of any one timestamp in their
    order, the new trade first among its equals. *)
Lemma insert_same_timestamp (x : Trade) (l : list Trade) (k : Z) :
  filter (fun t => (timestamp t =? k)%Z)
         (insert (fun a b => (timestamp a - timestamp b <=? 0)%Z) x l)
  = if (timestamp x =? k)%Z
    then x :: filter (fun t => (timestamp t =? k)%Z) l
    else filter (fun t => (timestamp t =? k)%Z) l.
Proof.
  induction l as [| y ys IH]; cbn [insert filter].
  - reflexivity.
  - destruct (Z.leb_spec (timestamp x - timestamp y) 0) as [Hle | Hgt].
    + cbn [filter]. reflexivity.
    + cbn [filter]. rewrite IH.
      destruct (Z.eqb_spec (timestamp x) k), (Z.eqb_spec (timestamp y) k);
        try reflexivity; lia.
Qed.

(** X1. Sorting the trades rearranges them in ascending timestamp order and
    keeps trades of equal timestamp in the order they arrived in. *)
Theorem sort_trades_stable (trades : list Trade) :
  Permutation (sort_trades trades) trades
  /\ StronglySorted (fun a b => (timestamp a <= timestamp b)%Z)
                    (sort_trades trades)
  /\ (forall k,
        filter (fun t => (timestamp t =? k)%Z) (sort_trades trades)
        = filter (fun t => (timestamp t =? k)%Z) trades).
Proof.
  split; [apply js_sort_perm |]. split; [apply sort_trades_ascending |].
  intro k. unfold sort_trades.
  induction trades as [| x rest IH]; cbn [js_sort fold_right filter].
  - reflexivity.
  - fold (js_sort (fun a b => (timestamp a - timestamp b <=? 0)%Z) rest).
    rewrite insert_same_timestamp, IH. reflexivity.
Qed.

Lemma In_firstn {A : Type} (n : nat) (l : list A) (x : A) :
  In x (firstn n l) -> In x l.
Proof.
  revert l. induction n as [| n IH]; intros [| a l] H; cbn [firstn] in H;
    try contradiction.
  destruct H as [-> | H]; [now left | right; now apply IH].
Qed.

Lemma firstn_ascending {A : Type} (R : A -> A -> Prop) (n : nat) (l : list A) :
  StronglySorted R l -> StronglySorted R (firstn n l).
Proof.
  intro Hs. revert n. induction Hs as [| a l Hs IH Hall]; intros [| n];
    cbn [firstn]; try constructor.
  - apply IH.
  - rewrite Forall_forall in Hall |- *. intros y Hy.
    apply Hall. eapply In_firstn. exact Hy.
Qed.

Lemma firstn_ascending_bound (trades : list Trade) (i : nat) (t : Trade) :
  StronglySorted (fun a b => (timestamp a <= timestamp b)%Z) trades ->
  nth_error trades i = Some t ->
  Forall (fun x => (timestamp x <= timestamp t)%Z) (firstn (i + 1) trades).
Proof.
  intros Hs Hi. apply Forall_forall. intros x Hx.
  apply In_nth_error in Hx as [j Hj].
  rewrite nth_error_firstn in Hj.
  destruct (Nat.ltb_spec j (i + 1)); [| discriminate].
  destruct (Nat.eq_dec j i) as [-> | Hne].
  - rewrite Hi in Hj. injection Hj as <-. lia.
  - apply (StronglySorted_nth_error Hs (i := j) (j := i)); [lia | | ]; assumption.
Qed.

(** In an ascending list bounded by [T], the elements from a lower bound on
    form a suffix. *)
Lemma ascending_filter_suffix (l : list Trade) (lo T : Z) :
  StronglySorted (fun a b => (timestamp a <= timestamp b)%Z) l ->
  Forall (fun x => (timestamp x <= T)%Z) l ->
  exists k,
    filter (fun t => (lo <=? timestamp t)%Z && (timestamp t <=? T)%Z) l
    = skipn k l.
Proof.
  induction 1 as [| a l Hs IH Hall]; intro Hb.
  - exists 0%nat. reflexivity.
  - inversion Hb as [| ? ? Ha Hl]; subst.
    destruct (Z.leb_spec lo (timestamp a)) as [Hlo | Hlo].
    + exists 0%nat. cbn [skipn].
      assert (Hid : forall l0 : list Trade,
                 Forall (fun x => (lo <= timestamp x <= T)%Z) l0 ->
                 filter (fun t => (lo <=? timestamp t)%Z
                                  && (timestamp t <=? T)%Z) l0 = l0).
      { induction l0 as [| y l0 IH0]; intro Hf; cbn [filter]; [reflexivity |].
        inversion Hf as [| ? ? Hy Hl0]; subst.
        destruct (Z.leb_spec lo (timestamp y)); [| lia].
        destruct (Z.leb_spec (timestamp y) T); [| lia].
        cbn [andb]. f_equal. now apply IH0. }
      apply Hid. constructor; [lia |].
      rewrite Forall_forall in Hall, Hl |- *.
      intros y Hy. specialize (Hall y Hy). specialize (Hl y Hy). lia.
    + destruct (IH Hl) as [k Hk]. exists (S k).
      cbn [filter skipn].
      destruct (Z.leb_spec lo (timestamp a)); [lia |]. cbn [andb]. exact Hk.
Qed.

(** X2. The window that ends at index [i] always holds the trade at [i]
    itself, holds only trades of index at most [i] stamped within the 300
    seconds up to and including that trade's timestamp, and so has between
    1 and [i + 1] trades; on sorted trades it is a run of consecutive trades
    ending at [i]. *)
Theorem window_at_spec (trades : list Trade) (i : nat) (t : Trade)
  (Hi : nth_error trades i = Some t) :
  let window := window_at trades i (timestamp t) in
  In t window
  /\ (forall x, In x window ->
        (timestamp t - 300 <= timestamp x <= timestamp t)%Z
        /\ exists j, (j <= i)%nat /\ nth_error trades j = Some x)
  /\ (1 <= length window <= i + 1)%nat
  /\ (StronglySorted (fun a b => (timestamp a <= timestamp b)%Z) trades ->
      exists k, window = skipn k (firstn (i + 1) trades)).
Proof.
  cbn zeta. unfold window_at, windowSec.
  assert (Hin : In t (filter
             (fun x => (timestamp t - 300 <=? timestamp x)%Z
                       && (timestamp x <=? timestamp t)%Z)
             (firstn (i + 1) trades))).
  { apply filter_In. split.
    - apply nth_error_In with (n := i). rewrite nth_error_firstn.
      destruct (Nat.ltb_spec i (i + 1)); [exact Hi | lia].
    - apply andb_true_iff. split; apply Z.leb_le; lia. }
  split; [exact Hin |]. split; [| split].
  - intros x Hx. apply filter_In in Hx as [Hx Hp].
    apply andb_true_iff in Hp as [Hlo Hhi].
    apply Z.leb_le in Hlo, Hhi. split; [lia |].
    apply In_nth_error in Hx as [j Hj]. rewrite nth_error_firstn in Hj.
    destruct (Nat.ltb_spec j (i + 1)); [| discriminate].
    exists j. split; [lia | exact Hj].
  - split.
    + destruct (filter _ _); [contradiction | cbn; lia].
    + eapply Nat.le_trans; [apply filter_length_le |].
      rewrite length_firstn. lia.
  - intro Hs. apply ascending_filter_suffix.
    + now apply firstn_ascending.
    + now apply firstn_ascending_bound.
Qed.

Lemma window_at_spec_witness :
  In (Scenario.buy 1700000040 100)
     (window_at Scenario.all_buy_tape 4 1700000040).
Proof.
  exact (proj1 (@window_at_spec Scenario.all_buy_tape 4
                  (Scenario.buy 1700000040 100) eq_refl)).
Defined.

(** ** The output of [detectAnomalies] *)

Lemma detectAnomalies_dedupe (trades : list Trade) (market : Market) :
  detectAnomalies trades market
  = (events <- flagged_events trades market ;; Ok (dedupe events)).
Proof.
  unfold detectAnomalies, flagged_events.
  destruct (all_stats (sort_trades trades)) as [allStats |]; cbn [bind];
    [| reflexivity].
  destruct (length allStats =? 0)%nat; reflexivity.
Qed.

Lemma detect_at_out (trades : list Trade) (market : Market)
  (medianVolume medianTradeSize : Qc) (i : nat) (out : list Event) :
  detect_at trades market medianVolume medianTradeSize i = Ok out ->
  out = []
  \/ exists e t, out = [e] /\ nth_error trades i = Some t
                 /\ ev_timestamp e = timestamp t.
Proof.
  intro Hrun. destruct out as [| e rest]; [now left | right].
  destruct (@detect_at_event _ _ _ _ _ _ e Hrun (or_introl eq_refl))
    as (t & Ht & _ & Hout & Hts & _).
  exists e, t. auto.
Qed.

(** Over ascending trades, a run of the detection loop over increasing
    indices pushes events in ascending timestamp order, each stamped like
    the trade of its index. *)
Lemma detect_loop_ascending (trades : list Trade) (market : Market)
  (medianVolume medianTradeSize : Qc) (idxs : list nat) (raw : list Event) :
  StronglySorted (fun a b => (timestamp a <= timestamp b)%Z) trades ->
  StronglySorted lt idxs ->
  for_push (detect_at trades market medianVolume medianTradeSize) idxs
  = Ok raw ->
  StronglySorted (fun a b => (ev_timestamp a <= ev_timestamp b)%Z) raw
  /\ Forall (fun e => exists i t, In i idxs /\ nth_error trades i = Some t
                                  /\ ev_timestamp e = timestamp t) raw
  /\ (length raw <= length idxs)%nat.
Proof.
  intros Hs Hidx. revert raw.
  induction Hidx as [| i rest Hrest IH Hlt]; intros raw Hrun;
    cbn [for_push] in Hrun.
  - injection Hrun as <-. repeat split; constructor.
  - destruct (detect_at trades market medianVolume medianTradeSize i)
      as [out |] eqn:Eout; [| discriminate].
    cbn [bind] in Hrun.
    destruct (for_push _ rest) as [more |]; [| discriminate].
    cbn [bind] in Hrun. injection Hrun as <-.
    destruct (IH more eq_refl) as (Hsorted & Hfrom & Hlen).
    assert (Hfrom' : Forall (fun e => exists j t,
                        In j (i :: rest) /\ nth_error trades j = Some t
                        /\ ev_timestamp e = timestamp t) more).
    { eapply Forall_impl; [| exact Hfrom].
      intros e (j & t & Hj & Ht & He). exists j, t. auto with datatypes. }
    destruct (detect_at_out _ _ _ _ _ Eout)
      as [-> | (e & t & -> & Ht & Hts)]; cbn [app length].
    + repeat split; [assumption | assumption | lia].
    + repeat split.
      * constructor; [exact Hsorted |].
        rewrite Forall_forall in Hfrom, Hlt |- *.
        intros e' He'. destruct (Hfrom e' He') as (j & t' & Hj & Ht' & Hts').
        rewrite Hts, Hts'.
        exact (StronglySorted_nth_error Hs (Hlt j Hj) Ht Ht').
      * constructor; [| exact Hfrom'].
        exists i, t. auto with datatypes.
      * lia.
Qed.

Lemma seq_increasing (a n : nat) : StronglySorted lt (seq a n).
Proof.
  revert a. induction n as [| n IH]; intro a; cbn [seq]; constructor.
  - apply IH.
  - apply Forall_forall. intros j Hj. apply in_seq in Hj. lia.
Qed.

Lemma flagged_events_ascending (trades : list Trade) (market : Market)
  (raw : list Event) :
  flagged_events trades market = Ok raw ->
  StronglySorted (fun a b => (ev_timestamp a <= ev_timestamp b)%Z) raw
  /\ Forall (fun e => exists t, In t trades
                                /\ ev_timestamp e = timestamp t) raw
  /\ (length raw <= length trades)%nat.
Proof.
  unfold flagged_events. intro Hrun.
  destruct (all_stats (sort_trades trades)) as [allStats |];
    [| discriminate].
  cbn [bind] in Hrun. destruct (length allStats =? 0)%nat.
  { injection Hrun as <-. repeat split; try constructor. cbn. lia. }
  destruct (detect_loop_ascending _ _ _ (sort_trades_ascending trades)
              (seq_increasing 0 _) Hrun) as (Hsorted & Hfrom & Hlen).
  split; [exact Hsorted |]. split.
  - eapply Forall_impl; [| exact Hfrom].
    intros e (i & t & _ & Ht & He). exists t. split; [| exact He].
    eapply Permutation_in; [apply js_sort_perm |].
    eapply nth_error_In. exact Ht.
  - rewrite length_seq in Hlen.
    unfold sort_trades in Hlen. now rewrite js_sort_length in Hlen.
Qed.

Lemma keep_after_length (events : list Event) (lastKept : Z) :
  (length (Spec.keep_after lastKept events) <= length events)%nat.
Proof.
  revert lastKept. induction events as [| e rest IH]; intro lastKept;
    cbn [Spec.keep_after length]; [lia |].
  destruct (_ <=? _)%Z; cbn [length];
    [specialize (IH (ev_timestamp e)) | specialize (IH lastKept)]; lia.
Qed.

(** X3. The events returned for a market are spaced at least 5 seconds
    apart in ascending order, each carries the timestamp of one of the
    market's trades, none is stamped before second 5, and there are at most
    as many as there are trades. *)
Theorem detectAnomalies_output (trades : list Trade) (market : Market)
  (events : list Event)
  (Hrun : detectAnomalies trades market = Ok events) :
  StronglySorted Spec.gap events
  /\ (forall e, In e events ->
        (5 <= ev_timestamp e)%Z
        /\ exists t, In t trades /\ ev_timestamp e = timestamp t)
  /\ (length events <= length trades)%nat.
Proof.
  rewrite detectAnomalies_dedupe in Hrun.
  destruct (flagged_events trades market) as [raw |] eqn:Eraw;
    [| discriminate].
  cbn [bind] in Hrun. injection Hrun as <-.
  destruct (flagged_events_ascending _ _ Eraw) as (_ & Hfrom & Hlen).
  destruct (keep_after_gaps raw 0) as [Hall Hgap].
  rewrite <- dedupe_keep_after in Hall, Hgap.
  split; [exact Hgap |]. split.
  - intros e He. split.
    + rewrite Forall_forall in Hall. specialize (Hall e He). cbn in Hall. lia.
    + rewrite Forall_forall in Hfrom. apply Hfrom. now apply dedupe_In.
  - rewrite dedupe_keep_after.
    eapply Nat.le_trans; [apply keep_after_length | exact Hlen].
Qed.

Lemma detectAnomalies_output_witness :
  match detectAnomalies Scenario.all_buy_tape Scenario.a_market with
  | Ok events => (length events <= 5)%nat
  | Throw => False
  end.
Proof.
  destruct (detectAnomalies Scenario.all_buy_tape Scenario.a_market)
    as [events |] eqn:E.
  - exact (proj2 (proj2 (detectAnomalies_output _ _ E))).
  - vm_compute in E. discriminate.
Defined.

Lemma keep_after_covers (events : list Event) (lastKept : Z) :
  StronglySorted (fun a b => (ev_timestamp a <= ev_timestamp b)%Z) events ->
  forall e, In e events ->
    (ev_timestamp e < lastKept + 5)%Z
    \/ exists k, In k (Spec.keep_after lastKept events)
                 /\ (ev_timestamp k <= ev_timestamp e < ev_timestamp k + 5)%Z.
Proof.
  intro Hs. revert lastKept.
  induction Hs as [| x rest Hs IH Hall]; intros lastKept e He;
    [contradiction |].
  cbn [Spec.keep_after].
  destruct (Z.leb_spec (lastKept + 5) (ev_timestamp x)) as [Hkeep | Hdrop].
  - right. destruct He as [<- | He].
    + exists x. split; [now left | lia].
    + destruct (IH (ev_timestamp x) e He) as [Hnear | (k & Hk & Hin)].
      * exists x. split; [now left |].
        rewrite Forall_forall in Hall. specialize (Hall e He). cbn in Hall.
        lia.
      * exists k. split; [now right | exact Hin].
  - destruct He as [<- | He]; [now left |]. now apply IH.
Qed.

(** X4. Every flagged trade is accounted for: the flagged events of a
    market come in ascending timestamp order, and each one stamped at second
    5 or later is either returned or falls less than 5 seconds after a
    returned event. *)
Theorem flagged_events_represented (trades : list Trade) (market : Market)
  (raw : list Event)
  (Hraw : flagged_events trades market = Ok raw) :
  detectAnomalies trades market = Ok (dedupe raw)
  /\ StronglySorted (fun a b => (ev_timestamp a <= ev_timestamp b)%Z) raw
  /\ (forall e, In e raw -> (5 <= ev_timestamp e)%Z ->
        exists k, In k (dedupe raw)
                  /\ (ev_timestamp k <= ev_timestamp e
                      < ev_timestamp k + 5)%Z)
  /\ (forall k, In k (dedupe raw) -> In k raw).
Proof.
  destruct (flagged_events_ascending _ _ Hraw) as (Hasc & _ & _).
  split; [| split; [exact Hasc | split]].
  - rewrite detectAnomalies_dedupe, Hraw. reflexivity.
  - intros e He Hts. rewrite dedupe_keep_after.
    destruct (keep_after_covers 0 Hasc e He) as [Hlt | Hk];
      [lia | exact Hk].
  - intro k. apply dedupe_In.
Qed.

Lemma flagged_events_represented_witness :
  match flagged_events Scenario.all_buy_tape Scenario.a_market with
  | Ok raw =>
      detectAnomalies Scenario.all_buy_tape Scenario.a_market
      = Ok (dedupe raw)
  | Throw => False
  end.
Proof.
  destruct (flagged_events Scenario.all_buy_tape Scenario.a_market)
    as [raw |] eqn:E.
  - exact (proj1 (flagged_events_represented _ _ E)).
  - vm_compute in E. discriminate.
Defined.

(** ** Independence of the arrival order *)

Lemma NoDup_map_inj {A B : Type} (f : A -> B) (l : list A) (x y : A) :
  NoDup (map f l) -> In x l -> In y l -> f x = f y -> x = y.
Proof.
  induction l as [| a l IH]; intros Hnd Hx Hy Hf; [contradiction |].
  cbn [map] in Hnd. inversion Hnd as [| ? ? Hnotin Hnd']; subst.
  destruct Hx as [-> | Hx], Hy as [-> | Hy]; auto.
  - exfalso. apply Hnotin. rewrite Hf. now apply in_map.
  - exfalso. apply Hnotin. rewrite <- Hf. now apply in_map.
Qed.

(** Trades of pairwise distinct timestamps have one ascending
    arrangement. *)
Lemma ascending_trades_unique (l1 l2 : list Trade) :
  StronglySorted (fun a b => (timestamp a <= timestamp b)%Z) l1 ->
  StronglySorted (fun a b => (timestamp a <= timestamp b)%Z) l2 ->
  NoDup (map timestamp l1) ->
  Permutation l1 l2 -> l1 = l2.
Proof.
  intro H1. revert l2.
  induction H1 as [| a l1 Hs1 IH Ha]; intros l2 H2 Hnd Hperm.
  - now apply Permutation_nil in Hperm.
  - destruct H2 as [| b l2 Hs2 Hb].
    + apply Permutation_sym, Permutation_nil in Hperm. discriminate.
    + assert (Hin_a : In a (b :: l2))
        by (eapply Permutation_in; [exact Hperm | now left]).
      assert (Hin_b : In b (a :: l1))
        by (eapply Permutation_in;
            [apply Permutation_sym; exact Hperm | now left]).
      assert (Hab : a = b).
      { apply (NoDup_map_inj timestamp (a :: l1)); auto with datatypes.
        rewrite Forall_forall in Ha, Hb.
        destruct Hin_a as [-> | Hin_a]; [reflexivity |].
        destruct Hin_b as [-> | Hin_b]; [reflexivity |].
        specialize (Ha b Hin_b). specialize (Hb a Hin_a). cbn in Ha, Hb.
        lia. }
      subst b. f_equal. apply IH; [exact Hs2 | | ].
      * cbn [map] in Hnd. now inversion Hnd.
      * eapply Permutation_cons_inv; exact Hperm.
Qed.

(** X5. When no two trades of a market share a timestamp, the result of
    [detectAnomalies] does not depend on the order in which the trades
    arrive. *)
Theorem detectAnomalies_order_independent
  (trades trades' : list Trade) (market : Market)
  (Hdistinct : NoDup (map timestamp trades))
  (Hperm : Permutation trades trades') :
  sort_trades trades = sort_trades trades'
  /\ detectAnomalies trades market = detectAnomalies trades' market.
Proof.
  assert (Hsort : sort_trades trades = sort_trades trades').
  { apply ascending_trades_unique.
    - apply sort_trades_ascending.
    - apply sort_trades_ascending.
    - eapply Permutation_NoDup; [| exact Hdistinct].
      apply Permutation_map, Permutation_sym, js_sort_perm.
    - eapply Permutation_trans; [apply js_sort_perm |].
      eapply Permutation_trans; [exact Hperm |].
      apply Permutation_sym, js_sort_perm. }
  split; [exact Hsort |].
  unfold detectAnomalies. rewrite Hsort. reflexivity.
Qed.

Lemma detectAnomalies_order_independent_witness :
  detectAnomalies Scenario.all_buy_tape Scenario.a_market
  = detectAnomalies (rev Scenario.all_buy_tape) Scenario.a_market.
Proof.
  apply (proj2 (@detectAnomalies_order_independent
                  Scenario.all_buy_tape (rev Scenario.all_buy_tape)
                  Scenario.a_market
                  ltac:(cbn; repeat constructor; cbn; intuition discriminate)
                  (Permutation_rev _))).
Defined.

(** ** Invariants of the emitted events *)

(** Goals on canonical rationals, restated on plain rationals. *)
Ltac qc2q :=
  unfold Num.of_Z, Num.frac, Qcle, Qclt, Qcdiv, Qcminus, Qcplus, Qcmult,
    Qcopp, Qcinv, Q2Qc in *;
  cbn [this] in *; rewrite ?Qred_correct in *.

Lemma Qc_lt_div (a b c : Qc) :
  (0 < b)%Qc -> ((c < a / b)%Qc <-> (c * b < a)%Qc).
Proof.
  intros Hb.
  assert (Hne : b <> 0%Qc).
  { intro E. subst. exact (Qclt_not_eq _ _ Hb eq_refl). }
  split; intro H.
  - apply (Qcmult_lt_compat_r _ _ b Hb) in H. unfold Qcdiv in H.
    rewrite <- Qcmult_assoc, Qcmult_inv_l, Qcmult_1_r in H by assumption.
    exact H.
  - apply Qcnot_le_lt. intro Hle.
    apply (Qcmult_le_compat_r _ _ b) in Hle; [| now apply Qclt_le_weak].
    unfold Qcdiv in Hle.
    rewrite <- Qcmult_assoc, Qcmult_inv_l, Qcmult_1_r in Hle by assumption.
    exact (Qclt_not_le _ _ H Hle).
Qed.

Lemma Qc_div_nonneg (a b : Qc) : (0 <= a)%Qc -> (0 < b)%Qc -> (0 <= a / b)%Qc.
Proof.
  intros Ha Hb. apply Qcnot_lt_le. intro Hneg.
  assert (Hne : b <> 0%Qc).
  { intro E. subst. exact (Qclt_not_eq _ _ Hb eq_refl). }
  apply (Qcmult_lt_compat_r _ _ b Hb) in Hneg. unfold Qcdiv in Hneg.
  rewrite <- Qcmult_assoc, Qcmult_inv_l, Qcmult_1_r, Qcmult_0_l in Hneg
    by assumption.
  exact (Qclt_not_le _ _ Hneg Ha).
Qed.

(** Which check puts which kind on the list. *)
Lemma classify_In (medianVolume medianTradeSize : Qc) (m : Metrics) (k : Kind) :
  In k (classify medianVolume medianTradeSize m)
  <-> match k with
      | volume_spike =>
          Num.gtb medianVolume 0
          && Num.gtb (totalVol m) (medianVolume * Num.of_Z 5)%Qc = true
      | whale_trade =>
          Num.gtb medianTradeSize 0
          && Num.gtb (currentSize m) (medianTradeSize * Num.of_Z 20)%Qc = true
      | imbalance =>
          Num.gtb (totalVol m) (Num.of_Z 100)
          && Num.gtb (Qcabs (netVol m) / totalVol m)%Qc (Num.frac 85 100)
          = true
      | price_move =>
          Num.gtb (avgPrice m) 0
          && Num.gtb (priceRange m / avgPrice m)%Qc (Num.frac 1 10) = true
      | high_frequency => (10 <? tradeFreq m)%nat = true
      | unknown_kind => False
      end.
Proof.
  unfold classify. cbn zeta.
  destruct (Num.gtb medianVolume 0 && _);
    destruct (Num.gtb medianTradeSize 0 && _);
    destruct (Num.gtb (totalVol m) (Num.of_Z 100) && _);
    destruct (Num.gtb (avgPrice m) 0 && _);
    destruct (10 <? tradeFreq m)%nat;
    destruct k; cbn [app In];
    (split;
     [ intro H; repeat (destruct H as [H | H]; try discriminate H);
       try reflexivity; try contradiction
     | intro H; try discriminate H; try contradiction; auto 8 ]).
Qed.

(** The kinds come in the order of the checks, each at most once. *)
Lemma classify_ranked (medianVolume medianTradeSize : Qc) (m : Metrics) :
  StronglySorted (fun a b => (kind_rank a < kind_rank b)%nat)
                 (classify medianVolume medianTradeSize m).
Proof.
  unfold classify. cbn zeta.
  destruct (Num.gtb medianVolume 0 && _);
    destruct (Num.gtb medianTradeSize 0 && _);
    destruct (Num.gtb (totalVol m) (Num.of_Z 100) && _);
    destruct (Num.gtb (avgPrice m) 0 && _);
    destruct (10 <? tradeFreq m)%nat;
    cbn [app]; repeat constructor.
Qed.

(** The object pushed at index [i], field by field. *)
Lemma detect_at_fields (trades : list Trade) (market : Market)
  (medianVolume medianTradeSize : Qc) (i : nat) (t : Trade)
  (out : list Event) (e : Event) :
  nth_error trades i = Some t ->
  detect_at trades market medianVolume medianTradeSize i = Ok out ->
  In e out ->
  let window := window_at trades i (timestamp t) in
  let m := metrics_of window t in
  let kinds := classify medianVolume medianTradeSize m in
  let params := score_params medianVolume medianTradeSize market m kinds in
  (3 <= length window)%nat
  /\ exists pc,
       calculatePriceChange trades i (timestamp t) = Ok pc
       /\ e = {| ev_timestamp := timestamp t;
                 ev_market := question market;
                 ev_marketType := market_type market;
                 ev_conditionId := conditionId market;
                 ev_slug := slug market;
                 ev_anomalies := kinds;
                 ev_walletCount := walletCount m;
                 ev_totalVolume := totalVol m;
                 ev_netVolume := netVol m;
                 ev_volumeRatio := volumeRatio params;
                 ev_tradeSize := currentSize m;
                 ev_priceRangePct := priceRangePct params;
                 ev_isBuy := Num.gtb (netVol m) 0;
                 ev_tradeCount := length window;
                 ev_score := calculateAnomalyScore params;
                 ev_priceChange := pc |}.
Proof.
  intros Hi Hrun Hin. cbn zeta. unfold detect_at in Hrun. rewrite Hi in Hrun.
  destruct (Nat.ltb_spec (length (window_at trades i (timestamp t))) 3)
    as [| Hlen].
  { injection Hrun as <-. contradiction. }
  split; [exact Hlen |].
  destruct (0 <? _)%nat.
  2: { injection Hrun as <-. contradiction. }
  destruct (calculatePriceChange trades i (timestamp t)) as [pc |];
    [| discriminate].
  cbn [bind] in Hrun. injection Hrun as <-.
  destruct Hin as [<- | []]. exists pc. split; reflexivity.
Qed.

(** An event returned by [detectAnomalies] was pushed at some index of the
    sorted trades, under the medians of the market. *)
Lemma detectAnomalies_event (trades : list Trade) (market : Market)
  (events : list Event) (e : Event) :
  detectAnomalies trades market = Ok events -> In e events ->
  exists allStats i t,
    all_stats (sort_trades trades) = Ok allStats
    /\ nth_error (sort_trades trades) i = Some t
    /\ detect_at (sort_trades trades) market
         (median (map volume allStats))
         (median (map notional (sort_trades trades))) i = Ok [e].
Proof.
  intros Hrun Hin. unfold detectAnomalies in Hrun.
  destruct (all_stats (sort_trades trades)) as [allStats |];
    [| discriminate].
  cbn [bind] in Hrun. destruct (length allStats =? 0)%nat.
  { injection Hrun as <-. contradiction. }
  match type of Hrun with
  | context [for_push ?body ?xs] =>
      destruct (for_push body xs) as [raw |] eqn:Eraw; [| discriminate]
  end.
  cbn [bind] in Hrun. injection Hrun as <-.
  apply dedupe_In in Hin.
  destruct (@for_push_In _ _ _ _ _ _ Eraw Hin) as (i & out & _ & Hout & He).
  destruct (@detect_at_event _ _ _ _ _ _ _ Hout He)
    as (t & Ht & _ & -> & _).
  exists allStats, i, t. auto.
Qed.

Lemma nodup_length_le {A : Type} (dec : forall x y : A, {x = y} + {x <> y})
  (l : list A) : (length (nodup dec l) <= length l)%nat.
Proof.
  induction l as [| a l IH]; cbn [nodup length]; [lia |].
  destruct (in_dec dec a l); cbn [length]; lia.
Qed.

Lemma distinct_wallets_bounds (window : list Trade) :
  window <> [] ->
  (1 <= distinct_wallets window <= length window)%nat.
Proof.
  intro Hne. unfold distinct_wallets. split.
  - destruct window as [| t rest]; [congruence |].
    assert (Hin : In (proxyWallet t)
                     (nodup string_dec (map proxyWallet (t :: rest))))
      by (apply nodup_In; now left).
    destruct (nodup _ _); [contradiction | cbn; lia].
  - eapply Nat.le_trans; [apply nodup_length_le |]. now rewrite length_map.
Qed.

Lemma classify_nodup (medianVolume medianTradeSize : Qc) (m : Metrics) :
  NoDup (classify medianVolume medianTradeSize m)
  /\ (length (classify medianVolume medianTradeSize m) <= 5)%nat.
Proof.
  unfold classify. cbn zeta.
  destruct (Num.gtb medianVolume 0 && _);
    destruct (Num.gtb medianTradeSize 0 && _);
    destruct (Num.gtb (totalVol m) (Num.of_Z 100) && _);
    destruct (Num.gtb (avgPrice m) 0 && _);
    destruct (10 <? tradeFreq m)%nat;
    cbn [app length]; (split; [| lia]);
    repeat constructor; cbn [In]; intuition discriminate.
Qed.

(** X6. Every returned event copies the market's identifiers, reports a
    window of at least 3 trades with between 1 and that many distinct
    wallets, scores at most 100, lists its kinds in the order of the five
    checks, each at most once and none unknown, and is marked as a buy
    exactly when its net volume is positive. *)
Theorem event_invariants (trades : list Trade) (market : Market)
  (events : list Event) (e : Event)
  (Hrun : detectAnomalies trades market = Ok events)
  (Hin : In e events) :
  (ev_conditionId e = conditionId market /\ ev_slug e = slug market
   /\ ev_market e = question market /\ ev_marketType e = market_type market)
  /\ (3 <= ev_tradeCount e)%nat
  /\ (1 <= ev_walletCount e <= ev_tradeCount e)%nat
  /\ (ev_score e <= 100)%Z
  /\ StronglySorted (fun a b => (kind_rank a < kind_rank b)%nat)
                    (ev_anomalies e)
  /\ NoDup (ev_anomalies e)
  /\ (length (ev_anomalies e) <= 5)%nat
  /\ ~ In unknown_kind (ev_anomalies e)
  /\ (ev_isBuy e = true <-> (0 < ev_netVolume e)%Qc).
Proof.
  destruct (@detectAnomalies_event _ _ _ _ Hrun Hin)
    as (allStats & i & t & _ & Ht & Hdet).
  destruct (@detect_at_fields _ _ _ _ _ _ _ _ Ht Hdet (or_introl eq_refl))
    as (Hlen & pc & _ & ->).
  cbn [ev_conditionId ev_slug ev_market ev_marketType ev_tradeCount
       ev_walletCount ev_score ev_anomalies ev_isBuy ev_netVolume].
  split; [repeat split |]. split; [exact Hlen |]. split.
  { apply distinct_wallets_bounds.
    destruct (window_at _ _ _); [cbn in Hlen; lia | discriminate]. }
  split; [rewrite score_is_clamped_sum; lia |].
  split; [apply classify_ranked |].
  split; [apply classify_nodup |].
  split; [apply classify_nodup |].
  split; [rewrite classify_In; tauto |].
  apply gtb_true_iff.
Qed.

Lemma volume_spike_iff_ratio (medianVolume total : Qc) :
  Num.gtb medianVolume 0
  && Num.gtb total (medianVolume * Num.of_Z 5)%Qc = true
  <-> (Num.of_Z 5 < (if Num.gtb medianVolume 0
                      then (total / medianVolume)%Qc else 0%Qc))%Qc.
Proof.
  destruct (Num.gtb medianVolume 0) eqn:E; cbn [andb].
  - apply gtb_true_iff in E. rewrite gtb_true_iff, (@Qc_lt_div _ _ _ E).
    now rewrite Qcmult_comm.
  - split; [discriminate |]. intro H. apply gtb_true_iff in H.
    vm_compute in H. discriminate.
Qed.

Lemma tenth_iff_percent (x : Qc) :
  (Num.frac 1 10 < x)%Qc <-> (Num.of_Z 10 < x * Num.of_Z 100)%Qc.
Proof. qc2q. unfold inject_Z. split; intro; lra. Qed.

Lemma price_move_iff_percent (avg range : Qc) :
  Num.gtb avg 0 && Num.gtb (range / avg)%Qc (Num.frac 1 10) = true
  <-> (Num.of_Z 10 < (if Num.gtb avg 0
                       then (range / avg * Num.of_Z 100)%Qc else 0%Qc))%Qc.
Proof.
  destruct (Num.gtb avg 0) eqn:E; cbn [andb].
  - rewrite gtb_true_iff. apply tenth_iff_percent.
  - split; [discriminate |]. intro H. apply gtb_true_iff in H.
    vm_compute in H. discriminate.
Qed.

Lemma volume_spike_ratio (medianVolume total : Qc) :
  Num.gtb medianVolume 0
  && Num.gtb total (medianVolume * Num.of_Z 5)%Qc = true ->
  (0 < total)%Qc
  /\ (Num.of_Z 5 <= (if Num.gtb medianVolume 0
                      then (total / medianVolume)%Qc else 0%Qc))%Qc.
Proof.
  intro H. split.
  - apply andb_true_iff in H. destruct H as [H0 H1].
    apply gtb_true_iff in H0, H1. qc2q. unfold inject_Z in *. lra.
  - apply Qclt_le_weak. apply volume_spike_iff_ratio. exact H.
Qed.

Lemma whale_positive_size (medianTradeSize current : Qc) :
  Num.gtb medianTradeSize 0
  && Num.gtb current (medianTradeSize * Num.of_Z 20)%Qc = true ->
  (0 < current)%Qc.
Proof.
  intro H. apply andb_true_iff in H. destruct H as [H0 H1].
  apply gtb_true_iff in H0, H1. qc2q. unfold inject_Z in *. lra.
Qed.

(** X7. The tags of a returned event are consistent with the figures it
    displays. An event tagged [volume_spike] has a positive total volume
    and a volume ratio of at least 5 (the check compares the volume with
    five times the median and the figure is their quotient, so that in
    binary64 the tag can sit on a ratio of exactly 5); one tagged
    [whale_trade] has a positive trade size; one tagged [imbalance] has
    a total volume above 100. It is tagged [price_move] exactly when its
    price range exceeds 10 percent (0 when the average price is 0), and
    [high_frequency] exactly when its window holds more than 10 trades. *)
Theorem tags_match_figures (trades : list Trade) (market : Market)
  (events : list Event) (e : Event)
  (Hrun : detectAnomalies trades market = Ok events)
  (Hin : In e events) :
  (In volume_spike (ev_anomalies e) ->
   (0 < ev_totalVolume e)%Qc /\ (Num.of_Z 5 <= ev_volumeRatio e)%Qc)
  /\ (In whale_trade (ev_anomalies e) -> (0 < ev_tradeSize e)%Qc)
  /\ (In imbalance (ev_anomalies e) -> (Num.of_Z 100 < ev_totalVolume e)%Qc)
  /\ (In price_move (ev_anomalies e)
      <-> (Num.of_Z 10 < ev_priceRangePct e)%Qc)
  /\ (In high_frequency (ev_anomalies e) <-> (10 < ev_tradeCount e)%nat).
Proof.
  destruct (@detectAnomalies_event _ _ _ _ Hrun Hin)
    as (allStats & i & t & _ & Ht & Hdet).
  destruct (@detect_at_fields _ _ _ _ _ _ _ _ Ht Hdet (or_introl eq_refl))
    as (Hlen & pc & _ & ->).
  cbn [ev_anomalies ev_volumeRatio ev_priceRangePct ev_tradeCount
       ev_totalVolume ev_tradeSize score_params volumeRatio priceRangePct].
  rewrite !classify_In. split; [| split; [| split; [| split]]].
  - apply volume_spike_ratio.
  - apply whale_positive_size.
  - intro H. apply andb_true_iff in H. apply gtb_true_iff. exact (proj1 H).
  - apply price_move_iff_percent.
  - unfold metrics_of; cbn [tradeFreq]. apply Nat.ltb_lt.
Qed.

Lemma event_invariants_witness :
  match detectAnomalies Scenario.all_buy_tape Scenario.a_market with
  | Ok (e :: _) => (1 <= ev_walletCount e <= ev_tradeCount e)%nat
  | _ => False
  end.
Proof.
  destruct (detectAnomalies Scenario.all_buy_tape Scenario.a_market)
    as [[| e rest] |] eqn:E.
  - vm_compute in E. discriminate.
  - exact (proj1 (proj2 (proj2
             (@event_invariants _ _ _ e E (or_introl eq_refl))))).
  - vm_compute in E. discriminate.
Defined.

Lemma tags_match_figures_witness :
  match detectAnomalies Scenario.all_buy_tape Scenario.a_market with
  | Ok (e :: _) =>
      (In imbalance (ev_anomalies e) -> (Num.of_Z 100 < ev_totalVolume e)%Qc)
      /\ (In high_frequency (ev_anomalies e)
          <-> (10 < ev_tradeCount e)%nat)
  | _ => False
  end.
Proof.
  destruct (detectAnomalies Scenario.all_buy_tape Scenario.a_market)
    as [[| e rest] |] eqn:E.
  - vm_compute in E. discriminate.
  - pose proof (@tags_match_figures _ _ _ e E (or_introl eq_refl)) as H.
    exact (conj (proj1 (proj2 (proj2 H))) (proj2 (proj2 (proj2 (proj2 H))))).
  - vm_compute in E. discriminate.
Defined.

(** Three bursts of three BUY trades priced 0.31, the last with five times
    the shares of the first two: the program computes a window volume of
    111.60000000000001 against five times the median, 111.6, tags the
    event [volume_spike], and reports a volume ratio of exactly 5. *)
Remark volume_spike_at_ratio_5 :
  exists e,
    Double.detectAnomalies Scenario.spike_tape Scenario.a_market_f64
    = Ok [e]
    /\ Double.ev_anomalies e = [volume_spike; imbalance]
    /\ Double.ev_totalVolume e = 111.60000000000001%float
    /\ Double.ev_volumeRatio e = 5%float
    /\ Double.ev_score e = 45%Z.
Proof.
  eexists. split; [vm_compute; reflexivity |]. repeat split.
Qed.

(** ** Volumes of well-formed trades *)

Lemma or_default_nonneg (x : option Qc) :
  (forall v, x = Some v -> (0 <= v)%Qc) -> (0 <= Num.or_default x 0)%Qc.
Proof.
  intro H. unfold Num.or_default. destruct x as [v |]; [| apply Qcle_refl].
  destruct (Qc_eq_bool v 0); [apply Qcle_refl | now apply H].
Qed.

Lemma Qc_mult_nonneg (a b : Qc) : (0 <= a)%Qc -> (0 <= b)%Qc -> (0 <= a * b)%Qc.
Proof.
  intros Ha Hb. rewrite <- (Qcmult_0_l b). now apply Qcmult_le_compat_r.
Qed.

Lemma Qc_plus_nonneg (a b : Qc) : (0 <= a)%Qc -> (0 <= b)%Qc -> (0 <= a + b)%Qc.
Proof.
  intros Ha Hb. rewrite <- (Qcplus_0_l 0). now apply Qcplus_le_compat.
Qed.

Lemma fold_sum_nonneg {A : Type} (f : A -> Qc) (l : list A) (a : Qc) :
  (0 <= a)%Qc -> (forall x, In x l -> (0 <= f x)%Qc) ->
  (0 <= fold_left (fun sum x => (sum + f x)%Qc) l a)%Qc.
Proof.
  revert a. induction l as [| x l IH]; intros a Ha H; cbn [fold_left];
    [exact Ha |].
  apply IH.
  - apply Qc_plus_nonneg; [exact Ha | apply H; now left].
  - intros y Hy. apply H. now right.
Qed.

Lemma sum_by_nonneg {A : Type} (f : A -> Qc) (l : list A) :
  (forall x, In x l -> (0 <= f x)%Qc) -> (0 <= sum_by f l)%Qc.
Proof. intro H. apply fold_sum_nonneg; [apply Qcle_refl | exact H]. Qed.

Lemma abs_diff_le_sum (a b : Qc) :
  (0 <= a)%Qc -> (0 <= b)%Qc -> (Qcabs (a - b) <= a + b)%Qc.
Proof.
  intros Ha Hb. apply Qcabs_Qcle_condition. qc2q. lra.
Qed.

(** X8. When every size and price of a market's trades is non-negative, a
    returned event has a non-negative total volume, a net volume no larger
    in absolute value than the total, and non-negative volume ratio and
    trade size. *)
Theorem volumes_nonnegative (trades : list Trade) (market : Market)
  (events : list Event) (e : Event)
  (Hpos : forall t, In t trades ->
            (forall s, size t = Some s -> (0 <= s)%Qc)
            /\ (forall p, price t = Some p -> (0 <= p)%Qc))
  (Hrun : detectAnomalies trades market = Ok events)
  (Hin : In e events) :
  (0 <= ev_totalVolume e)%Qc
  /\ (Qcabs (ev_netVolume e) <= ev_totalVolume e)%Qc
  /\ (0 <= ev_volumeRatio e)%Qc
  /\ (0 <= ev_tradeSize e)%Qc.
Proof.
  assert (Hnot : forall t, In t (sort_trades trades) -> (0 <= notional t)%Qc).
  { intros t Ht.
    assert (Ht' : In t trades)
      by (eapply Permutation_in; [apply js_sort_perm | exact Ht]).
    destruct (Hpos t Ht') as [Hs Hp].
    unfold notional. apply Qc_mult_nonneg; now apply or_default_nonneg. }
  destruct (@detectAnomalies_event _ _ _ _ Hrun Hin)
    as (allStats & i & t & _ & Ht & Hdet).
  destruct (@detect_at_fields _ _ _ _ _ _ _ _ Ht Hdet (or_introl eq_refl))
    as (Hlen & pc & _ & ->).
  cbn [ev_totalVolume ev_netVolume ev_volumeRatio ev_tradeSize
       score_params volumeRatio].
  unfold metrics_of; cbn [totalVol netVol currentSize].
  set (window := window_at (sort_trades trades) i (timestamp t)).
  assert (Hside : forall s,
             (0 <= sum_by notional
                     (filter (fun x => Side_eqb (side x) s) window))%Qc).
  { intro s. apply sum_by_nonneg. intros x Hx.
    apply filter_In in Hx as [Hx _].
    apply Hnot. unfold window, window_at in Hx.
    apply filter_In in Hx as [Hx _]. eapply In_firstn. exact Hx. }
  pose proof (Hside BUY) as Hbuy. pose proof (Hside SELL) as Hsell.
  assert (Htotal : (0 <= sum_by notional
                          (filter (fun x => Side_eqb (side x) BUY) window)
                        + sum_by notional
                            (filter (fun x => Side_eqb (side x) SELL) window)
                   )%Qc) by now apply Qc_plus_nonneg.
  split; [exact Htotal |]. split; [now apply abs_diff_le_sum |]. split.
  - match goal with
    | |- context [if Num.gtb ?x ?z then _ else _] =>
        destruct (Num.gtb x z) eqn:E; [| apply Qcle_refl]
    end.
    apply gtb_true_iff in E. now apply Qc_div_nonneg.
  - apply Hnot. eapply nth_error_In. exact Ht.
Qed.

Lemma volumes_nonnegative_witness :
  match detectAnomalies Scenario.all_buy_tape Scenario.a_market with
  | Ok (e :: _) => (Qcabs (ev_netVolume e) <= ev_totalVolume e)%Qc
  | _ => False
  end.
Proof.
  assert (Hpos : forall t, In t Scenario.all_buy_tape ->
             (forall s, size t = Some s -> (0 <= s)%Qc)
             /\ (forall p, price t = Some p -> (0 <= p)%Qc)).
  { intros t Ht. cbn in Ht.
    repeat (destruct Ht as [<- | Ht]);
      try contradiction;
      (split; intros v Hv; injection Hv as <-;
       apply leb_true_iff; vm_compute; reflexivity). }
  destruct (detectAnomalies Scenario.all_buy_tape Scenario.a_market)
    as [[| e rest] |] eqn:E.
  - vm_compute in E. discriminate.
  - exact (proj1 (proj2
             (@volumes_nonnegative _ _ _ e Hpos E (or_introl eq_refl)))).
  - vm_compute in E. discriminate.
Defined.

(** ** The median as a middle value *)

Lemma filter_length_perm {A : Type} (p : A -> bool) (l l' : list A) :
  Permutation l l' -> length (filter p l) = length (filter p l').
Proof.
  induction 1 as [| x l l' _ IH | x y l | l l' l'' _ IH1 _ IH2];
    cbn [filter].
  - reflexivity.
  - destruct (p x); cbn [length]; now rewrite IH.
  - destruct (p x), (p y); reflexivity.
  - now rewrite IH1.
Qed.

Lemma filter_all_true {A : Type} (p : A -> bool) (l : list A) :
  (forall x, In x l -> p x = true) -> filter p l = l.
Proof.
  induction l as [| a l IH]; intro H; cbn [filter]; [reflexivity |].
  rewrite (H a (or_introl eq_refl)). f_equal. apply IH.
  intros x Hx. apply H. now right.
Qed.

Lemma count_prefix {A : Type} (p : A -> bool) (s : list A) (a : nat) :
  (a <= length s)%nat ->
  (forall x, In x (firstn a s) -> p x = true) ->
  (a <= length (filter p s))%nat.
Proof.
  intros Ha H. rewrite <- (firstn_skipn a s), filter_app, length_app.
  rewrite (filter_all_true p (firstn a s) H), length_firstn. lia.
Qed.

Lemma count_suffix {A : Type} (p : A -> bool) (s : list A) (k : nat) :
  (forall x, In x (skipn k s) -> p x = true) ->
  (length s - k <= length (filter p s))%nat.
Proof.
  intro H. rewrite <- (firstn_skipn k s) at 2.
  rewrite filter_app, length_app.
  rewrite (filter_all_true p (skipn k s) H), length_skipn. lia.
Qed.

Lemma sorted_nth_le (s : list Qc) (i j : nat) :
  StronglySorted Qcle s -> (i <= j < length s)%nat ->
  (nth i s 0 <= nth j s 0)%Qc.
Proof.
  intros Hs [Hij Hj]. destruct (Nat.eq_dec i j) as [-> | Hne].
  - apply Qcle_refl.
  - apply (StronglySorted_nth_error Hs (i := i) (j := j)); [lia | |];
      apply nth_error_nth'; lia.
Qed.

Lemma midpoint_between (a b : Qc) :
  (a <= b)%Qc ->
  (a <= (a + b) / Num.of_Z 2)%Qc /\ ((a + b) / Num.of_Z 2 <= b)%Qc.
Proof.
  intro H. qc2q. unfold inject_Z.
  change ((a + b) * / (2 # 1))%Q with ((a + b) / (2 # 1))%Q. split.
  - apply Qle_shift_div_l; lra.
  - apply Qle_shift_div_r; lra.
Qed.

(** The median of a non-empty sequence, between two neighbours of its
    ascending arrangement. *)
Lemma median_between (arr : list Qc) :
  arr <> [] ->
  let s := js_sort Num.leb arr in
  let k := (length arr / 2)%nat in
  exists lo,
    (lo <= k < length arr)%nat
    /\ (length arr <= 2 * (lo + 1))%nat
    /\ (nth lo s 0 <= median arr)%Qc /\ (median arr <= nth k s 0)%Qc.
Proof.
  intro Hne. cbn zeta.
  assert (Hs : StronglySorted Qcle (js_sort Num.leb arr))
    by apply num_sort_sorted.
  assert (Hlen : length (js_sort Num.leb arr) = length arr)
    by apply js_sort_length.
  assert (Hpos : (0 < length arr)%nat).
  { destruct arr; [congruence | cbn; lia]. }
  pose proof (Nat.div_mod_eq (length arr) 2) as Hdm.
  pose proof (Nat.mod_upper_bound (length arr) 2 ltac:(discriminate)) as Hm.
  unfold median. rewrite Hlen.
  destruct (Nat.eqb_spec (length arr) 0) as [| _]; [lia |].
  destruct (Nat.eqb_spec (length arr mod 2) 0) as [Heven | Hodd].
  - exists (length arr / 2 - 1)%nat.
    split; [lia |]. split; [lia |].
    apply midpoint_between. apply sorted_nth_le; [exact Hs | lia].
  - exists (length arr / 2)%nat.
    split; [lia |]. split; [lia |]. split; apply Qcle_refl.
Qed.

(** At least half of a non-empty sequence is at most its median. *)
Lemma median_lower_half (arr : list Qc) :
  arr <> [] ->
  (length arr
   <= 2 * length (filter (fun x => Num.leb x (median arr)) arr))%nat.
Proof.
  intro Hne.
  destruct (median_between Hne) as (lo & Hidx & Hhalf & Hlo & Hhi).
  set (s := js_sort Num.leb arr) in *.
  assert (Hs : StronglySorted Qcle s) by apply num_sort_sorted.
  assert (Hperm : Permutation s arr) by apply js_sort_perm.
  assert (Hlen : length s = length arr) by apply js_sort_length.
  rewrite <- (filter_length_perm _ Hperm).
  assert (H : (lo + 1 <= length (filter
                 (fun x => Num.leb x (median arr)) s))%nat).
  { apply count_prefix; [lia |]. intros x Hx.
    apply (In_nth _ _ 0%Qc) in Hx as (j & Hj & <-).
    rewrite length_firstn in Hj. rewrite nth_firstn.
    destruct (Nat.ltb_spec j (lo + 1)); [| lia].
    apply leb_true_iff. eapply Qcle_trans; [| exact Hlo].
    apply sorted_nth_le; [exact Hs | lia]. }
  lia.
Qed.

(** X9. The median of a non-empty sequence is a middle value: at least
    half of the elements are at most the median, at least half are at least
    the median, and the median lies within any bounds that hold for all the
    elements. *)
Theorem median_is_middle (arr : list Qc) (Hne : arr <> []) :
  (length arr
   <= 2 * length (filter (fun x => Num.leb x (median arr)) arr))%nat
  /\ (length arr
      <= 2 * length (filter (fun x => Num.leb (median arr) x) arr))%nat
  /\ (forall lo hi,
        (forall x, In x arr -> (lo <= x)%Qc /\ (x <= hi)%Qc) ->
        (lo <= median arr)%Qc /\ (median arr <= hi)%Qc).
Proof.
  destruct (median_between Hne) as (lo & Hidx & Hhalf & Hlo & Hhi).
  set (s := js_sort Num.leb arr) in *.
  assert (Hs : StronglySorted Qcle s) by apply num_sort_sorted.
  assert (Hperm : Permutation s arr) by apply js_sort_perm.
  assert (Hlen : length s = length arr) by apply js_sort_length.
  split; [| split].
  - now apply median_lower_half.
  - rewrite <- (filter_length_perm _ Hperm).
    assert (H : (length s - length arr / 2
                 <= length (filter (fun x => Num.leb (median arr) x) s))%nat).
    { apply count_suffix. intros x Hx.
      apply (In_nth _ _ 0%Qc) in Hx as (j & Hj & <-).
      rewrite length_skipn in Hj. rewrite nth_skipn.
      apply leb_true_iff. eapply Qcle_trans; [exact Hhi |].
      apply sorted_nth_le; [exact Hs | lia]. }
    pose proof (Nat.div_mod_eq (length arr) 2).
    pose proof (Nat.mod_upper_bound (length arr) 2 ltac:(discriminate)).
    lia.
  - intros lo' hi' Hb. split.
    + eapply Qcle_trans; [| exact Hlo].
      apply Hb. eapply Permutation_in; [exact Hperm |].
      apply nth_In. lia.
    + eapply Qcle_trans; [exact Hhi |].
      apply Hb. eapply Permutation_in; [exact Hperm |].
      apply nth_In. lia.
Qed.

Lemma median_is_middle_witness :
  (length Scenario.unsorted_numbers
   <= 2 * length (filter (fun x => Num.leb x (median Scenario.unsorted_numbers))
                         Scenario.unsorted_numbers))%nat.
Proof.
  apply (proj1 (@median_is_middle Scenario.unsorted_numbers
                  ltac:(discriminate))).
Defined.

(** ** The sign of the forward price change *)

Lemma percent_pos (x : Qc) : (0 < x)%Qc <-> (0 < x * Num.of_Z 100)%Qc.
Proof. qc2q. unfold inject_Z. split; intro; lra. Qed.

Lemma change_sign (P L : Qc) :
  (0 < P)%Qc ->
  let c := ((L - P) / P * Num.of_Z 100)%Qc in
  ((P < L)%Qc -> (0 < c)%Qc)
  /\ ((L < P)%Qc -> (c < 0)%Qc)
  /\ (L = P -> c = 0%Qc).
Proof.
  intros HP. cbn zeta. split; [| split].
  - intro H. apply (proj1 (percent_pos _)).
    apply (proj2 (@Qc_lt_div _ _ _ HP)).
    rewrite Qcmult_0_l. qc2q. lra.
  - intro H.
    assert (Hneg : (0 < (P - L) / P * Num.of_Z 100)%Qc).
    { apply (proj1 (percent_pos _)).
      apply (proj2 (@Qc_lt_div _ _ _ HP)).
      rewrite Qcmult_0_l. qc2q. lra. }
    replace ((P - L) / P * Num.of_Z 100)%Qc
      with (- ((L - P) / P * Num.of_Z 100))%Qc in Hneg
      by (unfold Qcdiv; ring).
    qc2q. lra.
  - intros ->. unfold Qcdiv. ring.
Qed.

(** X10. A price-change record, when there is one, has non-zero event and
    future prices and counts between 1 and the number of later trades; for
    a positive event price its direction is up, down or flat exactly as the
    future price is above, below or equal to the event price. *)
Theorem price_change_record (trades : list Trade) (i : nat) (T : Z)
  (r : PriceChange)
  (Hcalc : calculatePriceChange trades i T = Ok (Some r)) :
  eventPrice r <> 0%Qc
  /\ futurePrice r <> 0%Qc
  /\ (1 <= tradeCount r <= length trades - (i + 1))%nat
  /\ ((0 < eventPrice r)%Qc ->
      (direction r = up <-> (eventPrice r < futurePrice r)%Qc)
      /\ (direction r = down <-> (futurePrice r < eventPrice r)%Qc)
      /\ (direction r = flat <-> futurePrice r = eventPrice r)).
Proof.
  unfold calculatePriceChange in Hcalc.
  destruct (nth_error trades i) as [t |]; [| discriminate].
  destruct (Qc_eq_bool (Num.or_default (price t) 0%Qc) 0%Qc) eqn:EP;
    [discriminate |].
  assert (HP : Num.or_default (price t) 0%Qc <> 0%Qc).
  { intro H. apply Qc_eq_bool_true_iff in H. congruence. }
  destruct (Nat.eqb_spec (length (futureTrades_of trades i T)) 0)
    as [| Hlen]; [discriminate |].
  destruct (nth_error (futureTrades_of trades i T) _) as [lt |];
    [| discriminate].
  injection Hcalc as <-. cbn [eventPrice futurePrice tradeCount direction].
  split; [exact HP |]. split; [| split].
  - unfold Num.or_default at 1. destruct (price lt) as [v |]; [| exact HP].
    destruct (Qc_eq_bool v 0) eqn:Ev; [exact HP |].
    intro H. apply Qc_eq_bool_true_iff in H. congruence.
  - split; [lia |]. unfold futureTrades_of.
    eapply Nat.le_trans; [apply filter_length_le |].
    rewrite length_skipn. lia.
  - intro Hpos.
    set (P := Num.or_default (price t) 0%Qc) in *.
    set (L := Num.or_default (price lt) P).
    destruct (change_sign L Hpos) as (Hup & Hdown & Hflat).
    destruct (direction_cases ((L - P) / P * Num.of_Z 100)%Qc)
      as (Dup & Ddown & Dflat). cbn zeta in Dup, Ddown, Dflat.
    destruct (Qc_dec P L) as [[Hlt | Hgt] | Heq].
    + rewrite (Dup (Hup Hlt)).
      split; [tauto |]. split; (split; [discriminate |]); intro H.
      * exfalso. exact (Qclt_not_le _ _ Hlt (Qclt_le_weak _ _ H)).
      * exfalso. rewrite H in Hlt. exact (Qclt_not_eq _ _ Hlt eq_refl).
    + rewrite (Ddown (Hdown Hgt)).
      split; [| split; [tauto |]]; (split; [discriminate |]); intro H.
      * exfalso. exact (Qclt_not_le _ _ Hgt (Qclt_le_weak _ _ H)).
      * exfalso. rewrite H in Hgt. exact (Qclt_not_eq _ _ Hgt eq_refl).
    + rewrite (Dflat (Hflat (eq_sym Heq))).
      split; [| split; [| split; auto]]; (split; [discriminate |]); intro H;
        exfalso; rewrite Heq in H; exact (Qclt_not_eq _ _ H eq_refl).
Qed.

Lemma price_change_record_witness :
  exists r,
    calculatePriceChange Scenario.rising_tape 0 100 = Ok (Some r)
    /\ (1 <= tradeCount r <= 1)%nat.
Proof.
  destruct (calculatePriceChange Scenario.rising_tape 0 100)
    as [[r |] |] eqn:E.
  - exists r. split; [reflexivity |].
    exact (proj1 (proj2 (proj2 (price_change_record _ _ _ E)))).
  - vm_compute in E. discriminate.
  - vm_compute in E. discriminate.
Defined.

(** ** Merging the markets *)

Lemma analyzeMarket_total (fetched : Market * list Trade) :
  exists events, analyzeMarket fetched = Ok events.
Proof.
  destruct fetched as [market trades]. unfold analyzeMarket.
  destruct (length trades <? 10)%nat; [now eexists |].
  apply detectAnomalies_total.
Qed.

(** X11. [analyzeAllMarkets] returns normally; its result lists the events
    of all markets, most recent first, and holds exactly the events that
    [detectAnomalies] returns for the markets with at least 10 fetched
    trades. *)
Theorem analyzeAllMarkets_merge (fetched : list (Market * list Trade)) :
  exists events merged,
    analyzeAllMarkets fetched = Ok events
    /\ for_push analyzeMarket fetched = Ok merged
    /\ Permutation events merged
    /\ StronglySorted (fun a b => (ev_timestamp b <= ev_timestamp a)%Z) events
    /\ (forall e, In e events <->
          exists market trades evs,
            In (market, trades) fetched
            /\ (10 <= length trades)%nat
            /\ detectAnomalies trades market = Ok evs
            /\ In e evs).
Proof.
  destruct (for_push_total analyzeMarket fetched) as [merged Hmerged].
  { intros x _. apply analyzeMarket_total. }
  exists (js_sort (fun a b => (ev_timestamp b - ev_timestamp a <=? 0)%Z)
                  merged), merged.
  split; [unfold analyzeAllMarkets; now rewrite Hmerged |].
  split; [exact Hmerged |]. split; [apply js_sort_perm |]. split.
  - eapply StronglySorted_impl; [| apply js_sort_sorted].
    + cbn beta. intros a b H. apply Z.leb_le in H. lia.
    + intros a b.
      destruct (Z.leb_spec (ev_timestamp b - ev_timestamp a) 0);
        destruct (Z.leb_spec (ev_timestamp a - ev_timestamp b) 0); auto; lia.
    + intros a b c Hab Hbc. apply Z.leb_le in Hab, Hbc. apply Z.leb_le. lia.
  - intro e. split.
    + intro He.
      assert (He' : In e merged)
        by (eapply Permutation_in; [apply js_sort_perm | exact He]).
      destruct (@for_push_In _ _ _ _ _ _ Hmerged He')
        as ([market trades] & out & Hf & Hout & Hin).
      unfold analyzeMarket in Hout.
      destruct (Nat.ltb_spec (length trades) 10).
      * injection Hout as <-. contradiction.
      * exists market, trades, out. auto.
    + intros (market & trades & evs & Hf & Hlen & Hrun & Hin).
      eapply Permutation_in; [apply Permutation_sym, js_sort_perm |].
      clear - Hmerged Hf Hlen Hrun Hin.
      revert merged Hmerged.
      induction fetched as [| x rest IH]; intros merged Hmerged;
        [contradiction |].
      cbn [for_push] in Hmerged.
      destruct (analyzeMarket x) as [out |] eqn:Ex; [| discriminate].
      cbn [bind] in Hmerged.
      destruct (for_push analyzeMarket rest) as [more |]; [| discriminate].
      cbn [bind] in Hmerged. injection Hmerged as <-.
      apply in_or_app. destruct Hf as [-> | Hf].
      * left. unfold analyzeMarket in Ex.
        destruct (Nat.ltb_spec (length trades) 10); [lia |]. congruence.
      * right. now apply IH.
Qed.

Lemma analyzeAllMarkets_merge_witness :
  exists events,
    analyzeAllMarkets [(Scenario.a_market, Scenario.all_buy_tape)]
    = Ok events.
Proof.
  destruct (analyzeAllMarkets_merge
              [(Scenario.a_market, Scenario.all_buy_tape)])
    as (events & merged & Hrun & _).
  exists events. exact Hrun.
Defined.

(** * The dashboard's views *)

(** ** The most of a sorted list *)

Lemma StronglySorted_app_inv {A : Type} (R : A -> A -> Prop) (l1 l2 : list A) :
  StronglySorted R (l1 ++ l2) ->
  StronglySorted R l1
  /\ forall a b, In a l1 -> In b l2 -> R a b.
Proof.
  induction l1 as [| x l1 IH]; cbn [app]; intro H.
  - split; [constructor | contradiction].
  - inversion H as [| ? ? Hs Hall]; subst.
    destruct (IH Hs) as [Hs1 Hcross]. split.
    + constructor; [exact Hs1 |].
      rewrite Forall_forall in Hall |- *. intros y Hy.
      apply Hall. apply in_or_app. now left.
    + intros a b [<- | Ha] Hb.
      * rewrite Forall_forall in Hall. apply Hall. apply in_or_app. now right.
      * now apply Hcross.
Qed.

Section TopK.
Variable A : Type.
Variable leb : A -> A -> bool.
Hypothesis leb_total : forall a b, leb a b = true \/ leb b a = true.
Hypothesis leb_trans :
  forall a b c, leb a b = true -> leb b c = true -> leb a c = true.

(** The first [k] elements of the sorted list come, in order, before all
    the others. *)
Lemma top_k (k : nat) (l : list A) :
  let shown := firstn k (js_sort leb l) in
  let rest := skipn k (js_sort leb l) in
  (length shown <= k)%nat
  /\ (length shown <= length l)%nat
  /\ Permutation (shown ++ rest) l
  /\ StronglySorted (fun a b => leb a b = true) shown
  /\ (forall a b, In a shown -> In b rest -> leb a b = true).
Proof.
  cbn zeta.
  assert (Hs : StronglySorted (fun a b => leb a b = true)
                 (firstn k (js_sort leb l) ++ skipn k (js_sort leb l))).
  { rewrite firstn_skipn. now apply js_sort_sorted. }
  apply StronglySorted_app_inv in Hs as [Hs Hcross].
  rewrite length_firstn, js_sort_length, firstn_skipn.
  split; [lia |]. split; [lia |]. split; [apply js_sort_perm |].
  split; assumption.
Qed.
End TopK.

Lemma descending_iff {A : Type} (key : A -> Qc) (a b : A) :
  descending key a b = true <-> (key b <= key a)%Qc.
Proof.
  unfold descending. rewrite leb_true_iff. qc2q. split; intro; lra.
Qed.

Lemma descending_total {A : Type} (key : A -> Qc) (a b : A) :
  descending key a b = true \/ descending key b a = true.
Proof.
  rewrite !descending_iff.
  destruct (Qclt_le_dec (key a) (key b)) as [H | H];
    [right; now apply Qclt_le_weak | now left].
Qed.

Lemma descending_trans {A : Type} (key : A -> Qc) (a b c : A) :
  descending key a b = true -> descending key b c = true ->
  descending key a c = true.
Proof.
  rewrite !descending_iff. intros Hab Hbc. eapply Qcle_trans; eassumption.
Qed.

Lemma includes_In (anomalies : list Kind) (type : Kind) :
  includes anomalies type = true <-> In type anomalies.
Proof.
  unfold includes. rewrite existsb_exists. split.
  - intros (k & Hk & Heq). destruct type, k; try discriminate; exact Hk.
  - intro H. exists type. split; [exact H | now destruct type].
Qed.

(** A panel: the [k] events of a kind with the greatest key. *)
Lemma panel_spec (key : Event -> Qc) (type : Kind) (k : nat)
  (filteredEvents : list Event) :
  let tagged :=
    filter (fun e => includes (ev_anomalies e) type) filteredEvents in
  let shown := firstn k (js_sort (descending key) tagged) in
  (length shown <= k)%nat
  /\ (forall e, In e shown ->
        In e filteredEvents /\ In type (ev_anomalies e))
  /\ StronglySorted (fun a b => (key b <= key a)%Qc) shown
  /\ exists rest,
       Permutation (shown ++ rest) tagged
       /\ forall a b, In a shown -> In b rest -> (key b <= key a)%Qc.
Proof.
  cbn zeta.
  destruct (@top_k _ (descending key) (@descending_total _ key)
              (@descending_trans _ key) k
              (filter (fun e => includes (ev_anomalies e) type)
                      filteredEvents))
    as (Hk & _ & Hperm & Hs & Hcross).
  split; [exact Hk |]. split; [| split].
  - intros e He.
    assert (Hin : In e (filter (fun e => includes (ev_anomalies e) type)
                               filteredEvents)).
    { eapply Permutation_in; [exact Hperm |]. apply in_or_app. now left. }
    apply filter_In in Hin as [Hin Htag].
    split; [exact Hin | now apply includes_In].
  - eapply StronglySorted_impl; [| exact Hs].
    intros a b. apply descending_iff.
  - eexists. split; [exact Hperm |].
    intros a b Ha Hb. apply descending_iff. now apply Hcross.
Qed.

(** X12. The whale, volume-spike and price-move panels show at most 5, 8
    and 8 of the filtered events that carry the panel's kind, in descending
    order of trade size, volume ratio and price range respectively, and no
    event of that kind left out ranks above a shown one. *)
Theorem ranking_panels (filteredEvents : list Event) :
  let tagged type :=
    filter (fun e => includes (ev_anomalies e) type) filteredEvents in
  let panel key type k shown :=
    (length shown <= k)%nat
    /\ (forall e, In e shown ->
          In e filteredEvents /\ In type (ev_anomalies e))
    /\ StronglySorted (fun a b => (key b <= key a)%Qc) shown
    /\ exists rest,
         Permutation (shown ++ rest) (tagged type)
         /\ forall a b : Event,
              In a shown -> In b rest -> (key b <= key a)%Qc in
  panel ev_tradeSize whale_trade 5%nat (whales filteredEvents)
  /\ panel ev_volumeRatio volume_spike 8%nat (spikes filteredEvents)
  /\ panel ev_priceRangePct price_move 8%nat (moves filteredEvents).
Proof.
  cbn zeta. split; [| split]; apply panel_spec.
Qed.

Lemma ranking_panels_witness :
  (length (whales [Scenario.event_at 1700000000]) <= 5)%nat.
Proof.
  exact (proj1 (proj1 (ranking_panels [Scenario.event_at 1700000000]))).
Defined.

(** ** The time filter *)

(** The cut-off test, in whole milliseconds. *)
Lemma cutoff_iff (now_ms h ts : Z) :
  Num.leb (Num.of_Z now_ms / Num.of_Z 1000 - Num.of_Z h * Num.of_Z 3600)%Qc
          (Num.of_Z ts) = true
  <-> (now_ms - h * 3600000 <= 1000 * ts)%Z.
Proof.
  rewrite leb_true_iff. qc2q. unfold Z.sub.
  rewrite Zle_Qle, inject_Z_plus, inject_Z_opp, !inject_Z_mult.
  assert (E : (inject_Z now_ms
               == inject_Z now_ms * / inject_Z 1000 * inject_Z 1000)%Q)
    by (field; discriminate).
  set (y := (inject_Z now_ms * / inject_Z 1000)%Q) in *.
  rewrite E. clearbody y.
  change (inject_Z 1000) with (1000 # 1)%Q.
  change (inject_Z 3600) with (3600 # 1)%Q.
  change (inject_Z 3600000) with (3600000 # 1)%Q.
  split; intro; lra.
Qed.

Lemma getFilteredEvents_In (timeFilter : TimeFilter) (now_ms : Z)
  (allEvents : list Event) (e : Event) :
  timeFilter <> filter_all ->
  In e (getFilteredEvents timeFilter now_ms allEvents)
  <-> In e allEvents
      /\ (now_ms - hours_or_24 timeFilter * 3600000
          <= 1000 * ev_timestamp e)%Z.
Proof.
  intro Hf. rewrite <- cutoff_iff.
  destruct timeFilter; try congruence;
    unfold getFilteredEvents; apply filter_In.
Qed.

(** On a list in descending order, a test that every later-stamped event
    passes when an earlier-stamped one does keeps a prefix. *)
Lemma filter_descending_prefix (p : Event -> bool) (l : list Event) :
  (forall a b, (ev_timestamp b <= ev_timestamp a)%Z ->
               p b = true -> p a = true) ->
  StronglySorted (fun a b => (ev_timestamp b <= ev_timestamp a)%Z) l ->
  exists n, filter p l = firstn n l.
Proof.
  intros Hmono Hs. induction Hs as [| a l Hs IH Hall].
  - exists 0%nat. reflexivity.
  - cbn [filter]. destruct (p a) eqn:Ea.
    + destruct IH as [n Hn]. exists (S n). cbn [firstn]. now rewrite Hn.
    + exists 0%nat. cbn [firstn]. apply filter_all_false.
      intros b Hb. rewrite Forall_forall in Hall.
      destruct (p b) eqn:Eb; [| reflexivity].
      rewrite (Hmono a b (Hall b Hb) Eb) in Ea. discriminate.
Qed.

(** X13. The time filter ['all'] shows every event; each other filter
    shows, in their order, the events stamped within its number of hours
    before now, an unknown filter counting as 24 hours; the 1-hour view is
    contained in the 6-hour view and that in the 24-hour view; and on events
    listed most recent first every view is a prefix of the list. *)
Theorem getFilteredEvents_spec (now_ms : Z) (allEvents : list Event) :
  getFilteredEvents filter_all now_ms allEvents = allEvents
  /\ getFilteredEvents filter_other now_ms allEvents
     = getFilteredEvents filter_24h now_ms allEvents
  /\ (forall timeFilter e, timeFilter <> filter_all ->
        (In e (getFilteredEvents timeFilter now_ms allEvents)
         <-> In e allEvents
             /\ (now_ms - hours_or_24 timeFilter * 3600000
                 <= 1000 * ev_timestamp e)%Z))
  /\ (forall e, In e (getFilteredEvents filter_1h now_ms allEvents) ->
                In e (getFilteredEvents filter_6h now_ms allEvents))
  /\ (forall e, In e (getFilteredEvents filter_6h now_ms allEvents) ->
                In e (getFilteredEvents filter_24h now_ms allEvents))
  /\ (forall timeFilter,
        StronglySorted (fun a b => (ev_timestamp b <= ev_timestamp a)%Z)
                       allEvents ->
        exists n,
          getFilteredEvents timeFilter now_ms allEvents
          = firstn n allEvents).
Proof.
  split; [reflexivity |]. split; [reflexivity |].
  split; [intros; now apply getFilteredEvents_In |].
  split; [| split].
  - intros e He.
    apply getFilteredEvents_In in He; [| discriminate].
    apply getFilteredEvents_In; [discriminate |].
    cbn in He |- *. split; [tauto | lia].
  - intros e He.
    apply getFilteredEvents_In in He; [| discriminate].
    apply getFilteredEvents_In; [discriminate |].
    cbn in He |- *. split; [tauto | lia].
  - intros timeFilter Hs.
    destruct (timeFilter) eqn:Ef;
      try (exists (length allEvents); cbn [getFilteredEvents];
           now rewrite firstn_all);
      unfold getFilteredEvents; apply filter_descending_prefix; try exact Hs;
      intros a b Hab Hb; apply cutoff_iff in Hb; apply cutoff_iff; lia.
Qed.

Lemma getFilteredEvents_spec_witness :
  In (Scenario.event_at 1700000000)
     (getFilteredEvents filter_6h 1700000600000
        [Scenario.event_at 1700000000]).
Proof.
  apply (proj1 (proj2 (proj2 (proj2
           (getFilteredEvents_spec 1700000600000
              [Scenario.event_at 1700000000]))))).
  apply getFilteredEvents_In; [discriminate |].
  split; [now left | cbn; lia].
Defined.

(** ** Objects used as maps *)

Section ObjFacts.
Variable K V : Type.
Variable eqb : K -> K -> bool.
Hypothesis eqb_spec : forall a b, reflect (a = b) (eqb a b).

Lemma obj_get_set_same (o : list (K * V)) (k : K) (v : V) :
  obj_get eqb (obj_set eqb o k v) k = Some v.
Proof.
  induction o as [| [k' v'] o IH]; cbn [obj_set obj_get].
  - destruct (eqb_spec k k); [reflexivity | congruence].
  - destruct (eqb_spec k' k) as [E | E]; cbn [obj_get].
    + destruct (eqb_spec k' k); [reflexivity | congruence].
    + destruct (eqb_spec k' k); [congruence | exact IH].
Qed.

Lemma obj_get_set_other (o : list (K * V)) (k k' : K) (v : V) :
  k <> k' -> obj_get eqb (obj_set eqb o k v) k' = obj_get eqb o k'.
Proof.
  intro Hne. induction o as [| [k0 v0] o IH]; cbn [obj_set obj_get].
  - destruct (eqb_spec k k'); [congruence | reflexivity].
  - destruct (eqb_spec k0 k) as [E | E]; cbn [obj_get].
    + subst k0. destruct (eqb_spec k k'); [congruence | reflexivity].
    + destruct (eqb_spec k0 k'); [reflexivity | exact IH].
Qed.

Lemma obj_get_None (o : list (K * V)) (k : K) :
  obj_get eqb o k = None <-> ~ In k (map fst o).
Proof.
  induction o as [| [k' v'] o IH]; cbn [obj_get map fst In].
  - tauto.
  - destruct (eqb_spec k' k); split; intro H;
      try discriminate; try tauto;
      exfalso; apply H; now left.
Qed.

Lemma obj_get_Some_key (o : list (K * V)) (k : K) (v : V) :
  obj_get eqb o k = Some v -> In k (map fst o).
Proof.
  induction o as [| [k' v'] o IH]; cbn [obj_get map fst In];
    [discriminate |].
  destruct (eqb_spec k' k); [now left | right; now apply IH].
Qed.

Lemma obj_keys_set (o : list (K * V)) (k : K) (v : V) :
  map fst (obj_set eqb o k v)
  = match obj_get eqb o k with
    | Some _ => map fst o
    | None => map fst o ++ [k]
    end.
Proof.
  induction o as [| [k' v'] o IH]; cbn [obj_set obj_get map fst app].
  - reflexivity.
  - destruct (eqb_spec k' k); cbn [map fst]; [reflexivity |].
    rewrite IH. now destruct (obj_get eqb o k).
Qed.

Lemma obj_set_NoDup (o : list (K * V)) (k : K) (v : V) :
  NoDup (map fst o) -> NoDup (map fst (obj_set eqb o k v)).
Proof.
  intro Hnd. rewrite obj_keys_set.
  destruct (obj_get eqb o k) eqn:E; [exact Hnd |].
  apply obj_get_None in E.
  apply NoDup_app; [exact Hnd | repeat constructor; intros [] |].
  intros x Hx [<- | []]. contradiction.
Qed.

Lemma obj_get_In (o : list (K * V)) (k : K) (v : V) :
  NoDup (map fst o) -> (In (k, v) o <-> obj_get eqb o k = Some v).
Proof.
  induction o as [| [k' v'] o IH]; cbn [obj_get map fst In]; intro Hnd.
  - split; [contradiction | discriminate].
  - inversion Hnd as [| ? ? Hnotin Hnd']; subst.
    destruct (eqb_spec k' k) as [-> | Hne].
    + split.
      * intros [E | Hin]; [congruence |].
        exfalso. apply Hnotin. now apply (in_map fst) in Hin.
      * intro E. left. congruence.
    + rewrite <- (IH Hnd'). split; [| tauto].
      intros [E | Hin]; [congruence | exact Hin].
Qed.
End ObjFacts.

(** ** Counting by type *)

Lemma fold_sum_nat {A : Type} (f : A -> nat) (l : list A) (a : nat) :
  fold_left (fun sum x => (sum + f x)%nat) l a = (a + list_sum (map f l))%nat.
Proof.
  revert a. induction l as [| x l IH]; intro a; cbn [fold_left map].
  - cbn. lia.
  - rewrite IH.
    change (list_sum (f x :: map f l)) with (f x + list_sum (map f l))%nat.
    lia.
Qed.

Lemma list_sum_perm (l l' : list nat) :
  Permutation l l' -> list_sum l = list_sum l'.
Proof.
  induction 1 as [| x l l' _ IH | x y l | l l' l'' _ IH1 _ IH2].
  - reflexivity.
  - change (x + list_sum l = x + list_sum l')%nat. lia.
  - change (y + (x + list_sum l) = x + (y + list_sum l))%nat. lia.
  - lia.
Qed.

Section TypeCountFacts.
Variable K : Type.
Variable eqb : K -> K -> bool.
Hypothesis eqb_spec : forall a b, reflect (a = b) (eqb a b).

Lemma typeCounts_step_value (o : list (K * nat)) (t : K) :
  typeCounts_step eqb o t = obj_set eqb o t (stored_count eqb o t + 1)%nat.
Proof.
  unfold typeCounts_step, stored_count.
  destruct (obj_get eqb o t) as [n |]; [| reflexivity].
  destruct (Nat.eqb_spec n 0); [subst |]; reflexivity.
Qed.

Lemma typeCounts_step_stored (o : list (K * nat)) (t k : K) :
  stored_count eqb (typeCounts_step eqb o t) k
  = (stored_count eqb o k + if eqb k t then 1 else 0)%nat.
Proof.
  rewrite typeCounts_step_value. unfold stored_count at 1.
  destruct (eqb_spec k t) as [-> | Hne].
  - now rewrite (@obj_get_set_same _ _ _ eqb_spec).
  - rewrite (@obj_get_set_other _ _ _ eqb_spec) by congruence.
    unfold stored_count. lia.
Qed.

Lemma list_sum_set (o : list (K * nat)) (k : K) (v : nat) :
  (list_sum (map snd (obj_set eqb o k v)) + stored_count eqb o k
   = list_sum (map snd o) + v)%nat.
Proof.
  unfold stored_count.
  induction o as [| [k' v'] o IH]; cbn [obj_set obj_get map snd].
  - cbn. lia.
  - destruct (eqb_spec k' k); cbn [map snd].
    + change (v + list_sum (map snd o) + v'
              = v' + list_sum (map snd o) + v)%nat. lia.
    + change (v' + list_sum (map snd (obj_set eqb o k v))
              + match obj_get eqb o k with Some n => n | None => 0 end
              = v' + list_sum (map snd o) + v)%nat. lia.
Qed.

(** The counts after tallying [types] into [o]. *)
Lemma typeCounts_fold (types : list K) (o : list (K * nat)) :
  let o' := fold_left (typeCounts_step eqb) types o in
  (forall k, stored_count eqb o' k
             = (stored_count eqb o k + occurrences eqb k types)%nat)
  /\ (NoDup (map fst o) -> NoDup (map fst o'))
  /\ (list_sum (map snd o') = list_sum (map snd o) + length types)%nat
  /\ (forall k, In k (map fst o') <-> In k (map fst o) \/ In k types).
Proof.
  cbn zeta. revert o.
  induction types as [| t types IH]; intro o; cbn [fold_left].
  - unfold occurrences. cbn [filter length In].
    split; [intro; lia |]. split; [auto |]. split; [lia | tauto].
  - destruct (IH (typeCounts_step eqb o t)) as (Hst & Hnd & Hsum & Hkeys).
    split; [| split; [| split]].
    + intro k. rewrite Hst, typeCounts_step_stored.
      unfold occurrences. cbn [filter].
      destruct (eqb k t); cbn [length]; lia.
    + intro H. apply Hnd. rewrite typeCounts_step_value.
      now apply (@obj_set_NoDup _ _ _ eqb_spec).
    + rewrite Hsum, typeCounts_step_value.
      pose proof (list_sum_set o t (stored_count eqb o t + 1)).
      cbn [length]. lia.
    + intro k. rewrite Hkeys, typeCounts_step_value, (@obj_keys_set _ _ _ eqb_spec).
      cbn [In].
      destruct (obj_get eqb o t) eqn:E.
      * split; [tauto |]. intros [H | [<- | H]]; auto.
        left. exact (@obj_get_Some_key _ _ _ eqb_spec _ _ _ E).
      * rewrite in_app_iff. cbn [In]. tauto.
Qed.

Lemma occurrences_pos (k : K) (types : list K) :
  (0 < occurrences eqb k types)%nat <-> In k types.
Proof.
  unfold occurrences. induction types as [| t types IH]; cbn [filter In].
  - cbn. lia.
  - destruct (eqb_spec k t) as [-> | Hne]; cbn [length].
    + split; [auto | lia].
    + rewrite IH. split; [auto |]. intros [E | H]; [congruence | exact H].
Qed.

(** The sorted tally of [types]: one entry for each type that occurs, with
    the number of its occurrences, the larger counts first. *)
Lemma sorted_tally (types : list K) :
  let sorted := sort_counts (fold_left (typeCounts_step eqb) types []) in
  NoDup (map fst sorted)
  /\ (forall type count,
        In (type, count) sorted
        <-> In type types /\ count = occurrences eqb type types)
  /\ total_count sorted = length types
  /\ StronglySorted (fun a b => (snd b <= snd a)%nat) sorted.
Proof.
  cbn zeta. unfold sort_counts.
  set (o := fold_left (typeCounts_step eqb) types []).
  destruct (typeCounts_fold types []) as (Hst & Hnd & Hsum & Hkeys).
  fold o in Hst, Hnd, Hsum, Hkeys.
  specialize (Hnd (NoDup_nil _)).
  set (cmp := fun a b : K * nat => (Z.of_nat (snd b) - Z.of_nat (snd a) <=? 0)%Z).
  assert (Hperm : Permutation (js_sort cmp o) o) by apply js_sort_perm.
  split; [| split; [| split]].
  - eapply Permutation_NoDup; [| exact Hnd].
    apply Permutation_map, Permutation_sym, Hperm.
  - intros type count.
    assert (Hin : In (type, count) (js_sort cmp o) <-> In (type, count) o).
    { split; apply Permutation_in;
        [exact Hperm | apply Permutation_sym, Hperm]. }
    rewrite Hin, (@obj_get_In _ _ _ eqb_spec _ _ _ Hnd).
    specialize (Hst type). unfold stored_count in Hst. cbn [obj_get] in Hst.
    specialize (Hkeys type). cbn [map In] in Hkeys.
    split.
    + intro E. rewrite E in Hst. split; [| exact Hst].
      pose proof (@obj_get_Some_key _ _ _ eqb_spec _ _ _ E) as Hkey.
      apply Hkeys in Hkey. tauto.
    + intros [Htype ->].
      destruct (obj_get eqb o type) as [n |] eqn:E; [now rewrite Hst |].
      apply (@obj_get_None _ _ _ eqb_spec) in E. exfalso. apply E.
      apply Hkeys. now right.
  - unfold total_count. rewrite fold_sum_nat.
    rewrite (list_sum_perm (Permutation_map snd Hperm)), Hsum. cbn. lia.
  - eapply StronglySorted_impl; [| apply js_sort_sorted].
    + cbn beta. intros a b H. apply Z.leb_le in H. lia.
    + intros a b. unfold cmp.
      destruct (Z.leb_spec (Z.of_nat (snd b) - Z.of_nat (snd a)) 0);
        destruct (Z.leb_spec (Z.of_nat (snd a) - Z.of_nat (snd b)) 0);
        auto; lia.
    + intros a b c Hab Hbc. unfold cmp in *.
      apply Z.leb_le in Hab, Hbc. apply Z.leb_le. lia.
Qed.
End TypeCountFacts.

Lemma Kind_eqb_spec (a b : Kind) : reflect (a = b) (Kind_eqb a b).
Proof. destruct a, b; constructor; congruence. Qed.

Lemma fold_left_flat_map {A B C : Type} (f : C -> B -> C) (g : A -> list B)
  (l : list A) (c : C) :
  fold_left (fun acc x => fold_left f (g x) acc) l c
  = fold_left f (flat_map g l) c.
Proof.
  revert c. induction l as [| x l IH]; intro c; cbn [fold_left flat_map].
  - reflexivity.
  - rewrite fold_left_app. apply IH.
Qed.

Lemma fold_left_map {A B C : Type} (f : C -> B -> C) (g : A -> B)
  (l : list A) (c : C) :
  fold_left (fun acc x => f acc (g x)) l c = fold_left f (map g l) c.
Proof.
  revert c. induction l as [| x l IH]; intro c; cbn [fold_left map];
    [reflexivity | apply IH].
Qed.

(** X14. The anomaly-type panel has one row for each kind that occurs in
    the filtered events, with the number of events carrying it counted over
    all their kind lists, the larger counts first; the total its
    percentages are taken of is the number of all kind tags. *)
Theorem anomaly_type_counts_spec (filteredEvents : list Event) :
  let kinds := flat_map ev_anomalies filteredEvents in
  let sorted := anomaly_type_counts filteredEvents in
  NoDup (map fst sorted)
  /\ (forall type count,
        In (type, count) sorted
        <-> In type kinds /\ count = occurrences Kind_eqb type kinds)
  /\ total_count sorted = length kinds
  /\ StronglySorted (fun a b => (snd b <= snd a)%nat) sorted.
Proof.
  cbn zeta. unfold anomaly_type_counts. rewrite fold_left_flat_map.
  apply (@sorted_tally _ _ Kind_eqb_spec).
Qed.

(** X15. The market-type panel has one row for each market type among the
    filtered events, with the number of events of that type, the larger
    counts first; the counts add up to the number of filtered events. *)
Theorem market_type_counts_spec (filteredEvents : list Event) :
  let types := map ev_marketType filteredEvents in
  let sorted := market_type_counts filteredEvents in
  NoDup (map fst sorted)
  /\ (forall type count,
        In (type, count) sorted
        <-> In type types /\ count = occurrences String.eqb type types)
  /\ total_count sorted = length filteredEvents
  /\ StronglySorted (fun a b => (snd b <= snd a)%nat) sorted.
Proof.
  cbn zeta. unfold market_type_counts.
  rewrite (fold_left_map (typeCounts_step String.eqb) ev_marketType).
  rewrite <- (length_map ev_marketType filteredEvents).
  apply (@sorted_tally _ _ String.eqb_spec).
Qed.

Lemma anomaly_type_counts_spec_witness :
  In (imbalance, 1%nat) (anomaly_type_counts [Scenario.event_at 1700000000]).
Proof.
  apply (proj2 (proj1 (proj2
           (anomaly_type_counts_spec [Scenario.event_at 1700000000]))
           imbalance 1%nat)).
  split; [now left | reflexivity].
Defined.

Lemma market_type_counts_spec_witness :
  In ("general"%string, 1%nat)
     (market_type_counts [Scenario.event_at 1700000000]).
Proof.
  apply (proj2 (proj1 (proj2
           (market_type_counts_spec [Scenario.event_at 1700000000]))
           "general"%string 1%nat)).
  split; [now left | reflexivity].
Defined.

(** ** The header figures *)

Lemma num_max_spec (a b : Qc) :
  (a <= Num.max a b)%Qc /\ (b <= Num.max a b)%Qc
  /\ (Num.max a b = a \/ Num.max a b = b).
Proof.
  unfold Num.max. destruct (Num.leb a b) eqn:E.
  - apply leb_true_iff in E. repeat split; auto. apply Qcle_refl.
  - assert (Hba : (b <= a)%Qc).
    { apply Qcnot_lt_le. intro H. apply Qclt_le_weak, leb_true_iff in H.
      congruence. }
    repeat split; auto. apply Qcle_refl.
Qed.

Lemma fold_sum_acc {A : Type} (f : A -> Qc) (l : list A) (a : Qc) :
  fold_left (fun sum x => (sum + f x)%Qc) l a = (a + sum_by f l)%Qc.
Proof.
  unfold sum_by. revert a.
  induction l as [| x l IH]; intro a; cbn [fold_left].
  - ring.
  - rewrite IH, (IH (0 + f x)%Qc). ring.
Qed.

Lemma sum_by_cons {A : Type} (f : A -> Qc) (x : A) (l : list A) :
  sum_by f (x :: l) = (f x + sum_by f l)%Qc.
Proof.
  unfold sum_by at 1. cbn [fold_left]. rewrite fold_sum_acc. ring.
Qed.

Lemma sum_by_set (o : list (string * Qc)) (id : string) (v : Qc) :
  (sum_by snd (obj_set String.eqb o id v) + stored_volume o id
   = sum_by snd o + v)%Qc.
Proof.
  unfold stored_volume.
  induction o as [| [k' v'] o IH]; cbn [obj_set obj_get].
  - rewrite sum_by_cons. unfold sum_by; cbn. ring.
  - destruct (String.eqb_spec k' id).
    + rewrite !sum_by_cons. cbn [snd]. ring.
    + rewrite !sum_by_cons. cbn [snd].
      rewrite <- Qcplus_assoc, IH. ring.
Qed.

(** One pass of the loop: the entry of the event's market becomes the
    larger of what it held and the event's volume; nothing else changes. *)
Lemma volumeByMarket_step_spec (o : list (string * Qc)) (e : Event) :
  volumeByMarket_step o e
  = obj_set String.eqb o (ev_conditionId e)
      (Num.max (stored_volume o (ev_conditionId e)) (ev_totalVolume e)).
Proof.
  unfold volumeByMarket_step, stored_volume.
  assert (Hor : Num.or_default (Some (ev_totalVolume e)) 0%Qc
                = ev_totalVolume e).
  { unfold Num.or_default. destruct (Qc_eq_bool _ _) eqn:E; [| reflexivity].
    apply Qc_eq_bool_true_iff in E. now rewrite E. }
  rewrite Hor.
  assert (Hset2 : forall (o0 : list (string * Qc)) k a b,
             obj_set String.eqb (obj_set String.eqb o0 k a) k b
             = obj_set String.eqb o0 k b).
  { induction o0 as [| [k' v'] o0 IH]; intros k a b; cbn [obj_set].
    - destruct (String.eqb_spec k k); [reflexivity | congruence].
    - destruct (String.eqb_spec k' k) as [E | E]; cbn [obj_set].
      + destruct (String.eqb_spec k' k); [reflexivity | congruence].
      + destruct (String.eqb_spec k' k); [congruence |]. now rewrite IH. }
  destruct (obj_get String.eqb o (ev_conditionId e)) as [v |] eqn:Eg.
  - destruct (Qc_eq_bool v 0) eqn:Ev.
    + apply Qc_eq_bool_true_iff in Ev. subst v.
      rewrite (@obj_get_set_same _ _ _ String.eqb_spec). apply Hset2.
    + rewrite Eg. reflexivity.
  - rewrite (@obj_get_set_same _ _ _ String.eqb_spec). apply Hset2.
Qed.

Lemma volumeByMarket_fold (events : list Event) (o : list (string * Qc)) :
  let o' := fold_left volumeByMarket_step events o in
  (forall id,
     stored_volume o' id
     = fold_left Num.max (map ev_totalVolume (events_of_market id events))
                 (stored_volume o id))
  /\ (NoDup (map fst o) -> NoDup (map fst o'))
  /\ (forall id, In id (map fst o')
                 <-> In id (map fst o)
                     \/ exists e, In e events /\ ev_conditionId e = id).
Proof.
  cbn zeta. revert o.
  induction events as [| e events IH]; intro o; cbn [fold_left].
  - split; [reflexivity |]. split; [auto |].
    intro id. split; [auto |]. intros [H | (e & [] & _)]. exact H.
  - destruct (IH (volumeByMarket_step o e)) as (Hst & Hnd & Hkeys).
    rewrite volumeByMarket_step_spec in *.
    split; [| split].
    + intro id. rewrite Hst. unfold events_of_market. cbn [filter].
      destruct (String.eqb_spec (ev_conditionId e) id) as [<- | Hne];
        cbn [map fold_left]; unfold stored_volume at 1.
      * now rewrite (@obj_get_set_same _ _ _ String.eqb_spec).
      * now rewrite (@obj_get_set_other _ _ _ String.eqb_spec) by exact Hne.
    + intro H. apply Hnd. now apply (@obj_set_NoDup _ _ _ String.eqb_spec).
    + intro id. rewrite Hkeys, (@obj_keys_set _ _ _ String.eqb_spec).
      destruct (obj_get String.eqb o (ev_conditionId e)) eqn:E.
      * split.
        -- intros [H | (x & Hx & Hid)]; [now left |].
           right. exists x. auto with datatypes.
        -- intros [H | (x & [<- | Hx] & Hid)]; [now left | | right; eauto].
           left. subst id.
           exact (@obj_get_Some_key _ _ _ String.eqb_spec _ _ _ E).
      * rewrite in_app_iff. cbn [In]. split.
        -- intros [[H | [<- | []]] | (x & Hx & Hid)]; [now left | |].
           ++ right. exists e. auto with datatypes.
           ++ right. exists x. auto with datatypes.
        -- intros [H | (x & [<- | Hx] & Hid)]; [auto | auto | right; eauto].
Qed.

Lemma fold_max_ge (l : list Qc) (a : Qc) :
  (a <= fold_left Num.max l a)%Qc
  /\ forall x, In x l -> (x <= fold_left Num.max l a)%Qc.
Proof.
  revert a. induction l as [| y l IH]; intro a; cbn [fold_left].
  - split; [apply Qcle_refl | contradiction].
  - destruct (IH (Num.max a y)) as [Ha Hl].
    destruct (num_max_spec a y) as (Hma & Hmy & _).
    split; [eapply Qcle_trans; eassumption |].
    intros x [<- | Hx]; [eapply Qcle_trans; eassumption | now apply Hl].
Qed.

Lemma sum_by_ext_in {A : Type} (f g : A -> Qc) (l : list A) :
  (forall x, In x l -> f x = g x) -> sum_by f l = sum_by g l.
Proof.
  induction l as [| x l IH]; intro H; [reflexivity |].
  rewrite !sum_by_cons, (H x (or_introl eq_refl)), IH; [reflexivity |].
  intros y Hy. apply H. now right.
Qed.

Lemma sum_by_map {A B : Type} (f : B -> Qc) (g : A -> B) (l : list A) :
  sum_by f (map g l) = sum_by (fun x => f (g x)) l.
Proof.
  induction l as [| x l IH]; cbn [map]; [reflexivity |].
  now rewrite !sum_by_cons, IH.
Qed.

Lemma sum_by_member {A : Type} (f : A -> Qc) (l : list A) (x : A) :
  (forall y, In y l -> (0 <= f y)%Qc) -> In x l -> (f x <= sum_by f l)%Qc.
Proof.
  induction l as [| y l IH]; intros Hpos Hin; [contradiction |].
  rewrite sum_by_cons.
  assert (Hy : (0 <= f y)%Qc) by (apply Hpos; now left).
  assert (Hl : (0 <= sum_by f l)%Qc)
    by (apply sum_by_nonneg; intros z Hz; apply Hpos; now right).
  destruct Hin as [-> | Hin].
  - qc2q. lra.
  - assert (Hx : (f x <= sum_by f l)%Qc)
      by (apply IH; [intros z Hz; apply Hpos; now right | exact Hin]).
    qc2q. lra.
Qed.

Lemma Qc_eq_Qeq (a b : Qc) : a = b -> (a == b)%Q.
Proof. intros ->. reflexivity. Qed.

Lemma volumeByMarket_upper (events : list Event) (o : list (string * Qc)) :
  (forall e, In e events -> (0 <= ev_totalVolume e)%Qc) ->
  (forall id, (0 <= stored_volume o id)%Qc) ->
  (sum_by snd (fold_left volumeByMarket_step events o)
   <= sum_by snd o + sum_by ev_totalVolume events)%Qc.
Proof.
  revert o. induction events as [| e events IH]; intros o Hpos Ho;
    cbn [fold_left].
  - unfold sum_by at 3. cbn [fold_left]. qc2q. lra.
  - rewrite sum_by_cons.
    assert (He : (0 <= ev_totalVolume e)%Qc) by (apply Hpos; now left).
    pose proof (Ho (ev_conditionId e)) as Hcur.
    destruct (num_max_spec (stored_volume o (ev_conditionId e))
                           (ev_totalVolume e)) as (Hm1 & Hm2 & Hm).
    assert (Hstep : (sum_by snd (volumeByMarket_step o e)
                     <= sum_by snd o + ev_totalVolume e)%Qc).
    { rewrite volumeByMarket_step_spec.
      pose proof (sum_by_set o (ev_conditionId e)
                    (Num.max (stored_volume o (ev_conditionId e))
                             (ev_totalVolume e))) as Hset.
      apply Qc_eq_Qeq in Hset.
      destruct Hm as [Hm | Hm]; rewrite Hm in *; qc2q; lra. }
    assert (IH' : (sum_by snd (fold_left volumeByMarket_step events
                                 (volumeByMarket_step o e))
                   <= sum_by snd (volumeByMarket_step o e)
                      + sum_by ev_totalVolume events)%Qc).
    { apply IH; [intros x Hx; apply Hpos; now right |].
      intro id. rewrite volumeByMarket_step_spec. unfold stored_volume at 1.
      destruct (String.eqb_spec (ev_conditionId e) id) as [<- | Hne].
      - rewrite (@obj_get_set_same _ _ _ String.eqb_spec).
        eapply Qcle_trans; [exact Hcur | exact Hm1].
      - rewrite (@obj_get_set_other _ _ _ String.eqb_spec) by exact Hne.
        apply Ho. }
    qc2q. lra.
Qed.

Lemma floor_half (n : nat) :
  Qfloor (Num.of_nat n * Num.frac 1 2)%Qc = (Z.of_nat n / 2)%Z.
Proof.
  unfold Num.of_nat. qc2q.
  unfold Qfloor, Qmult, inject_Z. cbn [Qnum Qden].
  now rewrite Z.mul_1_r.
Qed.

(** X16. The header counts the events and the markets; its wallet figure is
    half the sum of the events' wallet counts, rounded down; and its volume
    adds, once for each market that has events, the largest total volume
    among that market's events (never less than 0). The volume is at least
    that of every single event and, when no event volume is negative, at
    most the sum of all of them. *)
Theorem updateStats_spec (markets : list Market) (allEvents : list Event) :
  let volumeByMarket := volumeByMarket_of allEvents in
  let stats := updateStats markets allEvents in
  stat_markets stats = length markets
  /\ stat_events stats = length allEvents
  /\ stat_wallets stats
     = (Z.of_nat (list_sum (map ev_walletCount allEvents)) / 2)%Z
  /\ NoDup (map fst volumeByMarket)
  /\ (forall id v,
        In (id, v) volumeByMarket
        <-> (exists e, In e allEvents /\ ev_conditionId e = id)
            /\ v = market_peak id allEvents)
  /\ stat_volume stats
     = sum_by (fun id => market_peak id allEvents) (map fst volumeByMarket)
  /\ (forall e, In e allEvents -> (ev_totalVolume e <= stat_volume stats)%Qc)
  /\ ((forall e, In e allEvents -> (0 <= ev_totalVolume e)%Qc) ->
      (stat_volume stats <= sum_by ev_totalVolume allEvents)%Qc).
Proof.
  cbn zeta. unfold updateStats; cbn [stat_markets stat_events stat_wallets
                                     stat_volume].
  unfold Object_values.
  rewrite <- (fold_left_map (fun sum v => (sum + v)%Qc) snd).
  fold (sum_by (@snd string Qc) (volumeByMarket_of allEvents)).
  destruct (volumeByMarket_fold allEvents []) as (Hst & Hnd & Hkeys).
  fold (volumeByMarket_of allEvents) in Hst, Hnd, Hkeys.
  specialize (Hnd (NoDup_nil _)).
  assert (Hentry : forall id v,
             In (id, v) (volumeByMarket_of allEvents)
             <-> (exists e, In e allEvents /\ ev_conditionId e = id)
                 /\ v = market_peak id allEvents).
  { intros id v.
    rewrite (@obj_get_In _ _ _ String.eqb_spec _ _ _ Hnd).
    specialize (Hst id). specialize (Hkeys id).
    unfold stored_volume in Hst. cbn [obj_get map In] in Hst, Hkeys.
    fold (market_peak id allEvents) in Hst. split.
    - intro E. rewrite E in Hst. split; [| exact Hst].
      apply (@obj_get_Some_key _ _ _ String.eqb_spec) in E.
      apply Hkeys in E. tauto.
    - intros [He ->].
      destruct (obj_get String.eqb (volumeByMarket_of allEvents) id) eqn:E;
        [now rewrite Hst |].
      apply (@obj_get_None _ _ _ String.eqb_spec) in E.
      exfalso. apply E, Hkeys. now right. }
  assert (Hpeak : forall id, (0 <= market_peak id allEvents)%Qc).
  { intro id. unfold market_peak. apply (proj1 (fold_max_ge _ _)). }
  split; [reflexivity |]. split; [reflexivity |].
  split.
  { rewrite fold_sum_nat, Nat.add_0_l. apply floor_half. }
  split; [exact Hnd |]. split; [exact Hentry |].
  split; [| split].
  - rewrite sum_by_map. apply sum_by_ext_in.
    intros [id v] Hin. apply Hentry in Hin. cbn [fst snd]. tauto.
  - intros e He.
    assert (Hin : In (ev_conditionId e, market_peak (ev_conditionId e) allEvents)
                     (volumeByMarket_of allEvents)).
    { apply Hentry. split; [eauto | reflexivity]. }
    eapply Qcle_trans;
      [| apply (sum_by_member (@snd string Qc) _ _ ) with (2 := Hin)].
    + cbn [snd]. unfold market_peak. apply (proj2 (fold_max_ge _ _)).
      apply in_map. apply filter_In.
      split; [exact He | apply String.eqb_refl].
    + intros [id v] Hy. apply Hentry in Hy as [_ ->]. apply Hpeak.
  - intro Hpos.
    pose proof (volumeByMarket_upper allEvents [] Hpos) as Hup.
    fold (volumeByMarket_of allEvents) in Hup.
    assert (H0 : forall id, (0 <= stored_volume [] id)%Qc)
      by (intro; apply Qcle_refl).
    specialize (Hup H0). unfold sum_by at 2 in Hup. cbn [fold_left] in Hup.
    qc2q. lra.
Qed.

Lemma updateStats_spec_witness :
  (ev_totalVolume (Scenario.event_at 1700000000)
   <= stat_volume (updateStats [Scenario.a_market]
                     [Scenario.event_at 1700000000]))%Qc.
Proof.
  apply (proj1 (proj2 (proj2 (proj2 (proj2 (proj2 (proj2
           (updateStats_spec [Scenario.a_market]
              [Scenario.event_at 1700000000])))))))).
  now left.
Defined.

(** ** The hot markets *)

Lemma or_default_some (v : Qc) : Num.or_default (Some v) 0%Qc = v.
Proof.
  unfold Num.or_default. destruct (Qc_eq_bool v 0) eqn:E; [| reflexivity].
  apply Qc_eq_bool_true_iff in E. now rewrite E.
Qed.

Lemma obj_set_set {K V : Type} (eqb : K -> K -> bool)
  (eqb_spec : forall a b, reflect (a = b) (eqb a b))
  (o : list (K * V)) (k : K) (a b : V) :
  obj_set eqb (obj_set eqb o k a) k b = obj_set eqb o k b.
Proof.
  induction o as [| [k' v'] o IH]; cbn [obj_set].
  - destruct (eqb_spec k k); [reflexivity | congruence].
  - destruct (eqb_spec k' k) as [E | E]; cbn [obj_set].
    + destruct (eqb_spec k' k); [reflexivity | congruence].
    + destruct (eqb_spec k' k); [congruence |]. now rewrite IH.
Qed.

(** One pass of the loop: the entry of the event's market, created from the
    event if there is none, counts one more event and adds its volume. *)
Lemma marketEvents_step_spec (o : list (string * HotMarket)) (e : Event) :
  marketEvents_step o e
  = let m := match obj_get String.eqb o (ev_conditionId e) with
             | Some m => m
             | None => {| hm_market := ev_market e;
                          hm_type := ev_marketType e;
                          hm_count := 0; hm_volume := 0%Qc |}
             end in
    obj_set String.eqb o (ev_conditionId e)
      {| hm_market := hm_market m; hm_type := hm_type m;
         hm_count := hm_count m + 1;
         hm_volume := (hm_volume m + ev_totalVolume e)%Qc |}.
Proof.
  unfold marketEvents_step. rewrite or_default_some. cbn zeta.
  destruct (obj_get String.eqb o (ev_conditionId e)) as [m |] eqn:E.
  - rewrite E. reflexivity.
  - rewrite (@obj_get_set_same _ _ _ String.eqb_spec).
    apply (@obj_set_set _ _ _ String.eqb_spec).
Qed.

Lemma hot_count_set (o : list (string * HotMarket)) (id : string)
  (m : HotMarket) :
  (list_sum (map (fun p => hm_count (snd p)) (obj_set String.eqb o id m))
   + match obj_get String.eqb o id with
     | Some old => hm_count old
     | None => 0
     end
   = list_sum (map (fun p => hm_count (snd p)) o) + hm_count m)%nat.
Proof.
  induction o as [| [k' v'] o IH]; cbn [obj_set obj_get map].
  - cbn. lia.
  - destruct (String.eqb_spec k' id); cbn [map snd].
    + change (hm_count m + list_sum (map (fun p => hm_count (snd p)) o)
              + hm_count v'
              = hm_count v' + list_sum (map (fun p => hm_count (snd p)) o)
                + hm_count m)%nat. lia.
    + change (hm_count v'
              + list_sum (map (fun p => hm_count (snd p))
                              (obj_set String.eqb o id m))
              + match obj_get String.eqb o id with
                | Some old => hm_count old
                | None => 0
                end
              = hm_count v' + list_sum (map (fun p => hm_count (snd p)) o)
                + hm_count m)%nat. lia.
Qed.

Lemma absorb_cons (m : HotMarket) (e : Event) (l : list Event) :
  absorb {| hm_market := hm_market m; hm_type := hm_type m;
            hm_count := hm_count m + 1;
            hm_volume := (hm_volume m + ev_totalVolume e)%Qc |} l
  = absorb m (e :: l).
Proof.
  unfold absorb. cbn [hm_market hm_type hm_count hm_volume length fold_left].
  f_equal. lia.
Qed.

Lemma marketEvents_fold (events : list Event)
  (o : list (string * HotMarket)) :
  let o' := fold_left marketEvents_step events o in
  (forall id,
     obj_get String.eqb o' id
     = match obj_get String.eqb o id with
       | Some m => Some (absorb m (events_of_market id events))
       | None => hot_entry id events
       end)
  /\ (NoDup (map fst o) -> NoDup (map fst o'))
  /\ (list_sum (map (fun p => hm_count (snd p)) o')
      = list_sum (map (fun p => hm_count (snd p)) o) + length events)%nat.
Proof.
  cbn zeta. revert o.
  induction events as [| e events IH]; intro o; cbn [fold_left].
  - split; [| split; [auto | cbn [length]; lia]].
    intro id. unfold hot_entry, events_of_market. cbn [filter].
    destruct (obj_get String.eqb o id) as [m |]; [| reflexivity].
    unfold absorb. cbn [length fold_left]. rewrite Nat.add_0_r.
    now destruct m.
  - destruct (IH (marketEvents_step o e)) as (Hget & Hnd & Hsum).
    rewrite marketEvents_step_spec in *. cbn zeta in *.
    split; [| split].
    + intro id. rewrite Hget. unfold hot_entry, events_of_market.
      cbn [filter].
      destruct (String.eqb_spec (ev_conditionId e) id) as [<- | Hne].
      * rewrite (@obj_get_set_same _ _ _ String.eqb_spec).
        fold (events_of_market (ev_conditionId e) events).
        rewrite absorb_cons.
        now destruct (obj_get String.eqb o (ev_conditionId e)).
      * rewrite (@obj_get_set_other _ _ _ String.eqb_spec) by exact Hne.
        reflexivity.
    + intro H. apply Hnd. now apply (@obj_set_NoDup _ _ _ String.eqb_spec).
    + rewrite Hsum.
      match goal with
      | |- context [obj_set String.eqb o ?id ?m] =>
          pose proof (hot_count_set o id m) as Hset
      end.
      cbn [hm_count length] in Hset |- *.
      destruct (obj_get String.eqb o (ev_conditionId e)) as [m |];
        cbn [hm_count] in *; lia.
Qed.

(** X17. The hot-markets panel keeps one entry for each market that has
    filtered events, named after the first of them, counting them and adding
    up their volumes; the counts of all entries add up to the number of
    filtered events. It shows at most 5 entries, those with the most
    events, the larger counts first, each with at least one event and no
    more than the first entry, which sets the full bar width. *)
Theorem hot_markets_spec (filteredEvents : list Event) :
  let marketEvents := marketEvents_of filteredEvents in
  let sorted := hot_markets filteredEvents in
  NoDup (map fst marketEvents)
  /\ (forall id m,
        In (id, m) marketEvents
        <-> exists first rest,
              events_of_market id filteredEvents = first :: rest
              /\ m = {| hm_market := ev_market first;
                        hm_type := ev_marketType first;
                        hm_count := length (first :: rest);
                        hm_volume := sum_by ev_totalVolume (first :: rest) |})
  /\ list_sum (map hm_count (Object_values marketEvents))
     = length filteredEvents
  /\ (length sorted <= 5)%nat
  /\ StronglySorted (fun a b => (hm_count b <= hm_count a)%nat) sorted
  /\ (exists rest,
        Permutation (sorted ++ rest) (Object_values marketEvents)
        /\ forall a b, In a sorted -> In b rest ->
                       (hm_count b <= hm_count a)%nat)
  /\ (forall top others m,
        sorted = top :: others -> In m sorted ->
        (1 <= hm_count m <= hm_count top)%nat).
Proof.
  cbn zeta.
  destruct (marketEvents_fold filteredEvents []) as (Hget & Hnd & Hsum).
  fold (marketEvents_of filteredEvents) in Hget, Hnd, Hsum.
  specialize (Hnd (NoDup_nil _)). cbn [obj_get] in Hget.
  assert (Hentry : forall id m,
             In (id, m) (marketEvents_of filteredEvents)
             <-> exists first rest,
                   events_of_market id filteredEvents = first :: rest
                   /\ m = {| hm_market := ev_market first;
                             hm_type := ev_marketType first;
                             hm_count := length (first :: rest);
                             hm_volume :=
                               sum_by ev_totalVolume (first :: rest) |}).
  { intros id m.
    rewrite (@obj_get_In _ _ _ String.eqb_spec _ _ _ Hnd), Hget.
    unfold hot_entry.
    destruct (events_of_market id filteredEvents) as [| first rest].
    - split; [discriminate | intros (f & r & H & _); discriminate].
    - split.
      + intro E. injection E as <-. exists first, rest.
        split; reflexivity.
      + intros (f & r & H & ->). injection H as <- <-. reflexivity. }
  set (cmp := fun a b : HotMarket =>
                (Z.of_nat (hm_count b) - Z.of_nat (hm_count a) <=? 0)%Z).
  assert (Htotal : forall a b, cmp a b = true \/ cmp b a = true).
  { intros a b. unfold cmp.
    destruct (Z.leb_spec (Z.of_nat (hm_count b) - Z.of_nat (hm_count a)) 0);
      destruct (Z.leb_spec (Z.of_nat (hm_count a) - Z.of_nat (hm_count b)) 0);
      auto; lia. }
  assert (Htrans : forall a b c,
             cmp a b = true -> cmp b c = true -> cmp a c = true).
  { intros a b c Hab Hbc. unfold cmp in *.
    apply Z.leb_le in Hab, Hbc. apply Z.leb_le. lia. }
  assert (Hcmp : forall a b, cmp a b = true -> (hm_count b <= hm_count a)%nat).
  { intros a b H. unfold cmp in H. apply Z.leb_le in H. lia. }
  destruct (@top_k _ cmp Htotal Htrans 5
              (Object_values (marketEvents_of filteredEvents)))
    as (Hk & _ & Hperm & Hs & Hcross).
  fold (hot_markets filteredEvents) in Hk, Hperm, Hs, Hcross.
  assert (Hsorted : StronglySorted
                      (fun a b => (hm_count b <= hm_count a)%nat)
                      (hot_markets filteredEvents)).
  { eapply StronglySorted_impl; [| exact Hs]. exact Hcmp. }
  split; [exact Hnd |]. split; [exact Hentry |]. split.
  { unfold Object_values. rewrite map_map. rewrite Hsum. cbn. lia. }
  split; [exact Hk |]. split; [exact Hsorted |]. split.
  { eexists. split; [exact Hperm |]. intros a b Ha Hb. apply Hcmp.
    now apply Hcross. }
  intros top others m Hshape Hm. split.
  - assert (Hval : In m (Object_values (marketEvents_of filteredEvents))).
    { eapply Permutation_in; [exact Hperm |]. apply in_or_app. now left. }
    unfold Object_values in Hval. apply in_map_iff in Hval
      as ([id m'] & Heq & Hin). cbn [snd] in Heq. subst m'.
    apply Hentry in Hin as (first & rest & _ & ->). cbn. lia.
  - rewrite Hshape in Hsorted, Hm.
    inversion Hsorted as [| ? ? _ Hall]; subst.
    destruct Hm as [<- | Hm]; [lia |].
    rewrite Forall_forall in Hall. now apply Hall.
Qed.

Lemma hot_markets_spec_witness :
  match hot_markets [Scenario.event_at 1700000000] with
  | top :: _ => (1 <= hm_count top)%nat
  | [] => False
  end.
Proof.
  destruct (hot_markets [Scenario.event_at 1700000000])
    as [| top others] eqn:E.
  - vm_compute in E. discriminate.
  - assert (H := proj2 (proj2 (proj2 (proj2 (proj2 (proj2
                   (hot_markets_spec [Scenario.event_at 1700000000]))))))).
    cbn zeta in H. rewrite E in H.
    exact (proj1 (H top others top eq_refl (or_introl eq_refl))).
Defined.

(** ** The market sentiment *)

Lemma sentiment_fold (events : list Event) (tb ts : Qc) (bc sc : nat) :
  fold_left sentiment_step events (tb, ts, bc, sc)
  = (fold_left (fun sum e => (sum + ev_netVolume e)%Qc)
       (filter (fun e => Num.gtb (ev_netVolume e) 0) events) tb,
     fold_left (fun sum e => (sum + Qcabs (ev_netVolume e))%Qc)
       (filter (fun e => negb (Num.gtb (ev_netVolume e) 0)) events) ts,
     (bc + length (filter (fun e => Num.gtb (ev_netVolume e) 0) events))%nat,
     (sc + length (filter (fun e => negb (Num.gtb (ev_netVolume e) 0))
                          events))%nat).
Proof.
  revert tb ts bc sc.
  induction events as [| e events IH]; intros tb ts bc sc;
    cbn [fold_left filter].
  - cbn [length]. now rewrite !Nat.add_0_r.
  - unfold sentiment_step at 2.
    destruct (Num.gtb (ev_netVolume e) 0); cbn [negb fold_left length];
      rewrite IH, <- Nat.add_assoc; reflexivity.
Qed.

Lemma Qc_div_le_1 (a b : Qc) : (a <= b)%Qc -> (0 < b)%Qc -> (a / b <= 1)%Qc.
Proof.
  intros Hab Hb. apply Qcnot_lt_le. intro H.
  apply (@Qc_lt_div _ _ _ Hb) in H. rewrite Qcmult_1_l in H.
  exact (Qclt_not_le _ _ H Hab).
Qed.

Lemma percent_range (x : Qc) :
  (0 <= x)%Qc -> (x <= 1)%Qc ->
  (0 <= x * Num.of_Z 100)%Qc /\ (x * Num.of_Z 100 <= Num.of_Z 100)%Qc.
Proof. intros H0 H1. qc2q. unfold inject_Z. split; lra. Qed.

(** The five-way reading of the buy percentage. *)
Lemma sentiment_chain (p : Qc) :
  let s :=
    if Num.gtb p (Num.of_Z 65) then strongly_bullish
    else if Num.gtb p (Num.of_Z 55) then leaning_bullish
    else if Num.ltb p (Num.of_Z 35) then strongly_bearish
    else if Num.ltb p (Num.of_Z 45) then leaning_bearish
    else neutral in
  (s = strongly_bullish <-> (Num.of_Z 65 < p)%Qc)
  /\ (s = leaning_bullish <-> (Num.of_Z 55 < p)%Qc /\ (p <= Num.of_Z 65)%Qc)
  /\ (s = strongly_bearish <-> (p < Num.of_Z 35)%Qc)
  /\ (s = leaning_bearish <-> (Num.of_Z 35 <= p)%Qc /\ (p < Num.of_Z 45)%Qc)
  /\ (s = neutral <-> (Num.of_Z 45 <= p)%Qc /\ (p <= Num.of_Z 55)%Qc).
Proof.
  cbn zeta. unfold Num.ltb.
  destruct (Num.gtb p (Num.of_Z 65)) eqn:E65;
    destruct (Num.gtb p (Num.of_Z 55)) eqn:E55;
    destruct (Num.gtb (Num.of_Z 35) p) eqn:E35;
    destruct (Num.gtb (Num.of_Z 45) p) eqn:E45;
    try apply gtb_true_iff in E65; try apply gtb_false_iff in E65;
    try apply gtb_true_iff in E55; try apply gtb_false_iff in E55;
    try apply gtb_true_iff in E35; try apply gtb_false_iff in E35;
    try apply gtb_true_iff in E45; try apply gtb_false_iff in E45;
    repeat split; intros;
    try discriminate; try reflexivity; try assumption;
    try (qc2q; unfold inject_Z in *; lra);
    exfalso; qc2q; unfold inject_Z in *;
    repeat match goal with H : _ /\ _ |- _ => destruct H end; lra.
Qed.

(** X18. With no filtered event the sentiment panel shows no data.
    Otherwise every event counts on the buy side when its net volume is
    positive and on the sell side if not; the buy and sell totals are
    non-negative; the buy percentage lies between 0 and 100 and adds up to
    100 with the sell percentage; with no volume on either side it is 50,
    which reads as neutral; and the sentiment is strongly bullish above 65,
    leaning bullish above 55, strongly bearish below 35, leaning bearish
    below 45 and neutral in between. *)
Theorem updateMarketSentiment_spec (filteredEvents : list Event) :
  (filteredEvents = [] -> updateMarketSentiment filteredEvents = None)
  /\ (filteredEvents <> [] ->
      exists v,
        updateMarketSentiment filteredEvents = Some v
        /\ (buyCount v + sellCount v = length filteredEvents)%nat
        /\ buyCount v
           = length (filter (fun e => Num.gtb (ev_netVolume e) 0)
                            filteredEvents)
        /\ totalBuy v
           = sum_by ev_netVolume
               (filter (fun e => Num.gtb (ev_netVolume e) 0) filteredEvents)
        /\ totalSell v
           = sum_by (fun e => Qcabs (ev_netVolume e))
               (filter (fun e => negb (Num.gtb (ev_netVolume e) 0))
                       filteredEvents)
        /\ (0 <= totalBuy v)%Qc /\ (0 <= totalSell v)%Qc
        /\ (0 <= buyPct v)%Qc /\ (buyPct v <= Num.of_Z 100)%Qc
        /\ (buyPct v + sellPct v)%Qc = Num.of_Z 100
        /\ ((totalBuy v + totalSell v)%Qc = 0%Qc ->
            buyPct v = Num.of_Z 50 /\ sentiment v = neutral)
        /\ (sentiment v = strongly_bullish <-> (Num.of_Z 65 < buyPct v)%Qc)
        /\ (sentiment v = leaning_bullish
            <-> (Num.of_Z 55 < buyPct v)%Qc /\ (buyPct v <= Num.of_Z 65)%Qc)
        /\ (sentiment v = strongly_bearish <-> (buyPct v < Num.of_Z 35)%Qc)
        /\ (sentiment v = leaning_bearish
            <-> (Num.of_Z 35 <= buyPct v)%Qc /\ (buyPct v < Num.of_Z 45)%Qc)
        /\ (sentiment v = neutral
            <-> (Num.of_Z 45 <= buyPct v)%Qc /\ (buyPct v <= Num.of_Z 55)%Qc)).
Proof.
  split; [intros ->; reflexivity |].
  intro Hne. unfold updateMarketSentiment.
  destruct (Nat.eqb_spec (length filteredEvents) 0) as [E | _].
  { apply length_zero_iff_nil in E. contradiction. }
  rewrite sentiment_fold. cbn [Nat.add].
  fold (sum_by ev_netVolume
          (filter (fun e => Num.gtb (ev_netVolume e) 0) filteredEvents)).
  fold (sum_by (fun e => Qcabs (ev_netVolume e))
          (filter (fun e => negb (Num.gtb (ev_netVolume e) 0))
                  filteredEvents)).
  set (tb := sum_by ev_netVolume _).
  set (ts := sum_by (fun e => Qcabs (ev_netVolume e)) _).
  assert (Htb : (0 <= tb)%Qc).
  { apply sum_by_nonneg. intros e He. apply filter_In in He as [_ He].
    apply gtb_true_iff in He. now apply Qclt_le_weak. }
  assert (Hts : (0 <= ts)%Qc).
  { apply sum_by_nonneg. intros e _. apply Qcabs_nonneg. }
  set (p := if Num.gtb (tb + ts)%Qc 0
            then (tb / (tb + ts) * Num.of_Z 100)%Qc else Num.of_Z 50).
  assert (Hp : (0 <= p)%Qc /\ (p <= Num.of_Z 100)%Qc).
  { unfold p. destruct (Num.gtb (tb + ts)%Qc 0) eqn:Et.
    - apply gtb_true_iff in Et. apply percent_range.
      + now apply Qc_div_nonneg.
      + apply Qc_div_le_1; [| exact Et]. qc2q. lra.
    - split; apply leb_true_iff; vm_compute; reflexivity. }
  eexists. split; [reflexivity |].
  cbn [buyCount sellCount totalBuy totalSell buyPct sellPct sentiment].
  split.
  { pose proof (filter_length (fun e => Num.gtb (ev_netVolume e) 0)
                  filteredEvents). lia. }
  split; [reflexivity |]. split; [reflexivity |]. split; [reflexivity |].
  split; [exact Htb |]. split; [exact Hts |].
  split; [apply Hp |]. split; [apply Hp |].
  split; [ring |]. split.
  { intro Hzero. fold p.
    assert (Ep : p = Num.of_Z 50).
    { unfold p. rewrite Hzero. reflexivity. }
    split; [exact Ep |]. rewrite Ep. reflexivity. }
  apply sentiment_chain.
Qed.

Lemma updateMarketSentiment_spec_witness :
  exists v,
    updateMarketSentiment [Scenario.event_at 1700000000] = Some v
    /\ (buyCount v + sellCount v = 1)%nat.
Proof.
  destruct (proj2 (updateMarketSentiment_spec [Scenario.event_at 1700000000])
              ltac:(discriminate)) as (v & Hv & Hcount & _).
  exists v. split; [exact Hv | exact Hcount].
Defined.

(** ** Relative times *)

(** The age [now - timestamp], in seconds, of a timestamp read at
    [now_ms] milliseconds. *)
Lemma age_in_ms (now_ms timestamp : Z) :
  ((Num.of_Z now_ms / Num.of_Z 1000 - Num.of_Z timestamp)%Qc
   == inject_Z (now_ms - 1000 * timestamp) / inject_Z 1000)%Q.
Proof.
  qc2q. unfold Z.sub.
  rewrite inject_Z_plus, inject_Z_opp, inject_Z_mult. field.
Qed.

Lemma age_ltb (now_ms timestamp bound : Z) :
  Num.ltb (Num.of_Z now_ms / Num.of_Z 1000 - Num.of_Z timestamp)%Qc
          (Num.of_Z bound) = true
  <-> (now_ms - 1000 * timestamp < 1000 * bound)%Z.
Proof.
  unfold Num.ltb. rewrite gtb_true_iff. unfold Qclt.
  rewrite age_in_ms. unfold Num.of_Z, Q2Qc. cbn [this].
  rewrite Qred_correct, Zlt_Qlt, inject_Z_mult.
  set (d := inject_Z (now_ms - 1000 * timestamp)).
  change (inject_Z 1000) with (1000 # 1)%Q. split; intro H.
  - assert (E : (d == d / (1000 # 1) * (1000 # 1))%Q) by (field; discriminate).
    rewrite E. set (y := (d / (1000 # 1))%Q) in *. clearbody y. lra.
  - apply Qlt_shift_div_r; [reflexivity |]. lra.
Qed.

Lemma age_floor (now_ms timestamp : Z) (unit : positive) :
  Qfloor ((Num.of_Z now_ms / Num.of_Z 1000 - Num.of_Z timestamp)
          / Num.of_Z (Z.pos unit))%Qc
  = ((now_ms - 1000 * timestamp) / (1000 * Z.pos unit))%Z.
Proof.
  assert (E : (((Num.of_Z now_ms / Num.of_Z 1000 - Num.of_Z timestamp)
                / Num.of_Z (Z.pos unit))%Qc
               == (now_ms - 1000 * timestamp) # (1000 * unit))%Q).
  { unfold Qcdiv at 1, Qcmult at 1, Qcinv at 1, Q2Qc at 1. cbn [this].
    rewrite Qred_correct, age_in_ms.
    unfold Num.of_Z, Q2Qc. cbn [this]. rewrite !Qred_correct.
    rewrite (Qmake_Qdiv (now_ms - 1000 * timestamp) (1000 * unit)).
    rewrite Pos2Z.inj_mul, inject_Z_mult. field.
    intro H. unfold Qeq in H. cbn in H. lia. }
  rewrite E. reflexivity.
Qed.

(** X19. The relative time of an event is "just now" for an age under a
    minute (a timestamp in the future included), and otherwise the age in
    whole minutes, from 1 to 59, under an hour, in whole hours, from 1 to
    23, under a day, and in whole days from there on. *)
Theorem formatTime_spec (now_ms timestamp : Z) :
  let age_ms := (now_ms - 1000 * timestamp)%Z in
  ((age_ms < 60000)%Z -> formatTime now_ms timestamp = just_now)
  /\ ((60000 <= age_ms < 3600000)%Z ->
      formatTime now_ms timestamp = minutes_ago (age_ms / 60000)
      /\ (1 <= age_ms / 60000 <= 59)%Z)
  /\ ((3600000 <= age_ms < 86400000)%Z ->
      formatTime now_ms timestamp = hours_ago (age_ms / 3600000)
      /\ (1 <= age_ms / 3600000 <= 23)%Z)
  /\ ((86400000 <= age_ms)%Z ->
      formatTime now_ms timestamp = days_ago (age_ms / 86400000)
      /\ (1 <= age_ms / 86400000)%Z).
Proof.
  cbn zeta. unfold formatTime.
  pose proof (age_ltb now_ms timestamp 60) as H60.
  pose proof (age_ltb now_ms timestamp 3600) as H3600.
  pose proof (age_ltb now_ms timestamp 86400) as H86400.
  rewrite (age_floor now_ms timestamp 60),
          (age_floor now_ms timestamp 3600),
          (age_floor now_ms timestamp 86400).
  change (1000 * 60)%Z with 60000%Z in *.
  change (1000 * 3600)%Z with 3600000%Z in *.
  change (1000 * 86400)%Z with 86400000%Z in *.
  change (1000 * Z.pos 60)%Z with 60000%Z.
  change (1000 * Z.pos 3600)%Z with 3600000%Z.
  change (1000 * Z.pos 86400)%Z with 86400000%Z.
  set (age := (now_ms - 1000 * timestamp)%Z) in *.
  destruct (Num.ltb _ (Num.of_Z 60)) eqn:E60;
    destruct (Num.ltb _ (Num.of_Z 3600)) eqn:E3600;
    destruct (Num.ltb _ (Num.of_Z 86400)) eqn:E86400;
    repeat match goal with
           | H : true = true <-> _ |- _ =>
               apply proj1 in H; specialize (H eq_refl)
           | H : false = true <-> ?P |- _ =>
               assert (~ P) by (intro HP; apply H in HP; discriminate);
               clear H
           end;
    (split; [intro | split; [intro | split; intro]]);
    try lia; try reflexivity;
    (split; [reflexivity |]);
    first [ split; [apply Z.div_le_lower_bound; lia
                   | apply Z.lt_succ_r, Z.div_lt_upper_bound; lia]
          | apply Z.div_le_lower_bound; lia ].
Qed.

Lemma formatTime_spec_witness :
  formatTime 1700000600000 1700000000 = minutes_ago 10.
Proof.
  exact (proj1 (proj1 (proj2 (formatTime_spec 1700000600000 1700000000))
                  ltac:(cbn; lia))).
Defined.

(** ** Alerts on new events *)

(** X20. Over successive refresh cycles the alert sound is played exactly
    in the cycles whose event count exceeds a non-zero count of the cycle
    before; a notification is shown in those cycles when permission is
    granted, and announces the difference of the two counts. So neither the
    first cycle nor a cycle that follows one without events alerts. *)
Theorem refresh_alerts_spec (granted : bool) (lastEventCount : nat)
  (counts : list nat) :
  length (refresh_alerts granted lastEventCount counts) = length counts
  /\ (forall i prev cur a,
        nth_error (lastEventCount :: counts) i = Some prev ->
        nth_error counts i = Some cur ->
        nth_error (refresh_alerts granted lastEventCount counts) i = Some a ->
        (sound a = true <-> (0 < prev < cur)%nat)
        /\ notified a
           = (if granted && sound a then Some (cur - prev)%nat else None))
  /\ (forall a, lastEventCount = 0%nat ->
        nth_error (refresh_alerts granted lastEventCount counts) 0 = Some a ->
        sound a = false /\ notified a = None).
Proof.
  assert (Hstep : forall last cur,
             let a := fst (checkNewEvents granted last cur) in
             snd (checkNewEvents granted last cur) = cur
             /\ (sound a = true <-> (0 < last < cur)%nat)
             /\ notified a
                = (if granted && sound a then Some (cur - last)%nat
                   else None)).
  { intros last cur. cbn zeta. unfold checkNewEvents.
    destruct (Nat.ltb_spec 0 last), (Nat.ltb_spec last cur);
      cbn [andb fst snd sound notified];
      (split; [reflexivity |]); (split; [split; [intro; try discriminate; lia | intro; try reflexivity; lia] |]);
      destruct granted; reflexivity. }
  split; [| split].
  - revert lastEventCount.
    induction counts as [| c counts IH]; intro last; cbn [refresh_alerts];
      [reflexivity |].
    destruct (checkNewEvents granted last c) as [a last'].
    cbn [length]. now rewrite IH.
  - revert lastEventCount.
    induction counts as [| c counts IH]; intros last i prev cur a Hprev Hcur Ha.
    + destruct i; discriminate.
    + cbn [refresh_alerts] in Ha.
      destruct (Hstep last c) as (Hsnd & Hsound & Hnote). cbn zeta in *.
      destruct (checkNewEvents granted last c) as [a0 last'].
      cbn [fst snd] in *. subst last'.
      destruct i as [| i]; cbn [nth_error] in Hprev, Hcur, Ha.
      * injection Hprev as <-. injection Hcur as <-. injection Ha as <-.
        split; assumption.
      * eapply IH; eassumption.
  - intros a -> Ha. destruct counts as [| c counts]; [discriminate |].
    cbn [refresh_alerts checkNewEvents Nat.ltb Nat.leb andb] in Ha.
    cbn [nth_error] in Ha. injection Ha as <-. split; reflexivity.
Qed.

Lemma refresh_alerts_spec_witness :
  sound {| notified := Some 2%nat; sound := true |} = true
  <-> (0 < 3 < 5)%nat.
Proof.
  exact (proj1 (proj1 (proj2 (refresh_alerts_spec true 0 [3; 5; 0; 4])%nat)
                  1%nat 3%nat 5%nat _ eq_refl eq_refl eq_refl)).
Defined.

(** * The selection of markets *)

Lemma prefix_iff (needle hay : string) :
  String.prefix needle hay = true
  <-> exists post, hay = (needle ++ post)%string.
Proof.
  revert hay. induction needle as [| a needle IH]; intro hay.
  - destruct hay; cbn; split; eauto.
  - destruct hay as [| b hay]; cbn [String.prefix].
    + split; [discriminate | intros (post & H); discriminate].
    + destruct (Ascii.ascii_dec a b) as [<- | Hne].
      * rewrite IH. split; intros (post & H); exists post; cbn.
        -- now rewrite H.
        -- cbn in H. now injection H.
      * split; [discriminate |]. intros (post & H). cbn in H.
        injection H as H _. congruence.
Qed.

Lemma contains_iff (needle hay : string) :
  contains needle hay = true
  <-> exists pre post, hay = (pre ++ needle ++ post)%string.
Proof.
  induction hay as [| c hay IH]; cbn [contains].
  - destruct (String.prefix needle EmptyString) eqn:E.
    + apply prefix_iff in E as (post & H). split; [| reflexivity].
      intros _. exists EmptyString, post. exact H.
    + split; [discriminate |]. intros (pre & post & H).
      destruct pre; cbn in H; [| discriminate].
      assert (Hp : String.prefix needle EmptyString = true)
        by (apply prefix_iff; eauto).
      congruence.
  - destruct (String.prefix needle (String c hay)) eqn:E.
    + apply prefix_iff in E as (post & H). split; [| reflexivity].
      intros _. exists EmptyString, post. exact H.
    + rewrite IH. split.
      * intros (pre & post & H). exists (String c pre), post. cbn.
        now rewrite H.
      * intros (pre & post & H). destruct pre as [| c' pre]; cbn in H.
        -- assert (Hp : String.prefix needle (String c hay) = true)
             by (apply prefix_iff; eauto).
           congruence.
        -- injection H as _ H. eauto.
Qed.

Lemma test_words_iff (words : list string) (slug : string) :
  test_words words slug = true
  <-> exists w, In w words
                /\ exists pre post, slug = (pre ++ w ++ post)%string.
Proof.
  unfold test_words. rewrite existsb_exists.
  split; intros (w & Hw & H); exists w; (split; [exact Hw |]);
    now apply contains_iff.
Qed.

(** X21. A market is typed by the words that occur in its slug: short-term
    when one of the short-term words occurs, sports when none of those but
    one of the sports words occurs, and general otherwise. *)
Theorem market_type_of_spec (slug : string) :
  let occurs words :=
    exists w, In w words
              /\ exists pre post, slug = (pre ++ w ++ post)%string in
  (market_type_of slug = "short_term"%string <-> occurs short_term_words)
  /\ (market_type_of slug = "sports"%string
      <-> ~ occurs short_term_words /\ occurs sports_words)
  /\ (market_type_of slug = "general"%string
      <-> ~ occurs short_term_words /\ ~ occurs sports_words).
Proof.
  cbn zeta. rewrite <- !test_words_iff. unfold market_type_of.
  destruct (test_words short_term_words slug);
    destruct (test_words sports_words slug);
    repeat split; intros; try discriminate; try reflexivity;
    try tauto; try (intro; discriminate);
    repeat match goal with H : _ /\ _ |- _ => destruct H end;
    try congruence.
Qed.

Lemma keep_market_iff (m : RawMarket) :
  keep_market m = true
  <-> (exists id, raw_conditionId m = Some id /\ id <> EmptyString)
      /\ (Num.of_Z 100 <= raw_volume m)%Qc
      /\ (Num.of_Z 10 <= Num.or_default (raw_liquidity m) 0)%Qc.
Proof.
  unfold keep_market, Num.ltb.
  destruct (raw_conditionId m) as [id |].
  - destruct (String.eqb_spec id EmptyString) as [-> | Hid].
    + split; [discriminate |]. intros ((id & E & Hne) & _).
      injection E as <-. congruence.
    + destruct (Num.gtb (Num.of_Z 100) (raw_volume m)) eqn:Ev.
      * apply gtb_true_iff in Ev. split; [discriminate |].
        intros (_ & H & _). exfalso. exact (Qclt_not_le _ _ Ev H).
      * apply gtb_false_iff in Ev.
        destruct (Num.gtb (Num.of_Z 10) _) eqn:El.
        -- apply gtb_true_iff in El. split; [discriminate |].
           intros (_ & _ & H). exfalso. exact (Qclt_not_le _ _ El H).
        -- apply gtb_false_iff in El. split; [| reflexivity].
           intros _. split; [eauto | split; assumption].
  - split; [discriminate |]. intros ((id & E & _) & _). discriminate.
Qed.

(** X22. The selected markets are at most [limit] entries of the response,
    each with a non-empty condition id, a 24-hour volume of at least 100
    and a liquidity of at least 10, scored 0.7 times the volume plus 0.3
    times the liquidity and listed by descending score; no qualifying
    market left out scores above a selected one. *)
Theorem fetchMarkets_spec (data : list RawMarket) (limit : nat) :
  let selected := fetchMarkets data limit in
  let qualifying := map process_market (filter keep_market data) in
  (length selected <= limit)%nat
  /\ (forall s, In s selected ->
        exists m,
          In m data /\ s = process_market m
          /\ conditionId (sm_market s) <> EmptyString
          /\ (Num.of_Z 100 <= volume24h (sm_market s))%Qc
          /\ (Num.of_Z 10 <= liquidity (sm_market s))%Qc
          /\ sm_score s
             = (volume24h (sm_market s) * Num.frac 7 10
                + liquidity (sm_market s) * Num.frac 3 10)%Qc)
  /\ StronglySorted (fun a b => (sm_score b <= sm_score a)%Qc) selected
  /\ exists rest,
       Permutation (selected ++ rest) qualifying
       /\ forall a b, In a selected -> In b rest ->
                      (sm_score b <= sm_score a)%Qc.
Proof.
  cbn zeta.
  destruct (@top_k _ (descending sm_score) (@descending_total _ sm_score)
              (@descending_trans _ sm_score) limit
              (map process_market (filter keep_market data)))
    as (Hk & _ & Hperm & Hs & Hcross).
  fold (fetchMarkets data limit) in Hk, Hperm, Hs, Hcross.
  split; [exact Hk |]. split; [| split].
  - intros s Hs'.
    assert (Hin : In s (map process_market (filter keep_market data))).
    { eapply Permutation_in; [exact Hperm |]. apply in_or_app. now left. }
    apply in_map_iff in Hin as (m & <- & Hm).
    apply filter_In in Hm as [Hm Hkeep].
    apply keep_market_iff in Hkeep as ((id & Eid & Hid) & Hv & Hl).
    exists m. split; [exact Hm |]. split; [reflexivity |].
    cbn [process_market sm_market sm_score conditionId volume24h liquidity].
    rewrite Eid. cbn [or_empty]. repeat split; assumption.
  - eapply StronglySorted_impl; [| exact Hs].
    intros a b. apply descending_iff.
  - eexists. split; [exact Hperm |].
    intros a b Ha Hb. apply descending_iff. now apply Hcross.
Qed.

Lemma fetchMarkets_spec_witness :
  exists m,
    In m Scenario.raw_markets
    /\ (Num.of_Z 10 <= liquidity (sm_market (process_market m)))%Qc.
Proof.
  destruct (proj1 (proj2 (fetchMarkets_spec Scenario.raw_markets 10))
              (process_market
                 (mkRawMarket (Some "0xabc"%string)
                    (Some "Lakers vs Celtics today?"%string)
                    (Some "NBA-Lakers-vs-Celtics-Today"%string)
                    None (Some (Num.of_Z 5000)) (Some (Num.of_Z 12000)))))
    as (m & Hm & Heq & _ & _ & Hl & _).
  - vm_compute. left. reflexivity.
  - exists m. split; [exact Hm |]. rewrite <- Heq. exact Hl.
Defined.

Lemma market_type_of_spec_witness :
  market_type_of "nba-lakers-vs-celtics-today" = "short_term"%string.
Proof.
  apply (proj2 (proj1 (market_type_of_spec "nba-lakers-vs-celtics-today"))).
  exists "today"%string. split; [cbn; tauto |].
  exists "nba-lakers-vs-celtics-"%string, EmptyString. reflexivity.
Defined.

(** * How many events the medians allow *)

Lemma above_median_at_most_half (arr : list Qc) :
  (2 * length (filter (fun x => Num.gtb x (median arr)) arr)
   <= length arr)%nat.
Proof.
  destruct arr as [| a arr0] eqn:E; [cbn; lia |]. rewrite <- E.
  assert (Hne : arr <> []) by (rewrite E; discriminate).
  pose proof (median_lower_half Hne) as Hlow.
  pose proof (filter_length (fun x => Num.leb x (median arr)) arr) as Hsplit.
  cbv beta in Hsplit.
  change (fun x => negb (Num.leb x (median arr)))
    with (fun x => Num.gtb x (median arr)) in Hsplit.
  lia.
Qed.

Lemma filter_map_length {A B : Type} (f : B -> bool) (g : A -> B)
  (l : list A) :
  length (filter f (map g l)) = length (filter (fun x => f (g x)) l).
Proof.
  induction l as [| x l IH]; cbn [map filter]; [reflexivity |].
  destruct (f (g x)); cbn [length]; now rewrite IH.
Qed.

Lemma map_nth_error_seq {A : Type} (l : list A) :
  map (nth_error l) (seq 0 (length l)) = map Some l.
Proof.
  induction l as [| a l IH]; cbn [length seq map nth_error]; [reflexivity |].
  f_equal. rewrite <- seq_shift, map_map. exact IH.
Qed.

(** Counting over the indices is counting over the list. *)
Lemma count_indices {A : Type} (f : A -> bool) (l : list A) :
  length (filter (fun i => match nth_error l i with
                           | Some x => f x
                           | None => false
                           end) (seq 0 (length l)))
  = length (filter f l).
Proof.
  rewrite <- (filter_map_length
                (fun o : option A => match o with
                                     | Some x => f x
                                     | None => false
                                     end) (nth_error l)).
  rewrite map_nth_error_seq, filter_map_length. reflexivity.
Qed.

Lemma count_for_push {A B : Type} (body : A -> result (list B))
  (p : B -> bool) (q : A -> bool) (xs : list A) (outs : list B) :
  for_push body xs = Ok outs ->
  (forall x out, In x xs -> body x = Ok out ->
     (length (filter p out) <= if q x then 1 else 0)%nat) ->
  (length (filter p outs) <= length (filter q xs))%nat.
Proof.
  revert outs. induction xs as [| x xs IH]; intros outs Hrun Hstep;
    cbn [for_push] in Hrun.
  - injection Hrun as <-. cbn. lia.
  - destruct (body x) as [out |] eqn:Ex; [| discriminate].
    cbn [bind] in Hrun.
    destruct (for_push body xs) as [more |]; [| discriminate].
    cbn [bind] in Hrun. injection Hrun as <-.
    rewrite filter_app, length_app. cbn [filter].
    pose proof (Hstep x out (or_introl eq_refl) Ex) as Hx.
    assert (Hmore : (length (filter p more) <= length (filter q xs))%nat).
    { apply IH; [reflexivity |]. intros y o Hy. apply Hstep. now right. }
    destruct (q x); cbn [length]; lia.
Qed.

Lemma count_for_push2 {A B C : Type} (body1 : A -> result (list B))
  (body2 : A -> result (list C)) (p : B -> bool) (q : C -> bool)
  (xs : list A) (outs1 : list B) (outs2 : list C) :
  for_push body1 xs = Ok outs1 ->
  for_push body2 xs = Ok outs2 ->
  (forall x out1 out2, In x xs -> body1 x = Ok out1 -> body2 x = Ok out2 ->
     (length (filter p out1) <= length (filter q out2))%nat) ->
  (length (filter p outs1) <= length (filter q outs2))%nat.
Proof.
  revert outs1 outs2.
  induction xs as [| x xs IH]; intros outs1 outs2 Hrun1 Hrun2 Hstep;
    cbn [for_push] in Hrun1, Hrun2.
  - injection Hrun1 as <-. cbn. lia.
  - destruct (body1 x) as [out1 |] eqn:E1; [| discriminate].
    destruct (body2 x) as [out2 |] eqn:E2; [| discriminate].
    cbn [bind] in Hrun1, Hrun2.
    destruct (for_push body1 xs) as [more1 |]; [| discriminate].
    destruct (for_push body2 xs) as [more2 |]; [| discriminate].
    cbn [bind] in Hrun1, Hrun2.
    injection Hrun1 as <-. injection Hrun2 as <-.
    rewrite !filter_app, !length_app.
    pose proof (Hstep x out1 out2 (or_introl eq_refl) E1 E2).
    assert ((length (filter p more1) <= length (filter q more2))%nat).
    { apply IH; [reflexivity | reflexivity |].
      intros y o1 o2 Hy. apply Hstep. now right. }
    lia.
Qed.

Lemma for_push_length {A B : Type} (body : A -> result (list B))
  (xs : list A) (outs : list B) :
  for_push body xs = Ok outs ->
  (forall x out, In x xs -> body x = Ok out -> (length out <= 1)%nat) ->
  (length outs <= length xs)%nat.
Proof.
  revert outs. induction xs as [| x xs IH]; intros outs Hrun Hstep;
    cbn [for_push] in Hrun.
  - injection Hrun as <-. cbn. lia.
  - destruct (body x) as [out |] eqn:Ex; [| discriminate].
    cbn [bind] in Hrun.
    destruct (for_push body xs) as [more |]; [| discriminate].
    cbn [bind] in Hrun. injection Hrun as <-.
    rewrite length_app. cbn [length].
    pose proof (Hstep x out (or_introl eq_refl) Ex).
    assert ((length more <= length xs)%nat).
    { apply IH; [reflexivity |]. intros y o Hy. apply Hstep. now right. }
    lia.
Qed.

Lemma keep_after_count (p : Event -> bool) (events : list Event)
  (lastKept : Z) :
  (length (filter p (Spec.keep_after lastKept events))
   <= length (filter p events))%nat.
Proof.
  revert lastKept. induction events as [| e rest IH]; intro lastKept;
    cbn [Spec.keep_after filter]; [lia |].
  destruct (_ <=? _)%Z; cbn [filter].
  - specialize (IH (ev_timestamp e)). destruct (p e); cbn [length]; lia.
  - specialize (IH lastKept). destruct (p e); cbn [length]; lia.
Qed.

(** The events [detectAnomalies] returns, as the kept part of the detection
    loop's output under the market's medians. *)
Lemma detectAnomalies_raw (trades : list Trade) (market : Market)
  (events : list Event) :
  detectAnomalies trades market = Ok events ->
  events = []
  \/ exists allStats raw,
       all_stats (sort_trades trades) = Ok allStats
       /\ for_push (detect_at (sort_trades trades) market
                      (median (map volume allStats))
                      (median (map notional (sort_trades trades))))
                   (seq 0 (length (sort_trades trades))) = Ok raw
       /\ events = dedupe raw.
Proof.
  unfold detectAnomalies. intro Hrun.
  destruct (all_stats (sort_trades trades)) as [allStats |];
    [| discriminate].
  cbn [bind] in Hrun. destruct (length allStats =? 0)%nat.
  { left. now injection Hrun. }
  match type of Hrun with
  | context [for_push ?body ?xs] =>
      destruct (for_push body xs) as [raw |] eqn:Eraw; [| discriminate]
  end.
  cbn [bind] in Hrun. injection Hrun as <-.
  right. exists allStats, raw. auto.
Qed.

(** X23. At most half of a market's trades can come back as whale events:
    a whale trade is more than 20 times the median trade size, and no more
    than half of the trades lie above the median. *)
Theorem whale_events_at_most_half (trades : list Trade) (market : Market)
  (events : list Event)
  (Hrun : detectAnomalies trades market = Ok events) :
  (2 * length (filter (fun e => includes (ev_anomalies e) whale_trade) events)
   <= length trades)%nat.
Proof.
  destruct (detectAnomalies_raw _ _ Hrun)
    as [-> | (allStats & raw & _ & Hraw & ->)]; [cbn; lia |].
  set (sorted := sort_trades trades) in *.
  set (mt := median (map notional sorted)) in *.
  assert (Hcount :
            (length (filter (fun e => includes (ev_anomalies e) whale_trade)
                            raw)
             <= length (filter (fun t => Num.gtb (notional t) mt) sorted))%nat).
  { rewrite <- (count_indices (fun t => Num.gtb (notional t) mt) sorted).
    eapply count_for_push; [exact Hraw |].
    intros i out _ Hout.
    destruct out as [| e rest]; [cbn; lia |].
    destruct (@detect_at_event _ _ _ _ _ _ e Hout (or_introl eq_refl))
      as (t & Ht & _ & Hone & _ & Hkinds & _).
    injection Hone as ->. rewrite Ht. cbn [filter].
    destruct (includes (ev_anomalies e) whale_trade) eqn:Ew;
      [| cbn; lia].
    apply includes_In in Ew. rewrite Hkinds in Ew.
    apply classify_In in Ew. apply andb_true_iff in Ew as [Hmt Hbig].
    apply gtb_true_iff in Hmt, Hbig.
    unfold metrics_of in Hbig; cbn [currentSize] in Hbig.
    assert (Habove : Num.gtb (notional t) mt = true).
    { apply gtb_true_iff. fold mt in Hmt, Hbig. revert Hmt Hbig.
      generalize (notional t). generalize mt. intros m n Hm Hn.
      qc2q. unfold inject_Z in *. lra. }
    rewrite Habove. cbn. lia. }
  pose proof (above_median_at_most_half (map notional sorted)) as Hhalf.
  fold mt in Hhalf. rewrite filter_map_length, length_map in Hhalf.
  assert (Hlen : length sorted = length trades) by apply js_sort_length.
  rewrite dedupe_keep_after.
  pose proof (keep_after_count
                (fun e => includes (ev_anomalies e) whale_trade) raw 0).
  lia.
Qed.

Lemma whale_events_at_most_half_witness :
  match detectAnomalies Scenario.all_buy_tape Scenario.a_market with
  | Ok events =>
      (2 * length (filter (fun e => includes (ev_anomalies e) whale_trade)
                          events) <= 5)%nat
  | Throw => False
  end.
Proof.
  destruct (detectAnomalies Scenario.all_buy_tape Scenario.a_market)
    as [events |] eqn:E.
  - exact (whale_events_at_most_half _ _ E).
  - vm_compute in E. discriminate.
Defined.

Lemma sides_le_all {A : Type} (f : A -> Qc) (buy sell : A -> bool)
  (l : list A) :
  (forall x, In x l -> (0 <= f x)%Qc) ->
  (forall x, buy x = true -> sell x = false) ->
  (sum_by f (filter buy l) + sum_by f (filter sell l) <= sum_by f l)%Qc.
Proof.
  intros Hpos Hdisj. induction l as [| x l IH]; cbn [filter].
  - unfold sum_by. cbn. qc2q. lra.
  - assert (Hx : (0 <= f x)%Qc) by (apply Hpos; now left).
    assert (IH' : (sum_by f (filter buy l) + sum_by f (filter sell l)
                   <= sum_by f l)%Qc)
      by (apply IH; intros y Hy; apply Hpos; now right).
    rewrite (sum_by_cons f x l).
    destruct (buy x) eqn:Eb.
    + rewrite (Hdisj x Eb), sum_by_cons. qc2q. lra.
    + destruct (sell x); [rewrite sum_by_cons |]; qc2q; lra.
Qed.

Lemma notional_nonneg (t : Trade) :
  (forall s, size t = Some s -> (0 <= s)%Qc) ->
  (forall p, price t = Some p -> (0 <= p)%Qc) ->
  (0 <= notional t)%Qc.
Proof.
  intros Hs Hp. unfold notional.
  apply Qc_mult_nonneg; now apply or_default_nonneg.
Qed.

(** X24. When every size and price is non-negative, at most half of a
    market's trades can come back as volume-spike events: a spike window
    holds more than 5 times the median window volume, and no more than half
    of the qualifying windows lie above the median. *)
Theorem volume_spike_events_at_most_half (trades : list Trade)
  (market : Market) (events : list Event)
  (Hpos : forall t, In t trades ->
            (forall s, size t = Some s -> (0 <= s)%Qc)
            /\ (forall p, price t = Some p -> (0 <= p)%Qc))
  (Hrun : detectAnomalies trades market = Ok events) :
  (2 * length (filter (fun e => includes (ev_anomalies e) volume_spike)
                      events)
   <= length trades)%nat.
Proof.
  destruct (detectAnomalies_raw _ _ Hrun)
    as [-> | (allStats & raw & Hstats & Hraw & ->)]; [cbn; lia |].
  set (sorted := sort_trades trades) in *.
  set (mv := median (map volume allStats)) in *.
  assert (Hnot : forall t, In t sorted -> (0 <= notional t)%Qc).
  { intros t Ht.
    assert (Ht' : In t trades)
      by (eapply Permutation_in; [apply js_sort_perm | exact Ht]).
    destruct (Hpos t Ht'). now apply notional_nonneg. }
  assert (Hcount :
            (length (filter (fun e => includes (ev_anomalies e) volume_spike)
                            raw)
             <= length (filter (fun s => Num.gtb (volume s) mv)
                               allStats))%nat).
  { eapply count_for_push2; [exact Hraw | exact Hstats |].
    intros i out1 out2 _ Hout1 Hout2.
    destruct out1 as [| e rest]; [cbn; lia |].
    destruct (@detect_at_event _ _ _ _ _ _ e Hout1 (or_introl eq_refl))
      as (t & Ht & Hlen & Hone & _ & Hkinds & _).
    injection Hone as ->. cbn [filter].
    destruct (includes (ev_anomalies e) volume_spike) eqn:Es;
      [| cbn; lia].
    apply includes_In in Es. rewrite Hkinds in Es.
    apply classify_In in Es. apply andb_true_iff in Es as [Hmv Hbig].
    apply gtb_true_iff in Hmv, Hbig.
    unfold stats_at in Hout2. rewrite Ht in Hout2.
    destruct (Nat.leb_spec 3
                (length (window_at sorted i (timestamp t)))); [| lia].
    injection Hout2 as <-. cbn [filter volume].
    unfold metrics_of in Hbig; cbn [totalVol] in Hbig.
    set (window := window_at sorted i (timestamp t)) in *.
    assert (Hle : (sum_by notional
                     (filter (fun x => Side_eqb (side x) BUY) window)
                   + sum_by notional
                       (filter (fun x => Side_eqb (side x) SELL) window)
                   <= sum_by notional window)%Qc).
    { apply sides_le_all.
      - intros x Hx. apply Hnot. unfold window, window_at in Hx.
        apply filter_In in Hx as [Hx _]. eapply In_firstn. exact Hx.
      - intros x Hx. destruct (side x); try discriminate; reflexivity. }
    assert (Habove : Num.gtb (sum_by notional window) mv = true).
    { apply gtb_true_iff. fold mv in Hmv, Hbig. revert Hmv Hbig Hle.
      generalize (sum_by notional window).
      generalize (sum_by notional
                    (filter (fun x => Side_eqb (side x) BUY) window)).
      generalize (sum_by notional
                    (filter (fun x => Side_eqb (side x) SELL) window)).
      generalize mv. intros m s b v Hm Hb Hv.
      qc2q. unfold inject_Z in *. lra. }
    rewrite Habove. cbn. lia. }
  pose proof (above_median_at_most_half (map volume allStats)) as Hhalf.
  fold mv in Hhalf. rewrite filter_map_length, length_map in Hhalf.
  assert (Hstat_len : (length allStats <= length sorted)%nat).
  { unfold all_stats in Hstats.
    assert (H : (length allStats <= length (seq 0 (length sorted)))%nat).
    { eapply for_push_length; [exact Hstats |].
      intros i out _ Hout. unfold stats_at in Hout.
      destruct (nth_error sorted i); [| discriminate].
      destruct (3 <=? _)%nat; injection Hout as <-; cbn; lia. }
    now rewrite length_seq in H. }
  assert (Hlen : length sorted = length trades) by apply js_sort_length.
  rewrite dedupe_keep_after.
  pose proof (keep_after_count
                (fun e => includes (ev_anomalies e) volume_spike) raw 0).
  lia.
Qed.

Lemma volume_spike_events_at_most_half_witness :
  match detectAnomalies Scenario.all_buy_tape Scenario.a_market with
  | Ok events =>
      (2 * length (filter (fun e => includes (ev_anomalies e) volume_spike)
                          events) <= 5)%nat
  | Throw => False
  end.
Proof.
  assert (Hpos : forall t, In t Scenario.all_buy_tape ->
             (forall s, size t = Some s -> (0 <= s)%Qc)
             /\ (forall p, price t = Some p -> (0 <= p)%Qc)).
  { intros t Ht. cbn in Ht.
    repeat (destruct Ht as [<- | Ht]);
      try contradiction;
      (split; intros v Hv; injection Hv as <-;
       apply leb_true_iff; vm_compute; reflexivity). }
  destruct (detectAnomalies Scenario.all_buy_tape Scenario.a_market)
    as [events |] eqn:E.
  - exact (@volume_spike_events_at_most_half _ _ _ Hpos E).
  - vm_compute in E. discriminate.
Defined.
